(** * Disc Golf Tracker: the local-first data layer, embedded and verified

    A shallow embedding of the round-scoring state machine ([App] in
    [src/js/app.js]), the local store and pending-operation queue ([Storage],
    second half of [src/js/statistics.js]), the queue replay
    ([SheetsAPI.processPendingSync], second half of [src/js/sheets-api.js])
    and the per-hole statistics ([Statistics.calculateHoleStats]).

    Conventions of the embedding:
    - a JavaScript number that the code obtains from [parseInt] is an integer
      or [NaN]; it is a [jsnum], integers being unbounded ([Z]): the loss of
      precision of doubles above 2^53 is not modelled;
    - [null] is [None] of an [option];
    - the text of a DOM input is a [string] of bytes; the white space that
      [parseInt] and [trim] skip is the ASCII part of the ECMAScript set;
    - an exception is an abrupt [completion]; a rejected promise is the
      abrupt completion of the [async] function that returned it. *)

From Stdlib Require Import ZArith List Bool Ascii String Lia QArith Qcanon Qround.
From stdpp Require Import base option list strings gmap pretty.

Local Open Scope string_scope.
Local Open Scope list_scope.
Local Open Scope Z_scope.

(** ** JavaScript values *)

Module JS.

(** The numbers the program handles: integers and [NaN]. *)
Inductive jsnum : Type :=
| NaN
| Num (z : Z).

#[global] Instance jsnum_eq_dec : EqDecision jsnum.
Proof. solve_decision. Defined.

Definition isNaN (n : jsnum) : bool :=
  match n with NaN => true | Num _ => false end.

(** [a < b], [a > b] on numbers: false as soon as one side is [NaN]. *)
Definition lt (a b : jsnum) : bool :=
  match a, b with Num x, Num y => x <? y | _, _ => false end.
Definition gt (a b : jsnum) : bool := lt b a.

Definition add (a b : jsnum) : jsnum :=
  match a, b with Num x, Num y => Num (x + y) | _, _ => NaN end.
Definition sub (a b : jsnum) : jsnum :=
  match a, b with Num x, Num y => Num (x - y) | _, _ => NaN end.

(** [Number.isInteger]: every non-[NaN] number of the model is one. *)
Definition Number_isInteger (n : jsnum) : bool := negb (isNaN n).

(** [n || d] for a number [n]: [NaN] and [0] are falsy. *)
Definition num_or (n : jsnum) (d : Z) : Z :=
  match n with
  | NaN => d
  | Num z => if z =? 0 then d else z
  end.

(** White space skipped by [parseInt] and removed by [trim]
    (TAB, LF, VT, FF, CR, SP). *)
Definition is_space (c : ascii) : bool :=
  let n := nat_of_ascii c in
  ((9 <=? n) && (n <=? 13))%nat || (n =? 32)%nat.

Definition is_digit (c : ascii) : bool :=
  let n := nat_of_ascii c in ((48 <=? n) && (n <=? 57))%nat.

Definition digit_value (c : ascii) : Z := Z.of_nat (nat_of_ascii c) - 48.

Fixpoint skip_space (s : string) : string :=
  match s with
  | String c r => if is_space c then skip_space r else s
  | EmptyString => EmptyString
  end.

(** The longest prefix of decimal digits, read left to right with the
    value [acc] of the digits already consumed; [seen] tells whether at
    least one digit was consumed. *)
Fixpoint read_digits (s : string) (seen : bool) (acc : Z) : jsnum :=
  match s with
  | String c r =>
      if is_digit c then read_digits r true (10 * acc + digit_value c)
      else if seen then Num acc else NaN
  | EmptyString => if seen then Num acc else NaN
  end.

Definition neg (n : jsnum) : jsnum :=
  match n with NaN => NaN | Num z => Num (- z) end.

(** [parseInt(s, 10)]: leading white space, an optional sign, then the
    longest run of decimal digits; [NaN] when there is no digit. *)
Definition parseInt (s : string) : jsnum :=
  match skip_space s with
  | String "-" r => neg (read_digits r false 0)
  | String "+" r => read_digits r false 0
  | t => read_digits t false 0
  end.

Fixpoint rev_string (s acc : string) : string :=
  match s with
  | String c r => rev_string r (String c acc)
  | EmptyString => acc
  end.

(** [s.trim()]. *)
Definition trim (s : string) : string :=
  rev_string (skip_space (rev_string (skip_space s) "")) "".

(** Truthiness of a string: only the empty string is falsy. *)
Definition truthy_string (s : string) : bool :=
  match s with EmptyString => false | _ => true end.

End JS.

Import JS.

(** ** Configuration ([src/js/config.js]) *)

Module CONFIG.

Module statistics.
Definition minRoundsForAverage : nat := 1.
Definition minDataPointsForDetailedStats : nat := 3.
End statistics.

(** [CONFIG.storageKeys[name]]; a name that is not a property gives
    [undefined], which [localStorage] turns into the key ["undefined"]. *)
Definition storageKeys (name : string) : string :=
  if String.eqb name "spreadsheetId" then "dgtracker_spreadsheet_id"
  else if String.eqb name "courses" then "dgtracker_courses"
  else if String.eqb name "holes" then "dgtracker_holes"
  else if String.eqb name "rounds" then "dgtracker_rounds"
  else if String.eqb name "scores" then "dgtracker_scores"
  else if String.eqb name "currentRound" then "dgtracker_current_round"
  else if String.eqb name "pendingSync" then "dgtracker_pending_sync"
  else if String.eqb name "lastSync" then "dgtracker_last_sync"
  else if String.eqb name "userInfo" then "dgtracker_user_info"
  else "undefined".

Module sheets.
Definition courses := "Courses".
Definition holes := "Holes".
Definition rounds := "Rounds".
Definition scores := "Scores".
End sheets.

Module sheetHeaders.
Definition courses : list string :=
  ["course_id"; "course_name"; "hole_count"; "created_date"; "last_played"].
Definition holes : list string :=
  ["hole_id"; "course_id"; "hole_number"; "par"; "distance"].
Definition rounds : list string :=
  ["round_id"; "course_id"; "round_date"; "completed"; "total_score"; "total_par"].
Definition scores : list string :=
  ["score_id"; "round_id"; "hole_id"; "hole_number"; "throws"; "approaches";
   "putts"; "created_at"].
End sheetHeaders.

End CONFIG.

(** ** Score-entry validation ([App.validateScoreEntry]) *)

Module Validation.

Record ValidationError : Type := mkError {
  field : string;
  message : string
}.

#[global] Instance ValidationError_eq_dec : EqDecision ValidationError.
Proof. solve_decision. Defined.

Record ValidationResult : Type := mkResult {
  isValid : bool;
  errors : list ValidationError
}.

(** The three inputs of the score-entry form, as the DOM holds them. *)
Record ScoreInputs : Type := mkInputs {
  score_throws : string;
  score_approaches : string;
  score_putts : string
}.

(** The [throws] block: at most one error. *)
Definition check_throws (throws : jsnum) : list ValidationError :=
  if isNaN throws || JS.lt throws (Num 1) then
    [mkError "throws" "Throws must be at least 1"]
  else if JS.gt throws (Num 20) then
    [mkError "throws" "Throws cannot exceed 20"]
  else if negb (Number_isInteger throws) then
    [mkError "throws" "Throws must be a whole number"]
  else [].

(** The block shared, up to its wording, by [approaches] and [putts]:
    skipped when the trimmed text is empty. *)
Definition check_optional (fld Name : string) (value : string)
  : list ValidationError :=
  if negb (String.eqb value "") then
    let n := parseInt value in
    if isNaN n || JS.lt n (Num 0) then
      [mkError fld (Name +:+ " must be 0 or more")]
    else if JS.gt n (Num 19) then
      [mkError fld (Name +:+ " cannot exceed 19")]
    else if negb (Number_isInteger n) then
      [mkError fld (Name +:+ " must be a whole number")]
    else []
  else [].

Definition consistency_error : ValidationError :=
  mkError "consistency"
    "Approaches + Putts cannot exceed throws - 1 (need at least 1 drive)".

(** The consistency block, run on the errors collected so far. *)
Definition check_consistency (errs : list ValidationError)
    (throws : jsnum) (approachesValue puttsValue : string)
  : list ValidationError :=
  if (length errs =? 0)%nat && negb (String.eqb approachesValue "")
     && negb (String.eqb puttsValue "") then
    let approaches := parseInt approachesValue in
    let putts := parseInt puttsValue in
    if JS.gt (JS.add approaches putts) (JS.sub throws (Num 1)) then
      [consistency_error]
    else []
  else [].

Definition validateScoreEntry (i : ScoreInputs) : ValidationResult :=
  let throws := parseInt (score_throws i) in
  let approachesValue := trim (score_approaches i) in
  let puttsValue := trim (score_putts i) in
  let errors1 := check_throws throws in
  let errors2 := errors1 ++ check_optional "approaches" "Approaches" approachesValue in
  let errors3 := errors2 ++ check_optional "putts" "Putts" puttsValue in
  let errors4 := errors3 ++ check_consistency errors3 throws approachesValue puttsValue in
  mkResult (length errors4 =? 0)%nat errors4.

(** An error is a field error when it is scoped to one of the three
    inputs, and a consistency error otherwise. *)
Definition is_field_error (e : ValidationError) : bool :=
  String.eqb (field e) "throws" || String.eqb (field e) "approaches"
  || String.eqb (field e) "putts".

Definition is_consistency_error (e : ValidationError) : bool :=
  String.eqb (field e) "consistency".

(** [lo <= n <= hi] for a number read by [parseInt]; false for [NaN]. *)
Definition in_range (lo hi : Z) (n : jsnum) : bool :=
  match n with
  | Num z => (lo <=? z) && (z <=? hi)
  | NaN => false
  end.

(** [validateScoreEntry(...).isValid] in closed form, on the numbers that
    [parseInt] reads in the three texts: the decision that the code takes,
    whatever the texts hold after the digits that [parseInt] consumed. *)
Definition accepted (i : ScoreInputs) : bool :=
  let primary := parseInt (score_throws i) in
  let approaches := trim (score_approaches i) in
  let putts := trim (score_putts i) in
  let fields_ok :=
    in_range 1 20 primary
    && (String.eqb approaches "" || in_range 0 19 (parseInt approaches))
    && (String.eqb putts "" || in_range 0 19 (parseInt putts)) in
  fields_ok
  && (if negb (String.eqb approaches "") && negb (String.eqb putts "")
      then match parseInt approaches, parseInt putts, primary with
           | Num a, Num p, Num t => a + p <=? t - 1
           | _, _, _ => true
           end
      else true).

(** *** The validation protocol of the specification (4.3)

    The protocol is a function of the three input values and asks each of
    them to be an integer. An input value is what the text of a field
    writes: nothing when the text is blank; an integer when the text is,
    white space around it apart, an optional sign followed by decimal
    digits and nothing else; and otherwise something that is not an
    integer (["4.9"], ["1e1"], ["7 or 8"], ["abc"]). *)
Inductive input_value : Type :=
| Absent
| Integer (z : Z)
| NotInteger.

Fixpoint all_digits (s : string) : bool :=
  match s with
  | String c r => is_digit c && all_digits r
  | EmptyString => true
  end.

(** The value of a text of decimal digits, [acc] being the value of the
    digits before it. *)
Fixpoint decimal_value (s : string) (acc : Z) : Z :=
  match s with
  | String c r => decimal_value r (10 * acc + digit_value c)
  | EmptyString => acc
  end.

(** The number written by at least one decimal digit and nothing else. *)
Definition unsigned (s : string) : option Z :=
  if truthy_string s && all_digits s then Some (decimal_value s 0) else None.

Definition input_value_of (text : string) : input_value :=
  match trim text with
  | EmptyString => Absent
  | String "-" r =>
      match unsigned r with Some n => Integer (- n) | None => NotInteger end
  | String "+" r =>
      match unsigned r with Some n => Integer n | None => NotInteger end
  | t =>
      match unsigned t with Some n => Integer n | None => NotInteger end
  end.

(** Rule 1: the primary value is required and is an integer in 1..20. *)
Definition rule_primary (primary : input_value) : bool :=
  match primary with
  | Integer t => (1 <=? t) && (t <=? 20)
  | Absent | NotInteger => false
  end.

(** Rules 2 and 3: a sub-value, if present, is an integer in 0..19. *)
Definition rule_optional (v : input_value) : bool :=
  match v with
  | Absent => true
  | Integer a => (0 <=? a) && (a <=? 19)
  | NotInteger => false
  end.

(** Rule 4, evaluated when both sub-values are present and rules 1 to 3
    passed: approaches + putts is at most the primary value minus 1. *)
Definition rule_consistency (primary approaches putts : input_value) : bool :=
  match primary, approaches, putts with
  | Integer t, Integer a, Integer p => a + p <=? t - 1
  | _, _, _ => true
  end.

Definition protocol (primary approaches putts : input_value) : bool :=
  rule_primary primary && rule_optional approaches && rule_optional putts
  && rule_consistency primary approaches putts.

(** The protocol on the values that the three texts of the form write. *)
Definition spec_protocol (i : ScoreInputs) : bool :=
  protocol (input_value_of (score_throws i))
           (input_value_of (score_approaches i))
           (input_value_of (score_putts i)).

End Validation.

Import Validation.

(** ** Data model *)

(** A scalar of a stored record. Records are JSON data: [localStorage] holds
    them as JSON text and the remote rows are JSON, so a field is [null], a
    boolean, an integer or a string, and writing a record out and reading it
    back gives the same record. *)
Inductive value : Type :=
| VNull
| VBool (b : bool)
| VNum (z : Z)
| VStr (s : string).

#[global] Instance value_eq_dec : EqDecision value.
Proof. solve_decision. Defined.

(** A record (a plain object): field name to value; a field that is not in
    the map reads as [undefined]. *)
Abbreviation obj := (gmap string value).

(** [a === b] on two field reads ([None] is [undefined]). *)
Definition strict_eq (a b : option value) : bool := bool_decide (a = b).

(** [array.findIndex(f)]; [None] stands for [-1]. *)
Fixpoint findIndex {A : Type} (f : A -> bool) (l : list A) : option nat :=
  match l with
  | [] => None
  | x :: r => if f x then Some 0%nat else S <$> findIndex f r
  end.

(** How a function ends: normally with a result, or abruptly with the name
    of the exception it threw (for an [async] function, the rejection of its
    promise). *)
Inductive completion (A : Type) : Type :=
| Normal (a : A)
| Throw (e : string).
Arguments Normal {A} a.
Arguments Throw {A} e.

Module Hole.
Record t : Type := mk {
  hole_id : string;
  course_id : string;
  hole_number : Z;
  par : Z;
  distance : option jsnum
}.
End Hole.

Module Score.
Record t : Type := mk {
  score_id : string;
  round_id : string;
  hole_id : string;
  hole_number : Z;
  throws : option jsnum;
  approaches : option jsnum;
  putts : option jsnum;
  created_at : string
}.
End Score.

Module Course.
Record t : Type := mk {
  course_id : string;
  course_name : string;
  hole_count : Z;
  created_date : string;
  last_played : option string
}.
End Course.

(** The state of the round being played ([App.state.currentRound]);
    [total_score] and [total_par] are absent until the round is finished. *)
Module Round.
Record t : Type := mk {
  round_id : string;
  course_id : string;
  courseName : string;
  round_date : string;
  completed : bool;
  holes : list Hole.t;
  scores : list Score.t;
  isNewCourse : bool;
  currentHoleIndex : Z;
  holeCount : Z;
  courseData : option Course.t;
  total_score : option Z;
  total_par : option Z
}.

Definition with_scores (r : t) (s : list Score.t) : t :=
  mk (round_id r) (course_id r) (courseName r) (round_date r) (completed r)
     (holes r) s (isNewCourse r) (currentHoleIndex r) (holeCount r)
     (courseData r) (total_score r) (total_par r).

Definition with_holes (r : t) (h : list Hole.t) : t :=
  mk (round_id r) (course_id r) (courseName r) (round_date r) (completed r)
     h (scores r) (isNewCourse r) (currentHoleIndex r) (holeCount r)
     (courseData r) (total_score r) (total_par r).

Definition with_currentHoleIndex (r : t) (i : Z) : t :=
  mk (round_id r) (course_id r) (courseName r) (round_date r) (completed r)
     (holes r) (scores r) (isNewCourse r) i (holeCount r)
     (courseData r) (total_score r) (total_par r).

Definition finished (r : t) (score par : Z) : t :=
  mk (round_id r) (course_id r) (courseName r) (round_date r) true
     (holes r) (scores r) (isNewCourse r) (currentHoleIndex r) (holeCount r)
     (courseData r) (Some score) (Some par).
End Round.

(** A queued remote mutation: [{type, data, timestamp}]. The [type] is one
    of the six strings that [processPendingSync] dispatches on. *)
Inductive Operation : Type :=
| op_saveCourse (data : obj)
| op_saveHoles (data : list obj)
| op_saveRound (data : obj)
| op_updateRound (data : obj)
| op_saveScores (data : list obj)
| op_updateCourseLastPlayed (courseId date : value).

Record PendingOp : Type := mkPending {
  pending_op : Operation;
  timestamp : string
}.

(** What JSON text does to a number: [NaN] is written as [null]. *)
Definition json_number (n : option jsnum) : option jsnum :=
  match n with
  | Some NaN => None
  | _ => n
  end.

Definition json_hole (h : Hole.t) : Hole.t :=
  Hole.mk (Hole.hole_id h) (Hole.course_id h) (Hole.hole_number h) (Hole.par h)
          (json_number (Hole.distance h)).

Definition json_score (s : Score.t) : Score.t :=
  Score.mk (Score.score_id s) (Score.round_id s) (Score.hole_id s)
           (Score.hole_number s) (json_number (Score.throws s))
           (json_number (Score.approaches s)) (json_number (Score.putts s))
           (Score.created_at s).

(** [JSON.parse(JSON.stringify(round))]. *)
Definition json_round (r : Round.t) : Round.t :=
  Round.with_holes (Round.with_scores r (map json_score (Round.scores r)))
                   (map json_hole (Round.holes r)).

(** ** The local store ([Storage]) *)

Module Storage.

(** *** The two browser stores *)

(** What sits under a [localStorage] key: text that [JSON.parse] accepts,
    given by the value it parses to, or text on which it throws. A key
    without an entry is absent ([getItem] gives [null]). *)
Inductive cell (A : Type) : Type :=
| Corrupt
| Stored (a : A).
Arguments Corrupt {A}.
Arguments Stored {A} a.

(** [localStorage], by the shape of what the program keeps under each key:
    record arrays under the collection keys, the pending queue under
    [dgtracker_pending_sync], the round snapshot under
    [dgtracker_current_round]. Writes always succeed: the capacity of the
    browser store is not modelled. *)
Record localStorage : Type := mkLocal {
  ls_items : gmap string (cell (list obj));
  ls_pendingSync : option (cell (list PendingOp));
  ls_currentRound : option (cell Round.t)
}.

Definition empty_localStorage : localStorage := mkLocal ∅ None None.

(** A key of an IndexedDB object store: a number or a string. *)
Inductive idbkey : Type :=
| KNum (z : Z)
| KStr (s : string).

#[global] Instance idbkey_eq_dec : EqDecision idbkey.
Proof. solve_decision. Defined.

#[global] Instance idbkey_countable : Countable idbkey.
Proof.
  refine (inj_countable'
            (fun k => match k with KNum z => inl z | KStr s => inr s end)
            (fun x => match x with inl z => KNum z | inr s => KStr s end) _).
  intros []; reflexivity.
Defined.

(** An object store with an in-line key path. [records] maps each key to
    its record; the order in which [getAll] lists them is the order of the
    map, not IndexedDB's key order. *)
Record ObjectStore : Type := mkStore {
  keyPath : string;
  autoIncrement : bool;
  keyGenerator : Z;
  records : gmap idbkey obj
}.

Record IDBDatabase : Type := mkDB {
  objectStores : gmap string ObjectStore
}.

(** The stores that [init] creates in [onupgradeneeded]. *)
Definition created_database : IDBDatabase :=
  mkDB (<["courses" := mkStore "course_id" false 1 ∅]>
        (<["holes" := mkStore "hole_id" false 1 ∅]>
        (<["rounds" := mkStore "round_id" false 1 ∅]>
        (<["scores" := mkStore "score_id" false 1 ∅]>
        (<["pendingSync" := mkStore "id" true 1 ∅]> ∅))))).

(** [Storage]: [db] is [null] when IndexedDB could not be opened. *)
Record t : Type := mk {
  db : option IDBDatabase;
  local : localStorage
}.

(** The key that a value stands for, if it is a valid key. *)
Definition valid_key (v : option value) : option idbkey :=
  match v with
  | Some (VNum z) => Some (KNum z)
  | Some (VStr s) => Some (KStr s)
  | _ => None
  end.

(** [store.put(item)] of IndexedDB. With a valid key on the key path the
    record is stored under it; without the property, a store with a key
    generator draws the next key and writes it into the record; otherwise
    the call throws [DataError]. *)
Definition store_put (os : ObjectStore) (item : obj) : completion ObjectStore :=
  match item !! keyPath os with
  | Some v =>
      match valid_key (Some v) with
      | Some k =>
          let gen :=
            match k with
            | KNum z => if autoIncrement os then Z.max (keyGenerator os) (z + 1)
                        else keyGenerator os
            | KStr _ => keyGenerator os
            end in
          Normal (mkStore (keyPath os) (autoIncrement os) gen
                          (<[k := item]> (records os)))
      | None => Throw "DataError"
      end
  | None =>
      if autoIncrement os then
        let k := keyGenerator os in
        Normal (mkStore (keyPath os) true (k + 1)
                        (<[KNum k := <[keyPath os := VNum k]> item]> (records os)))
      else Throw "DataError"
  end.

(** *** localStorage methods *)

(** [Storage.get(key)] on a collection key: the [catch] turns a failed
    parse into [null]. *)
Definition get_items (ls : localStorage) (key : string) : option (list obj) :=
  match ls_items ls !! key with
  | Some (Stored v) => Some v
  | Some Corrupt => None
  | None => None
  end.

(** [Storage.set(key, value)] on a collection key. *)
Definition set_items (ls : localStorage) (key : string) (v : list obj)
  : localStorage :=
  mkLocal (<[key := Stored v]> (ls_items ls)) (ls_pendingSync ls)
          (ls_currentRound ls).

(** [x || []]. *)
Definition or_empty {A : Type} (x : option (list A)) : list A :=
  match x with Some l => l | None => [] end.

(** [storeName.slice(0, -1)]. *)
Fixpoint slice_0_m1 (s : string) : string :=
  match s with
  | EmptyString => EmptyString
  | String c EmptyString => EmptyString
  | String c r => String c (slice_0_m1 r)
  end.

Definition keyField (storeName : string) : string :=
  slice_0_m1 storeName +:+ "_id".

(** *** IndexedDB methods *)

(** [getAll(storeName)]. [request_ok] tells whether the IndexedDB request
    ends in [onsuccess] ([true]) or in [onerror]. [db.transaction] throws
    [NotFoundError] for a name that is not an object store of the
    database; it is called in the executor of the promise, which is
    rejected with what the executor throws. *)
Definition getAll (st : t) (request_ok : bool) (storeName : string)
  : completion (list obj) :=
  match db st with
  | None => Normal (or_empty (get_items (local st) (CONFIG.storageKeys storeName)))
  | Some d =>
      match objectStores d !! storeName with
      | None => Throw "NotFoundError"
      | Some os =>
          if request_ok then Normal (snd <$> map_to_list (records os))
          else Normal []
      end
  end.

(** [put(storeName, item)]: the completion and the store afterwards. *)
Definition put (st : t) (request_ok : bool) (storeName : string) (item : obj)
  : completion bool * t :=
  match db st with
  | None =>
      let items := or_empty (get_items (local st) (CONFIG.storageKeys storeName)) in
      let keyField := keyField storeName in
      let index := findIndex (fun i => strict_eq (i !! keyField) (item !! keyField)) items in
      let items' :=
        match index with
        | Some n => <[n := item]> items
        | None => items ++ [item]
        end in
      (Normal true,
       mk None (set_items (local st) (CONFIG.storageKeys storeName) items'))
  | Some d =>
      match objectStores d !! storeName with
      | None => (Throw "NotFoundError", st)
      | Some os =>
          match store_put os item with
          | Throw e => (Throw e, st)
          | Normal os' =>
              if request_ok then
                (Normal true,
                 mk (Some (mkDB (<[storeName := os']> (objectStores d)))) (local st))
              else (Normal false, st)
          end
      end
  end.

(** *** Pending sync queue *)

(** [getPendingSync()]: [this.get(key) || []]. *)
Definition getPendingSync (ls : localStorage) : list PendingOp :=
  match ls_pendingSync ls with
  | Some (Stored q) => q
  | _ => []
  end.

(** [Storage.set(CONFIG.storageKeys.pendingSync, q)]. *)
Definition set_pendingSync (ls : localStorage) (q : list PendingOp)
  : localStorage :=
  mkLocal (ls_items ls) (Some (Stored q)) (ls_currentRound ls).

(** [addPendingSync(operation)] at the instant [now]. *)
Definition addPendingSync (ls : localStorage) (op : Operation) (now : string)
  : bool * localStorage :=
  let pending := getPendingSync ls in
  (true, set_pendingSync ls (pending ++ [mkPending op now])).

(** *** Current round *)

Definition saveCurrentRound (ls : localStorage) (roundState : Round.t)
  : localStorage :=
  mkLocal (ls_items ls) (ls_pendingSync ls) (Some (Stored (json_round roundState))).

Definition getCurrentRound (ls : localStorage) : option Round.t :=
  match ls_currentRound ls with
  | Some (Stored r) => Some r
  | _ => None
  end.

End Storage.

(** ** The remote gateway and the replay of the queue ([SheetsAPI]) *)

Module SheetsAPI.

(** A request to the sheets service, as the three row methods issue it. *)
Inductive Call : Type :=
| GetRows (sheetName : string)
| CreateRow (sheetName : string) (data : obj)
| UpdateRow (sheetName : string) (rowIndex : Z) (data : obj).

(** One entry of the log of requests: the call and whether it succeeded. *)
Record Event : Type := mkEvent {
  ev_call : Call;
  ev_ok : bool
}.

(** [String(value)] for the values that are neither [null] nor boolean. *)
Definition String_of (v : value) : string :=
  match v with
  | VNull => "null"
  | VBool b => if b then "true" else "false"
  | VNum z => pretty z
  | VStr s => s
  end.

(** [prepareRowData(data, headers)]. *)
Definition prepareRowData (data : obj) (headers : list string) : obj :=
  fold_left
    (fun prepared header =>
       match data !! header with
       | None | Some VNull => <[header := VStr ""]> prepared
       | Some (VBool b) => <[header := VStr (if b then "TRUE" else "FALSE")]> prepared
       | Some v => <[header := VStr (String_of v)]> prepared
       end)
    headers ∅.

Section Gateway.

(** The remote service: a state and, for each request, the outcome and
    the state afterwards. The outcome is [None] when [request] throws (no
    answer, or an answer whose status is not ok), and else the rows of
    the answer ([result?.rows || []], of use to [getRows] only). *)
Context {GW : Type}.
Variable gateway : Call -> GW -> option (list obj) * GW.

(** The network as the replay sees it: the service and the log of the
    requests made so far. *)
Record Net : Type := mkNet {
  gw : GW;
  log : list Event
}.

(** An [async] method: it runs on the network and completes. *)
Definition Async (A : Type) : Type := Net -> completion A * Net.

Definition ret {A : Type} (a : A) : Async A := fun n => (Normal a, n).

Definition bind {A B : Type} (m : Async A) (k : A -> Async B) : Async B :=
  fun n =>
    match m n with
    | (Normal a, n') => k a n'
    | (Throw e, n') => (Throw e, n')
    end.

(** [try { m } catch (error) { h }]. *)
Definition try_catch {A : Type} (m : Async A) (h : Async A) : Async A :=
  fun n =>
    match m n with
    | (Normal a, n') => (Normal a, n')
    | (Throw _, n') => h n'
    end.

Notation "x <- m ;; k" := (bind m (fun x => k))
  (at level 100, m at next level, right associativity).
Notation "m ;;; k" := (bind m (fun _ => k))
  (at level 100, right associativity).

(** [request(path, options)]. *)
Definition request (c : Call) : Async (list obj) :=
  fun n =>
    match gateway c (gw n) with
    | (Some rows, g) => (Normal rows, mkNet g (log n ++ [mkEvent c true]))
    | (None, g) => (Throw "Error", mkNet g (log n ++ [mkEvent c false]))
    end.

Definition getRows (sheetName : string) : Async (list obj) :=
  request (GetRows sheetName).

Definition createRow (sheetName : string) (data : obj) : Async unit :=
  request (CreateRow sheetName data) ;;; ret tt.

Definition updateRow (sheetName : string) (rowIndex : Z) (data : obj)
  : Async unit :=
  request (UpdateRow sheetName rowIndex data) ;;; ret tt.

(** [for (const x of xs) { await createRow(sheet, prepareRowData(x, headers)) }]. *)
Fixpoint createRows (sheetName : string) (headers : list string)
    (xs : list obj) : Async unit :=
  match xs with
  | [] => ret tt
  | x :: r =>
      createRow sheetName (prepareRowData x headers) ;;;
      createRows sheetName headers r
  end.

Definition saveCourse (course : obj) : Async unit :=
  createRow CONFIG.sheets.courses
            (prepareRowData course CONFIG.sheetHeaders.courses).

Definition saveHoles (holes : list obj) : Async unit :=
  createRows CONFIG.sheets.holes CONFIG.sheetHeaders.holes holes.

Definition saveRound (round : obj) : Async unit :=
  createRow CONFIG.sheets.rounds
            (prepareRowData round CONFIG.sheetHeaders.rounds).

Definition updateRound (round : obj) : Async bool :=
  allRounds <- getRows CONFIG.sheets.rounds ;;
  match findIndex (fun r => strict_eq (r !! "round_id") (round !! "round_id"))
                  allRounds with
  | None => ret false
  | Some rowIndex =>
      let apiRowIndex := Z.of_nat rowIndex + 2 in
      let data := prepareRowData round CONFIG.sheetHeaders.rounds in
      updateRow CONFIG.sheets.rounds apiRowIndex data ;;;
      ret true
  end.

Definition saveScores (scores : list obj) : Async unit :=
  createRows CONFIG.sheets.scores CONFIG.sheetHeaders.scores scores.

Definition updateCourseLastPlayed (courseId date : value) : Async bool :=
  allCourses <- getRows CONFIG.sheets.courses ;;
  match findIndex (fun c => strict_eq (c !! "course_id") (Some courseId))
                  allCourses with
  | None => ret false
  | Some rowIndex =>
      let course := <["last_played" := date]> (default ∅ (allCourses !! rowIndex)) in
      let apiRowIndex := Z.of_nat rowIndex + 2 in
      let data := prepareRowData course CONFIG.sheetHeaders.courses in
      updateRow CONFIG.sheets.courses apiRowIndex data ;;;
      ret true
  end.

(** The [switch (operation.type)] of [processPendingSync]. *)
Definition dispatch (op : Operation) : Async unit :=
  match op with
  | op_saveCourse data => saveCourse data
  | op_saveHoles data => saveHoles data
  | op_saveRound data => saveRound data
  | op_updateRound data => updateRound data ;;; ret tt
  | op_saveScores data => saveScores data
  | op_updateCourseLastPlayed courseId date =>
      updateCourseLastPlayed courseId date ;;; ret tt
  end.

(** The body of the [for] loop over [pending], from the operation at
    hand to the last one, with the [failed] array built so far. *)
Fixpoint replay (pending failed : list PendingOp) : Async (list PendingOp) :=
  match pending with
  | [] => ret failed
  | operation :: rest =>
      failed' <- try_catch (dispatch (pending_op operation) ;;; ret failed)
                           (ret (failed ++ [operation])) ;;
      replay rest failed'
  end.

(** [processPendingSync()], on the [localStorage] it reads the queue
    from and writes the failed operations to. *)
Definition processPendingSync (ls : Storage.localStorage)
  : Async (bool * Storage.localStorage) :=
  let pending := Storage.getPendingSync ls in
  if (length pending =? 0)%nat then ret (true, ls)
  else
    failed <- replay pending [] ;;
    ret ((length failed =? 0)%nat, Storage.set_pendingSync ls failed).

End Gateway.

End SheetsAPI.

(** ** Statistics ([Statistics], first half of [src/js/statistics.js]) *)

Module Statistics.

(** [v !== null && !isNaN(v)]. *)
Definition is_number (v : option jsnum) : bool :=
  match v with
  | Some (Num _) => true
  | _ => false
  end.

Definition number_value (v : option jsnum) : Z :=
  match v with
  | Some (Num z) => z
  | _ => 0
  end.

(** [Utils.average(numbers)], as an exact fraction; [None] is [null]. *)
Definition average (numbers : list (option jsnum)) : option Qc :=
  if (length numbers =? 0)%nat then None
  else
    let validNumbers := filter (fun n => is_number n = true) numbers in
    if (length validNumbers =? 0)%nat then None
    else
      let sum := fold_left (fun a b => a + number_value b) validNumbers 0 in
      Some (Qc_of_Z sum / Qc_of_Z (Z.of_nat (length validNumbers)))%Qc.

(** [Utils.roundTo(num, 1)]: [Math.round(num * 10) / 10], [Math.round]
    being the floor of its argument plus one half. The arithmetic is
    exact here; the program computes it on doubles. *)
Definition roundTo (num : option Qc) : option Qc :=
  match num with
  | None => Some 0%Qc
  | Some q =>
      Some (Qc_of_Z (Qfloor (q * Qc_of_Z 10 + Q2Qc (1 # 2))%Qc) / Qc_of_Z 10)%Qc
  end.

Record HoleStats : Type := mkHoleStats {
  hasData : bool;
  roundCount : nat;
  avgScore : option Qc;
  avgApproaches : option Qc;
  avgPutts : option Qc;
  hasEnoughApproachData : option bool;
  hasEnoughPuttData : option bool
}.

Definition calculateHoleStats (holeId : string) (scores : list Score.t)
  : HoleStats :=
  let holeScores := filter (fun s => Score.hole_id s = holeId) scores in
  if (length holeScores =? 0)%nat then
    mkHoleStats false 0 None None None None None
  else
    let throwsValues := filter (fun v => is_number v = true) (map Score.throws holeScores) in
    let approachesValues := filter (fun v => is_number v = true) (map Score.approaches holeScores) in
    let puttsValues := filter (fun v => is_number v = true) (map Score.putts holeScores) in
    let minRounds := CONFIG.statistics.minDataPointsForDetailedStats in
    mkHoleStats
      (CONFIG.statistics.minRoundsForAverage <=? length throwsValues)%nat
      (length throwsValues)
      (if (0 <? length throwsValues)%nat then roundTo (average throwsValues) else None)
      (if (minRounds <=? length approachesValues)%nat
       then roundTo (average approachesValues) else None)
      (if (minRounds <=? length puttsValues)%nat
       then roundTo (average puttsValues) else None)
      (Some (minRounds <=? length approachesValues)%nat)
      (Some (minRounds <=? length puttsValues)%nat).

(** [score.throws || 0]. *)
Definition throws_or_0 (v : option jsnum) : Z :=
  match v with
  | Some n => num_or n 0
  | None => 0
  end.

(** [calculateRunningTotal(scores, holes)]: the two totals that
    [finishRound] keeps. *)
Definition calculateRunningTotal (scores : list Score.t) (holes : list Hole.t)
  : Z * Z :=
  fold_left
    (fun '(totalScore, totalPar) score =>
       let hole := find (fun h => bool_decide (Hole.hole_id h = Score.hole_id score)) holes in
       (totalScore + throws_or_0 (Score.throws score),
        totalPar + match hole with Some h => Hole.par h | None => 3 end))
    scores (0, 0).

End Statistics.

(** ** The round session ([App]) *)

Module App.

(** The form of the scoring screen, as the handlers read it. *)
Record Dom : Type := mkDom {
  score_entry : ScoreInputs;
  setup_par : string;
  setup_distance : string
}.

(** What a handler draws from outside the session when it runs: the form,
    the identifier that [Utils.generateId()] returns and the date that
    [Utils.formatDateForStorage()] returns. *)
Record Env : Type := mkEnv {
  dom : Dom;
  generateId : string;
  formatDateForStorage : string
}.

(** The calls into the rendering layer, in the order they are made. *)
Inductive UiEvent : Type :=
| showValidationErrors (errors : list ValidationError)
| clearValidationErrors
| renderScoringScreen
| showScreen (screen : string)
| renderSummary.

(** [App.state] (the part the session uses), [localStorage] and the log of
    the rendering calls. *)
Record t : Type := mk {
  currentRound : option Round.t;
  currentHoleIndex : Z;
  storage : Storage.localStorage;
  ui : list UiEvent
}.

Definition M (A : Type) : Type := t -> completion A * t.

Definition ret {A : Type} (a : A) : M A := fun w => (Normal a, w).

Definition bind {A B : Type} (m : M A) (k : A -> M B) : M B :=
  fun w =>
    match m w with
    | (Normal a, w') => k a w'
    | (Throw e, w') => (Throw e, w')
    end.

Definition throw {A : Type} (e : string) : M A := fun w => (Throw e, w).

Definition emit (e : UiEvent) : M unit :=
  fun w => (Normal tt, mk (currentRound w) (currentHoleIndex w) (storage w)
                          (ui w ++ [e])).

Declare Scope app_scope.
Delimit Scope app_scope with app.
Notation "x <- m ;; k" := (bind m (fun x => k))
  (at level 100, m at next level, right associativity) : app_scope.
Notation "m ;;; k" := (bind m (fun _ => k))
  (at level 100, right associativity) : app_scope.
Local Open Scope app_scope.

(** [array[i]] for an integer [i]: [undefined] out of range. *)
Definition array_get {A : Type} (l : list A) (i : Z) : option A :=
  if i <? 0 then None else l !! Z.to_nat i.

(** [input.value ? parseInt(input.value, 10) : null]. *)
Definition optional_number (text : string) : option jsnum :=
  if truthy_string text then Some (parseInt text) else None.

(** [saveCurrentRoundState()]. *)
Definition saveCurrentRoundState : M unit :=
  fun w =>
    match currentRound w with
    | Some round =>
        (Normal tt, mk (currentRound w) (currentHoleIndex w)
                       (Storage.saveCurrentRound (storage w) round) (ui w))
    | None => (Normal tt, w)
    end.

(** [renderScoringScreen()]: it reads the state and writes the page; it
    throws a [TypeError] when there is no round or no hole at the index. *)
Definition do_renderScoringScreen : M unit :=
  fun w =>
    match currentRound w with
    | None => (Throw "TypeError", w)
    | Some round =>
        match array_get (Round.holes round) (currentHoleIndex w) with
        | None => (Throw "TypeError", w)
        | Some _ => emit renderScoringScreen w
        end
    end.

(** The block "Update or add to scores array" of [saveCurrentHoleScore]:
    an entry found for the hole gives its [score_id] to the new entry,
    which takes its place; else the new entry is pushed. *)
Definition update_or_add (holeIndex : Z) (scoreData : Score.t)
    (scores : list Score.t) : list Score.t :=
  let existingIndex :=
    findIndex (fun s => Score.hole_number s =? holeIndex + 1) scores in
  match existingIndex with
  | Some n =>
      let kept :=
        match scores !! n with
        | Some s => Score.score_id s
        | None => Score.score_id scoreData
        end in
      <[n := Score.mk kept (Score.round_id scoreData) (Score.hole_id scoreData)
                      (Score.hole_number scoreData) (Score.throws scoreData)
                      (Score.approaches scoreData) (Score.putts scoreData)
                      (Score.created_at scoreData)]> scores
  | None => scores ++ [scoreData]
  end.

(** [saveCurrentHoleScore()]. Reading [round.holes] of a missing round, or
    a property of a missing hole, throws a [TypeError] before anything is
    written. *)
Definition saveCurrentHoleScore (env : Env) : M unit :=
  fun w =>
    match currentRound w with
    | None => (Throw "TypeError", w)
    | Some round =>
        let holeIndex := currentHoleIndex w in
        match array_get (Round.holes round) holeIndex with
        | None => (Throw "TypeError", w)
        | Some hole =>
            let throws := num_or (parseInt (score_throws (score_entry (dom env)))) 0 in
            let approaches := score_approaches (score_entry (dom env)) in
            let putts := score_putts (score_entry (dom env)) in
            let holes' :=
              if Round.isNewCourse round then
                <[Z.to_nat holeIndex :=
                    Hole.mk (Hole.hole_id hole) (Hole.course_id hole)
                            (Hole.hole_number hole)
                            (num_or (parseInt (setup_par (dom env))) 3)
                            (optional_number (setup_distance (dom env)))]>
                  (Round.holes round)
              else Round.holes round in
            let scoreData :=
              Score.mk (generateId env) (Round.round_id round) (Hole.hole_id hole)
                       (holeIndex + 1) (Some (Num throws))
                       (optional_number approaches) (optional_number putts)
                       (formatDateForStorage env) in
            let scores' := update_or_add holeIndex scoreData (Round.scores round) in
            (Normal tt,
             mk (Some (Round.with_scores (Round.with_holes round holes') scores'))
                (currentHoleIndex w) (storage w) (ui w))
        end
    end.

(** The two assignments [this.state.currentHoleIndex = i] and
    [this.state.currentRound.currentHoleIndex = i]. *)
Definition set_index (i : Z) : M unit :=
  fun w =>
    (Normal tt,
     mk (option_map (fun r => Round.with_currentHoleIndex r i) (currentRound w))
        i (storage w) (ui w)).

(** [finishRound()]. *)
Definition finishRound : M unit :=
  fun w =>
    match currentRound w with
    | None => (Throw "TypeError", w)
    | Some round =>
        let totals := Statistics.calculateRunningTotal (Round.scores round)
                                                       (Round.holes round) in
        (saveCurrentRoundState ;;;
         emit (showScreen "summary") ;;;
         emit renderSummary)
          (mk (Some (Round.finished round (fst totals) (snd totals)))
              (currentHoleIndex w) (storage w) (ui w))
    end.

(** [navigateHole(direction)]. *)
Definition navigateHole (env : Env) (direction : Z) : M unit :=
  let validation := validateScoreEntry (score_entry (dom env)) in
  if (0 <? direction) && negb (isValid validation) then
    emit (showValidationErrors (errors validation))
  else
    (if 0 <? direction then emit clearValidationErrors else ret tt) ;;;
    saveCurrentHoleScore env ;;;
    fun w =>
      let newIndex := currentHoleIndex w + direction in
      match currentRound w with
      | None => (Throw "TypeError", w)
      | Some round =>
          if (0 <=? newIndex) && (newIndex <? Round.holeCount round) then
            (set_index newIndex ;;;
             saveCurrentRoundState ;;;
             do_renderScoringScreen) w
          else (Normal tt, w)
      end.

(** [handleSaveHole()]. *)
Definition handleSaveHole (env : Env) : M unit :=
  let validation := validateScoreEntry (score_entry (dom env)) in
  if negb (isValid validation) then
    emit (showValidationErrors (errors validation))
  else
    emit clearValidationErrors ;;;
    saveCurrentHoleScore env ;;;
    fun w =>
      match currentRound w with
      | None => (Throw "TypeError", w)
      | Some round =>
          let holeIndex := currentHoleIndex w in
          if holeIndex =? Round.holeCount round - 1 then finishRound w
          else
            (set_index (currentHoleIndex w + 1) ;;;
             saveCurrentRoundState ;;;
             do_renderScoringScreen) w
      end.

(** The round that [handleExistingCourse] and [handleCreateCourse] create
    before the first hole is played: no score, index 0, snapshot saved. *)
Definition new_round (round_id course_id courseName round_date : string)
    (holes : list Hole.t) (isNewCourse : bool) (holeCount : Z)
    (courseData : option Course.t) : Round.t :=
  Round.mk round_id course_id courseName round_date false holes [] isNewCourse
           0 holeCount courseData None None.

Definition start (round : Round.t) (ls : Storage.localStorage) : t :=
  mk (Some round) 0 (Storage.saveCurrentRound ls round) [].

(** [holes.sort((a, b) => a.hole_number - b.hole_number)]: the sort of
    arrays is stable, as is this insertion sort. *)
Fixpoint insert_hole (h : Hole.t) (l : list Hole.t) : list Hole.t :=
  match l with
  | [] => [h]
  | x :: r =>
      if Hole.hole_number h <=? Hole.hole_number x then h :: l
      else x :: insert_hole h r
  end.

Definition sort_holes (l : list Hole.t) : list Hole.t :=
  fold_right insert_hole [] l.

(** [handleResumeRound()]. *)
Definition handleResumeRound : M unit :=
  fun w =>
    match Storage.getCurrentRound (storage w) with
    | Some savedRound =>
        (emit (showScreen "scoring") ;;; do_renderScoringScreen)
          (mk (Some (Round.with_holes savedRound (sort_holes (Round.holes savedRound))))
              (Round.currentHoleIndex savedRound) (storage w) (ui w))
    | None => (Normal tt, w)
    end.

(** [handleBack()] on the scoring screen, once the user has confirmed. *)
Definition handleBack : M unit :=
  saveCurrentRoundState ;;; emit (showScreen "home").

(** The handlers of a round in progress as the steps of the session. *)
Inductive Action : Type :=
| NavigateHole (env : Env) (direction : Z)
| HandleSaveHole (env : Env)
| HandleBack
| HandleResumeRound.

Definition step (a : Action) : M unit :=
  match a with
  | NavigateHole env direction => navigateHole env direction
  | HandleSaveHole env => handleSaveHole env
  | HandleBack => handleBack
  | HandleResumeRound => handleResumeRound
  end.

(** The session after a sequence of handler calls; a call that throws
    leaves the session as it was when the exception left the handler. *)
Fixpoint run (actions : list Action) (w : t) : t :=
  match actions with
  | [] => w
  | a :: r => run r (snd (step a w))
  end.

End App.

(** ** Vocabulary of the session properties *)

Module Session.

Import App.

Definition hole_numbers (scores : list Score.t) : list Z :=
  map Score.hole_number scores.

(** The invariant: one entry per hole number, in the scores of the round
    being played and in those of the saved snapshot. *)
Definition one_entry_per_hole (w : t) : Prop :=
  (forall round, currentRound w = Some round ->
                 NoDup (hole_numbers (Round.scores round)))
  /\ (forall snap, Storage.getCurrentRound (storage w) = Some snap ->
                   NoDup (hole_numbers (Round.scores snap))).

Definition preserves {A : Type} (m : M A) : Prop :=
  forall w, one_entry_per_hole w -> one_entry_per_hole (snd (m w)).

(** The entry that the form of [env] describes for the hole at [holeIndex]:
    its hole number and the three values as [saveCurrentHoleScore] reads
    them, without any check. *)
Definition entered (env : Env) (holeIndex : Z) (e : Score.t) : Prop :=
  Score.hole_number e = holeIndex + 1
  /\ Score.throws e
     = Some (Num (num_or (parseInt (score_throws (score_entry (dom env)))) 0))
  /\ Score.approaches e = optional_number (score_approaches (score_entry (dom env)))
  /\ Score.putts e = optional_number (score_putts (score_entry (dom env))).

(** A course of three holes, pars 3, 3 and 4, and a round on it. *)
Definition three_holes : list Hole.t :=
  [Hole.mk "hole-1" "course-1" 1 3 None;
   Hole.mk "hole-2" "course-1" 2 3 None;
   Hole.mk "hole-3" "course-1" 3 4 None].

Definition three_hole_round : Round.t :=
  new_round "round-1" "course-1" "Three Oaks" "2024-05-01" three_holes false 3 None.

Definition form (throws approaches putts : string) (id : string) : Env :=
  mkEnv (mkDom (mkInputs throws approaches putts) "" "") id "2024-05-01".

Definition at_first_hole : t := start three_hole_round Storage.empty_localStorage.

(** The same round once hole 1 was saved with 3 throws. *)
Definition at_second_hole : t :=
  run [HandleSaveHole (form "3" "" "" "score-1")] at_first_hole.

(** The same round back at hole 1, hole 2 having been left with 4
    throws. *)
Definition back_at_first_hole : t :=
  run [HandleSaveHole (form "3" "" "" "score-1");
       NavigateHole (form "4" "" "" "score-2") (-1)] at_first_hole.

(** The same round once the three holes were saved: it is completed. *)
Definition at_summary : t :=
  run [HandleSaveHole (form "3" "" "" "score-1");
       HandleSaveHole (form "4" "" "" "score-2");
       HandleSaveHole (form "3" "" "" "score-3")] at_first_hole.

End Session.

(** ** Vocabulary of the store and statistics properties *)

Module Records.

Import Storage.

(** The identifier of [item] in the collection [storeName]: the field that
    the active backend keys the collection by (none when the database has
    no such object store). *)
Definition identifier (st : Storage.t) (storeName : string) (item : obj)
  : option value :=
  match db st with
  | None => item !! keyField storeName
  | Some d =>
      match objectStores d !! storeName with
      | Some os => item !! keyPath os
      | None => None
      end
  end.




(** The number of entries of the hole [holeId] that carry the value read
    by [f] ([throws], [approaches] or [putts]). *)
Definition carrying (f : Score.t -> option jsnum) (holeId : string)
    (scores : list Score.t) : nat :=
  length (filter (fun s => Score.hole_id s = holeId
                           /\ Statistics.is_number (f s) = true) scores).

(** Ten entries of one hole, two of which carry approaches. *)
Definition ten_entries : list Score.t :=
  (fun n => Score.mk "" "" "hole-1" 1 (Some (Num 3))
                     (if (n <? 2)%nat then Some (Num 1) else None) None "")
    <$> seq 0 10.

End Records.

(** ** A store with one course *)

Module CourseStore.

Import Storage.

Definition oak_park : obj :=
  <["course_id" := VStr "course-1"]> (<["course_name" := VStr "Oak Park"]> ∅).

Definition oak_park_renamed : obj :=
  <["course_id" := VStr "course-1"]> (<["course_name" := VStr "Oak Park West"]> ∅).

(** The fallback store after [put('courses', oak_park)] on an empty
    [localStorage]. *)
Definition fallback_store : Storage.t :=
  snd (put (mk None empty_localStorage) true "courses" oak_park).

End CourseStore.

(** ** Vocabulary of the replay properties *)

Module Replay.

Import SheetsAPI.

Definition is_normal {A : Type} (c : completion A) : bool :=
  match c with Normal _ => true | Throw _ => false end.

Definition is_some {A : Type} (o : option A) : bool :=
  match o with Some _ => true | None => false end.

(** The requests that saving the rows [xs] makes, one [createRow] per row
    in order, up to the first that fails. The last index tells whether
    all succeeded. *)
Inductive rows_attempt (sheetName : string) (headers : list string)
  : list obj -> list Event -> bool -> Prop :=
| rows_done : rows_attempt sheetName headers [] [] true
| rows_failed (x : obj) (r : list obj) :
    rows_attempt sheetName headers (x :: r)
      [mkEvent (CreateRow sheetName (prepareRowData x headers)) false] false
| rows_next (x : obj) (r : list obj) (seg : list Event) (b : bool) :
    rows_attempt sheetName headers r seg b ->
    rows_attempt sheetName headers (x :: r)
      (mkEvent (CreateRow sheetName (prepareRowData x headers)) true :: seg) b.

(** One attempt of a queued operation: the requests it makes, with their
    outcomes, and whether the attempt succeeded. *)
Inductive attempt : Operation -> list Event -> bool -> Prop :=
| attempt_saveCourse (data : obj) (ok : bool) :
    attempt (op_saveCourse data)
      [mkEvent (CreateRow CONFIG.sheets.courses
                          (prepareRowData data CONFIG.sheetHeaders.courses)) ok] ok
| attempt_saveHoles (data : list obj) (seg : list Event) (b : bool) :
    rows_attempt CONFIG.sheets.holes CONFIG.sheetHeaders.holes data seg b ->
    attempt (op_saveHoles data) seg b
| attempt_saveRound (data : obj) (ok : bool) :
    attempt (op_saveRound data)
      [mkEvent (CreateRow CONFIG.sheets.rounds
                          (prepareRowData data CONFIG.sheetHeaders.rounds)) ok] ok
| attempt_saveScores (data : list obj) (seg : list Event) (b : bool) :
    rows_attempt CONFIG.sheets.scores CONFIG.sheetHeaders.scores data seg b ->
    attempt (op_saveScores data) seg b
| attempt_updateRound_unread (data : obj) :
    attempt (op_updateRound data) [mkEvent (GetRows CONFIG.sheets.rounds) false] false
| attempt_updateRound_not_found (data : obj) :
    attempt (op_updateRound data) [mkEvent (GetRows CONFIG.sheets.rounds) true] true
| attempt_updateRound_found (data : obj) (rowIndex : nat) (ok : bool) :
    attempt (op_updateRound data)
      [mkEvent (GetRows CONFIG.sheets.rounds) true;
       mkEvent (UpdateRow CONFIG.sheets.rounds (Z.of_nat rowIndex + 2)
                          (prepareRowData data CONFIG.sheetHeaders.rounds)) ok] ok
| attempt_lastPlayed_unread (courseId date : value) :
    attempt (op_updateCourseLastPlayed courseId date)
      [mkEvent (GetRows CONFIG.sheets.courses) false] false
| attempt_lastPlayed_not_found (courseId date : value) :
    attempt (op_updateCourseLastPlayed courseId date)
      [mkEvent (GetRows CONFIG.sheets.courses) true] true
| attempt_lastPlayed_found (courseId date : value) (rowIndex : nat) (course : obj)
    (ok : bool) :
    attempt (op_updateCourseLastPlayed courseId date)
      [mkEvent (GetRows CONFIG.sheets.courses) true;
       mkEvent (UpdateRow CONFIG.sheets.courses (Z.of_nat rowIndex + 2)
                          (prepareRowData (<["last_played" := date]> course)
                                          CONFIG.sheetHeaders.courses)) ok] ok.

Section Gateway.

Context {GW : Type}.
Variable gateway : Call -> GW -> option (list obj) * GW.

(** The outcome logged for a request is the answer of the gateway to
    that request. *)
Definition answered (e : Event) : Prop :=
  exists g, ev_ok e = is_some (fst (gateway (ev_call e) g)).

(** What running an asynchronous method adds to the log. *)
Definition appends {A : Type} (m : @Async GW A) (n : @Net GW)
    (c : completion A) (seg : list Event) : Prop :=
  exists g, m n = (c, mkNet g (log n ++ seg)) /\ Forall answered seg.

End Gateway.

(** The attempt of an operation succeeded: none of its requests failed. *)
Definition succeeded (seg : list Event) : bool := forallb ev_ok seg.

(** The operations whose attempt failed, in the order of the queue, given
    the requests of each attempt. *)
Fixpoint retained (pending : list PendingOp) (segs : list (list Event))
  : list PendingOp :=
  match pending, segs with
  | p :: ps, seg :: ss =>
      if succeeded seg then retained ps ss else p :: retained ps ss
  | _, _ => []
  end.

(** The number of rows that an operation carries, for the four kinds that
    create rows. *)
Definition payload_rows (op : Operation) : option nat :=
  match op with
  | op_saveCourse _ | op_saveRound _ => Some 1%nat
  | op_saveHoles data | op_saveScores data => Some (length data)
  | op_updateRound _ | op_updateCourseLastPlayed _ _ => None
  end.

(** [addPendingSync] for each operation, in order, with the instant of
    each call. *)
Definition enqueue_all (ls : Storage.localStorage) (ops : list (Operation * string))
  : Storage.localStorage :=
  fold_left (fun ls '(op, now) => snd (Storage.addPendingSync ls op now)) ops ls.

(** A gateway without state that accepts every request and has no rows. *)
Definition accepting : Call -> unit -> option (list obj) * unit :=
  fun _ g => (Some [], g).

(** A gateway without state that refuses to create the rows of the rounds
    ["round-2"] and ["round-5"] and accepts every other request. *)
Definition refusing_2_and_5 : Call -> unit -> option (list obj) * unit :=
  fun c g =>
    match c with
    | CreateRow _ data =>
        if bool_decide (data !! "round_id" = Some (VStr "round-2")
                        \/ data !! "round_id" = Some (VStr "round-5"))
        then (None, g) else (Some [], g)
    | _ => (Some [], g)
    end.

Definition round_op (id : string) : Operation :=
  op_saveRound (<["round_id" := VStr id]> ∅).

Definition six_rounds : list (Operation * string) :=
  [(round_op "round-1", "t1"); (round_op "round-2", "t2");
   (round_op "round-3", "t3"); (round_op "round-4", "t4");
   (round_op "round-5", "t5"); (round_op "round-6", "t6")].

Definition score_row (id : string) : obj := <["score_id" := VStr id]> ∅.

(** One queued operation that carries two scores. *)
Definition two_scores : list (Operation * string) :=
  [(op_saveScores [score_row "score-1"; score_row "score-2"], "t1")].

(** The queue entry that [addPendingSync] makes of an operation. *)
Definition queued (x : Operation * string) : PendingOp :=
  mkPending (fst x) (snd x).

End Replay.


(** ** The other methods of the store ([Storage]) *)

Module StorageOps.

Import Storage.

(** [array.find(f)]; [None] stands for [undefined]. *)
Fixpoint find_first {A : Type} (f : A -> bool) (l : list A) : option A :=
  match l with
  | [] => None
  | x :: r => if f x then Some x else find_first f r
  end.

(** [getById(storeName, id)]; [None] is [null]. On IndexedDB [store.get]
    throws [DataError] for an [id] that is not a valid key. *)
Definition getById (st : Storage.t) (request_ok : bool) (storeName : string)
    (id : value) : completion (option obj) :=
  match db st with
  | None =>
      let items := or_empty (get_items (local st) (CONFIG.storageKeys storeName)) in
      Normal (find_first (fun item => strict_eq (item !! keyField storeName) (Some id))
                         items)
  | Some d =>
      match objectStores d !! storeName with
      | None => Throw "NotFoundError"
      | Some os =>
          match valid_key (Some id) with
          | None => Throw "DataError"
          | Some k => if request_ok then Normal (records os !! k) else Normal None
          end
      end
  end.

(** [putMany(storeName, items)]. On IndexedDB each item is put in turn in
    one transaction; [transaction_ok] tells whether the transaction ends in
    [oncomplete] ([true]) or in [onerror], in which case nothing is stored.
    A [store.put] that throws leaves the executor: the promise is rejected
    and the puts made before it stay in the transaction. *)
Fixpoint put_each (os : ObjectStore) (items : list obj) : completion unit * ObjectStore :=
  match items with
  | [] => (Normal tt, os)
  | item :: r =>
      match store_put os item with
      | Normal os' => put_each os' r
      | Throw e => (Throw e, os)
      end
  end.

Definition putMany (st : Storage.t) (transaction_ok : bool) (storeName : string)
    (items : list obj) : completion bool * Storage.t :=
  match db st with
  | None =>
      (Normal true, mk None (set_items (local st) (CONFIG.storageKeys storeName) items))
  | Some d =>
      match objectStores d !! storeName with
      | None => (Throw "NotFoundError", st)
      | Some os =>
          let '(c, os') := put_each os items in
          let st' :=
            if transaction_ok
            then mk (Some (mkDB (<[storeName := os']> (objectStores d)))) (local st)
            else st in
          match c with
          | Throw e => (Throw e, st')
          | Normal _ => (Normal transaction_ok, st')
          end
      end
  end.

(** [delete(storeName, id)]. *)
Definition delete (st : Storage.t) (request_ok : bool) (storeName : string)
    (id : value) : completion bool * Storage.t :=
  match db st with
  | None =>
      let items := or_empty (get_items (local st) (CONFIG.storageKeys storeName)) in
      let filtered :=
        List.filter (fun i => negb (strict_eq (i !! keyField storeName) (Some id)))
                    items in
      (Normal true, mk None (set_items (local st) (CONFIG.storageKeys storeName) filtered))
  | Some d =>
      match objectStores d !! storeName with
      | None => (Throw "NotFoundError", st)
      | Some os =>
          match valid_key (Some id) with
          | None => (Throw "DataError", st)
          | Some k =>
              if request_ok then
                (Normal true,
                 mk (Some (mkDB (<[storeName :=
                                     mkStore (keyPath os) (autoIncrement os)
                                             (keyGenerator os)
                                             (base.delete k (records os))]>
                                   (objectStores d))))
                    (local st))
              else (Normal false, st)
          end
      end
  end.

(** [clear(storeName)]. *)
Definition clear (st : Storage.t) (request_ok : bool) (storeName : string)
  : completion bool * Storage.t :=
  match db st with
  | None => (Normal true, mk None (set_items (local st) (CONFIG.storageKeys storeName) []))
  | Some d =>
      match objectStores d !! storeName with
      | None => (Throw "NotFoundError", st)
      | Some os =>
          if request_ok then
            (Normal true,
             mk (Some (mkDB (<[storeName :=
                                 mkStore (keyPath os) (autoIncrement os)
                                         (keyGenerator os) ∅]>
                               (objectStores d))))
                (local st))
          else (Normal false, st)
      end
  end.

(** [array.splice(index, 1)] for an integer [index]: a negative index
    counts from the end; nothing is removed past the end. *)
Definition splice_1 {A : Type} (l : list A) (index : Z) : list A :=
  let len := Z.of_nat (length l) in
  let start := if index <? 0 then Z.max (len + index) 0 else Z.min index len in
  base.delete (Z.to_nat start) l.

(** [removePendingSync(index)]. *)
Definition removePendingSync (ls : localStorage) (index : Z) : localStorage :=
  set_pendingSync ls (splice_1 (getPendingSync ls) index).

(** [clearPendingSync()]. *)
Definition clearPendingSync (ls : localStorage) : localStorage :=
  set_pendingSync ls [].

(** [clearCurrentRound()]: [localStorage.removeItem]. *)
Definition clearCurrentRound (ls : localStorage) : localStorage :=
  mkLocal (ls_items ls) (ls_pendingSync ls) None.

(** The key under which [item] goes into the object store [os]. *)
Definition key_in (os : ObjectStore) (item : obj) : option idbkey :=
  valid_key (item !! keyPath os).

(** A second course, the fallback store that holds the two courses and
    the database that [init] creates. *)
Definition second_course : obj :=
  <["course_id" := VStr "course-2"]> (<["course_name" := VStr "Elm Grove"]> ∅).

Definition two_courses : Storage.t :=
  snd (put CourseStore.fallback_store true "courses" second_course).

Definition indexed_course : Storage.t :=
  mk (Some created_database) empty_localStorage.

End StorageOps.


(** ** Vocabulary of the text properties *)

Module Text.

(** The text is white space only. *)
Fixpoint all_space (s : string) : bool :=
  match s with
  | EmptyString => true
  | String c r => is_space c && all_space r
  end.

End Text.

(** ** The round session: the other handlers and the shape of a round *)

Module Play.

Import App.
Local Open Scope app_scope.

(** [validateScoreDetails()]: whether the warning is shown. *)
Definition validateScoreDetails (i : ScoreInputs) : bool :=
  let throws := num_or (parseInt (score_throws i)) 0 in
  let approaches := num_or (parseInt (score_approaches i)) 0 in
  let putts := num_or (parseInt (score_putts i)) 0 in
  (0 <? approaches + putts) && (throws - 1 <? approaches + putts).

(** [handleAbandonRound()]. *)
Definition handleAbandonRound : M unit :=
  fun w =>
    emit (showScreen "course-select")
         (mk None (currentHoleIndex w)
             (StorageOps.clearCurrentRound (storage w)) (ui w)).

(** A session in which a round can be played: the round has as many
    holes as its [holeCount] says, the active index is on the course and
    is the index kept in the round, and the saved snapshot, if there is
    one, has an index on its own course. *)
Definition playable (w : t) : Prop :=
  exists round,
    currentRound w = Some round
    /\ Round.holeCount round = Z.of_nat (length (Round.holes round))
    /\ 0 <= currentHoleIndex w < Round.holeCount round
    /\ Round.currentHoleIndex round = currentHoleIndex w
    /\ (forall snap,
          Storage.getCurrentRound (storage w) = Some snap ->
          Round.holeCount snap = Z.of_nat (length (Round.holes snap))
          /\ 0 <= Round.currentHoleIndex snap < Round.holeCount snap).

(** A handler runs without exception on a playable session and leaves it
    playable. *)
Definition safe (m : M unit) : Prop :=
  forall w, playable w -> fst (m w) = Normal tt /\ playable (snd (m w)).

(** What [saveCurrentHoleScore] stores for a sub-value whose text passed
    [validateScoreEntry]: [null] for an empty text, [NaN] for a text of
    white space only, and else the number in 0..19 that the validation
    has read in the trimmed text. *)
Definition stored_for (text : string) (v : option jsnum) : Prop :=
  match v with
  | None => text = ""
  | Some NaN => text <> "" /\ trim text = ""
  | Some (Num a) => parseInt (trim text) = Num a /\ 0 <= a <= 19
  end.

(** The holes are in the order of their numbers. *)
Fixpoint ascending (l : list Hole.t) : Prop :=
  match l with
  | [] => True
  | h :: r =>
      match r with
      | [] => True
      | h' :: _ => Hole.hole_number h <= Hole.hole_number h'
      end /\ ascending r
  end.

(** The round of [at_second_hole]: hole 1 saved with 3 throws, hole 2
    shown. *)
Definition second_hole_round : Round.t :=
  Round.with_currentHoleIndex
    (Round.with_scores Session.three_hole_round
       [Score.mk "score-1" "round-1" "hole-1" 1 (Some (Num 3)) None None
                 "2024-05-01"]) 1.

(** The sum of a list of integers. *)
Definition sum (l : list Z) : Z := foldr Z.add 0 l.

(** [hole ? hole.par : 3] for the hole that [holes.find] gives for the
    identifier. *)
Definition par_of (holes : list Hole.t) (holeId : string) : Z :=
  match find (fun h => bool_decide (Hole.hole_id h = holeId)) holes with
  | Some h => Hole.par h
  | None => 3
  end.

End Play.


(** ** Records as JSON objects and as rows of the sheets *)

Module Rows.

Import SheetsAPI.

(** A number as JSON data: [NaN] is written [null]. *)
Definition json_of_number (n : option jsnum) : value :=
  match n with
  | Some (Num z) => VNum z
  | _ => VNull
  end.

Definition json_of_string (s : option string) : value :=
  match s with
  | Some s => VStr s
  | None => VNull
  end.

(** The JSON objects of the records of the session: what
    [JSON.stringify] writes of a course, a hole and a score. *)
Definition course_obj (c : Course.t) : obj :=
  <["course_id" := VStr (Course.course_id c)]>
  (<["course_name" := VStr (Course.course_name c)]>
  (<["hole_count" := VNum (Course.hole_count c)]>
  (<["created_date" := VStr (Course.created_date c)]>
  (<["last_played" := json_of_string (Course.last_played c)]> ∅)))).

Definition hole_obj (h : Hole.t) : obj :=
  <["hole_id" := VStr (Hole.hole_id h)]>
  (<["course_id" := VStr (Hole.course_id h)]>
  (<["hole_number" := VNum (Hole.hole_number h)]>
  (<["par" := VNum (Hole.par h)]>
  (<["distance" := json_of_number (Hole.distance h)]> ∅)))).

Definition score_obj (s : Score.t) : obj :=
  <["score_id" := VStr (Score.score_id s)]>
  (<["round_id" := VStr (Score.round_id s)]>
  (<["hole_id" := VStr (Score.hole_id s)]>
  (<["hole_number" := VNum (Score.hole_number s)]>
  (<["throws" := json_of_number (Score.throws s)]>
  (<["approaches" := json_of_number (Score.approaches s)]>
  (<["putts" := json_of_number (Score.putts s)]>
  (<["created_at" := VStr (Score.created_at s)]> ∅))))))).

(** [roundData] of [handleFinishRound]: a total that the round does not
    have is [undefined], which JSON leaves out. *)
Definition with_total (key : string) (total : option Z) (o : obj) : obj :=
  match total with
  | Some z => <[key := VNum z]> o
  | None => o
  end.

Definition roundData (r : Round.t) : obj :=
  <["round_id" := VStr (Round.round_id r)]>
  (<["course_id" := VStr (Round.course_id r)]>
  (<["round_date" := VStr (Round.round_date r)]>
  (<["completed" := VBool true]>
  (with_total "total_score" (Round.total_score r)
  (with_total "total_par" (Round.total_par r) ∅))))).

(** A field of a record loaded from the sheets: JSON data, or the [NaN]
    that [parseInt] gave. *)
Inductive loaded : Type :=
| LNaN
| LVal (v : value).

(** [parseInt(x, 10)] for a field [x] of a row: the text of [String(x)]
    is parsed. *)
Definition parseInt_of (x : option value) : jsnum :=
  match x with
  | Some (VStr s) => parseInt s
  | Some (VNum z) => parseInt (pretty z)
  | Some (VBool b) => parseInt (if b then "true" else "false")
  | Some VNull => parseInt "null"
  | None => parseInt "undefined"
  end.

(** Truthiness of a field of a row. *)
Definition truthy (x : option value) : bool :=
  match x with
  | Some (VStr s) => truthy_string s
  | Some (VNum z) => negb (z =? 0)
  | Some (VBool b) => b
  | Some VNull => false
  | None => false
  end.

Definition number (n : jsnum) : loaded :=
  match n with
  | NaN => LNaN
  | Num z => LVal (VNum z)
  end.

(** [parseInt(x, 10) || d]. *)
Definition number_or (x : option value) (d : Z) : loaded :=
  LVal (VNum (num_or (parseInt_of x) d)).

(** [x ? parseInt(x, 10) : null]. *)
Definition optional (x : option value) : loaded :=
  if truthy x then number (parseInt_of x) else LVal VNull.

(** The callbacks of [map] in [loadCourses], [loadHolesForCourse],
    [loadRoundsForCourse] and [loadScoresForRounds]: the row with some
    of its fields parsed. *)
Definition decode_course (course : obj) : gmap string loaded :=
  <["hole_count" := number_or (course !! "hole_count") 18]> (LVal <$> course).

Definition decode_hole (hole : obj) : gmap string loaded :=
  <["distance" := optional (hole !! "distance")]>
  (<["par" := number_or (hole !! "par") 3]>
  (<["hole_number" := number (parseInt_of (hole !! "hole_number"))]>
  (LVal <$> hole))).

Definition decode_round (round : obj) : gmap string loaded :=
  <["total_par" := optional (round !! "total_par")]>
  (<["total_score" := optional (round !! "total_score")]>
  (<["completed" :=
       LVal (VBool (strict_eq (round !! "completed") (Some (VStr "TRUE"))))]>
  (LVal <$> round))).

Definition decode_score (score : obj) : gmap string loaded :=
  <["putts" := optional (score !! "putts")]>
  (<["approaches" := optional (score !! "approaches")]>
  (<["throws" := number (parseInt_of (score !! "throws"))]>
  (<["hole_number" := number (parseInt_of (score !! "hole_number"))]>
  (LVal <$> score)))).

(** The text that [prepareRowData] writes in a cell. *)
Definition cell (x : option value) : string :=
  match x with
  | None | Some VNull => ""
  | Some (VBool b) => if b then "TRUE" else "FALSE"
  | Some v => String_of v
  end.

Ltac lookups :=
  repeat first
    [ rewrite lookup_insert_eq
    | rewrite lookup_insert_ne by (first [discriminate | congruence])
    | rewrite lookup_fmap
    | rewrite lookup_empty ].

Ltac not_a_header :=
  rewrite bool_decide_eq_false_2
    by (rewrite !elem_of_cons, elem_of_nil; intuition congruence).

Ltac a_header :=
  rewrite bool_decide_eq_true_2 by (rewrite !elem_of_cons; tauto).

(** A service that counts the requests and refuses the one of rank [k]
    (from 0); it has no rows. *)
Definition failing_at (k : nat) : Call -> nat -> option (list obj) * nat :=
  fun _ n => (if (n =? k)%nat then None else Some [], S n).

(** The log of the rows of scores created, and of a row refused. *)
Definition created (scores : list obj) : list Event :=
  map (fun x => mkEvent (CreateRow CONFIG.sheets.scores
                                   (prepareRowData x CONFIG.sheetHeaders.scores))
                        true)
      scores.

Definition refused (score : obj) : Event :=
  mkEvent (CreateRow CONFIG.sheets.scores
                     (prepareRowData score CONFIG.sheetHeaders.scores))
          false.

Section Gateway.

Context {GW : Type}.
Variable gateway : Call -> GW -> option (list obj) * GW.

Definition loadCourses : @Async GW (list (gmap string loaded)) :=
  bind (getRows gateway CONFIG.sheets.courses)
       (fun courses => ret (map decode_course courses)).

Definition loadRoundsForCourse (courseId : value)
  : @Async GW (list (gmap string loaded)) :=
  bind (getRows gateway CONFIG.sheets.rounds)
       (fun allRounds =>
          ret (map decode_round
                   (List.filter
                      (fun round =>
                         strict_eq (round !! "course_id") (Some courseId)
                         && strict_eq (round !! "completed") (Some (VStr "TRUE")))
                      allRounds))).

(** [roundIds.includes(x)]. *)
Definition includes (roundIds : list (option value)) (x : option value) : bool :=
  existsb (strict_eq x) roundIds.

Definition loadScoresForRounds (roundIds : list (option value))
  : @Async GW (list (gmap string loaded)) :=
  bind (getRows gateway CONFIG.sheets.scores)
       (fun allScores =>
          ret (map decode_score
                   (List.filter (fun score => includes roundIds (score !! "round_id"))
                                allScores))).

End Gateway.

(** A service without state that answers every request with the rows
    given. *)
Definition answering (rows : list obj) : Call -> unit -> option (list obj) * unit :=
  fun _ g => (Some rows, g).

(** The rows that [saveScores] sends for the entries, and those that
    [saveRound] and [saveCourse] send for rounds and courses. *)
Definition score_rows (scores : list Score.t) : list obj :=
  map (fun s => prepareRowData (score_obj s) CONFIG.sheetHeaders.scores) scores.

Definition round_rows (rounds : list Round.t) : list obj :=
  map (fun r => prepareRowData (roundData r) CONFIG.sheetHeaders.rounds) rounds.

Definition course_rows (courses : list Course.t) : list obj :=
  map (fun c => prepareRowData (course_obj c) CONFIG.sheetHeaders.courses) courses.

(** The course as it comes back from the sheets. *)
Definition course_loaded (c : Course.t) : gmap string loaded :=
  <["last_played" := LVal (VStr (default "" (Course.last_played c)))]>
  (<["hole_count" :=
       LVal (VNum (if Course.hole_count c =? 0 then 18 else Course.hole_count c))]>
  (LVal <$> course_obj c)).

(** Two rounds, on two courses, with their totals. *)
Definition played_round (id course : string) : Round.t :=
  Round.mk id course "" "2024-04-01" true [] [] false 0 3 None (Some 10) (Some 10).

End Rows.


(** ** Course statistics and the texts of a score ([Statistics], [Utils]) *)

Module CourseStatistics.

Import Statistics.

Record RoundStat : Type := mkRoundStat {
  stat_round_id : string;
  date : string;
  totalScore : Z;
  relativeToPar : Z
}.

Record CourseStats : Type := mkCourseStats {
  cs_hasData : bool;
  cs_roundCount : nat;
  avgTotalScore : option Qc;
  avgRelativeToPar : option Qc;
  bestRound : option RoundStat;
  worstRound : option RoundStat;
  totalPar : option Z
}.

(** [roundStats.sort((a, b) => a.totalScore - b.totalScore)]: the sort
    of arrays is stable, as is this insertion sort. *)
Fixpoint insert_stat (s : RoundStat) (l : list RoundStat) : list RoundStat :=
  match l with
  | [] => [s]
  | x :: r =>
      if totalScore s <=? totalScore x then s :: l
      else x :: insert_stat s r
  end.

Definition sort_stats (l : list RoundStat) : list RoundStat :=
  fold_right insert_stat [] l.

(** [hole.par || 3]. *)
Definition par_or_3 (par : Z) : Z := if par =? 0 then 3 else par.

(** The statistics of one completed round, as the callback of [map] in
    [calculateCourseStats] computes them. *)
Definition round_stat (scores : list Score.t) (totalPar : Z) (round : Round.t)
  : RoundStat :=
  let roundScores :=
    List.filter (fun s => bool_decide (Score.round_id s = Round.round_id round))
                scores in
  let totalScore :=
    fold_left (fun sum s => sum + throws_or_0 (Score.throws s)) roundScores 0 in
  mkRoundStat (Round.round_id round) (Round.round_date round) totalScore
              (totalScore - totalPar).

(** [calculateCourseStats(courseId, rounds, scores, holes)]; of a round
    it reads [completed], [round_id] and [round_date]. *)
Definition calculateCourseStats (courseId : string) (rounds : list Round.t)
    (scores : list Score.t) (holes : list Hole.t) : CourseStats :=
  let completedRounds := List.filter Round.completed rounds in
  if (length completedRounds =? 0)%nat then
    mkCourseStats false 0 None None None None None
  else
    let totalPar := fold_left (fun sum hole => sum + par_or_3 (Hole.par hole)) holes 0 in
    let roundStats := sort_stats (map (round_stat scores totalPar) completedRounds) in
    let avgTotalScore :=
      average (map (fun r => Some (Num (totalScore r))) roundStats) in
    let avgRelativeToPar :=
      average (map (fun r => Some (Num (relativeToPar r))) roundStats) in
    mkCourseStats true (length completedRounds)
                  (roundTo avgTotalScore) (roundTo avgRelativeToPar)
                  (head roundStats) (last roundStats) (Some totalPar).

(** [isPersonalBest(currentTotal, courseStats)]. *)
Definition isPersonalBest (currentTotal : Z) (courseStats : CourseStats) : bool :=
  if negb (cs_hasData courseStats) then false
  else
    match bestRound courseStats with
    | None => false
    | Some best => currentTotal <? totalScore best
    end.

(** [calculateCourseHoleStats(holes, scores)]: the object that maps the
    identifier of each hole to its statistics. *)
Definition calculateCourseHoleStats (holes : list Hole.t) (scores : list Score.t)
  : gmap string HoleStats :=
  fold_left
    (fun stats hole =>
       <[Hole.hole_id hole := calculateHoleStats (Hole.hole_id hole) scores]> stats)
    holes ∅.

(** The total of the throws of the entries of a round. *)
Definition round_total (scores : list Score.t) (round : Round.t) : Z :=
  Play.sum (map (fun s => throws_or_0 (Score.throws s))
                (List.filter
                   (fun s => bool_decide (Score.round_id s = Round.round_id round))
                   scores)).

(** [Utils.getRelativeScore(score, par)] on integers. *)
Definition getRelativeScore (score par : Z) : string :=
  let diff := score - par in
  if diff =? 0 then "E"
  else if 0 <? diff then "+" +:+ pretty diff
  else pretty diff.

(** [Utils.getScoreClass(score, par)]. *)
Definition getScoreClass (score par : Z) : string :=
  let diff := score - par in
  if diff <=? -2 then "eagle"
  else if diff =? -1 then "birdie"
  else if diff =? 0 then "par"
  else if diff =? 1 then "bogey"
  else "double-bogey".

(** [Utils.getTotalScoreClass(totalScore, totalPar)]. *)
Definition getTotalScoreClass (totalScore totalPar : Z) : string :=
  let diff := totalScore - totalPar in
  if diff <? 0 then "under-par"
  else if diff =? 0 then "even-par"
  else "over-par".

(** The order of the totals, and a list in that order. *)
Definition by_total (a b : RoundStat) : Prop := totalScore a <= totalScore b.

Fixpoint sorted_by_total (l : list RoundStat) : Prop :=
  match l with
  | [] => True
  | x :: r => Forall (by_total x) r /\ sorted_by_total r
  end.

(** An old round of 9 throws and one of 12, both completed, with the
    entries of each. *)
Definition old_round (id : string) : Round.t :=
  Round.mk id "course-1" "Three Oaks" "2024-04-01" true Session.three_holes []
           false 0 3 None None None.

Definition old_scores : list Score.t :=
  [Score.mk "a1" "round-a" "hole-1" 1 (Some (Num 4)) None None "";
   Score.mk "a2" "round-a" "hole-2" 2 (Some (Num 5)) None None "";
   Score.mk "b1" "round-b" "hole-1" 1 (Some (Num 12)) None None ""].

End CourseStatistics.


(** ** Starting a round on a new course ([App.handleNewCourseSubmit]) *)

Module NewCourse.

Import App.
Local Open Scope app_scope.

(** The characters of the class [[a-zA-Z0-9\s\-']] (of [\s], the ASCII
    part). *)
Definition name_char (c : ascii) : bool :=
  let n := nat_of_ascii c in
  ((97 <=? n) && (n <=? 122))%nat || ((65 <=? n) && (n <=? 90))%nat
  || is_digit c || is_space c || (n =? 45)%nat || (n =? 39)%nat.

Fixpoint all_name_chars (s : string) : bool :=
  match s with
  | EmptyString => true
  | String c r => name_char c && all_name_chars r
  end.

(** [pattern.test(name)] for the pattern of [CONFIG.validation.courseName]:
    one character of the class or more, and nothing else. *)
Definition pattern_test (name : string) : bool :=
  truthy_string name && all_name_chars name.

Record NameResult : Type := mkNameResult {
  name_isValid : bool;
  name_message : string
}.

(** [Utils.validateCourseName(name)]. *)
Definition validateCourseName (name : string) : NameResult :=
  if negb (truthy_string name) || (String.length (trim name) <? 1)%nat then
    mkNameResult false "Course name is required"
  else if (100 <? String.length name)%nat then
    mkNameResult false "Course name must be 100 characters or less"
  else if negb (pattern_test name) then
    mkNameResult false "Course name contains invalid characters"
  else mkNameResult true "".

(** [String(value)] for a number: the decimal notation of an integer
    (the exponent that JavaScript writes from 10^21 on is not
    modelled). *)
Definition Number_toString (value : jsnum) : string :=
  match value with
  | NaN => "NaN"
  | Num z => pretty z
  end.

(** [Utils.isValidNumber(value, min, max)] for a number [value]:
    [parseInt] takes the text of the number. *)
Definition isValidNumber (value : jsnum) (min max : Z) : bool :=
  let num := parseInt (Number_toString value) in
  negb (isNaN num) && negb (JS.lt num (Num min)) && negb (JS.gt num (Num max)).

(** What the handler draws from outside the session: the two inputs of
    the form, the identifiers that the successive calls of
    [Utils.generateId()] return, and the dates of the two calls of
    [Utils.formatDateForStorage()]. *)
Record Env : Type := mkEnv {
  course_name : string;
  hole_count : string;
  generateId : nat -> string;
  created_date : string;
  round_date : string
}.

(** The holes that the loop [for (let i = 1; i <= holeCount; i++)]
    pushes. *)
Definition empty_holes (env : Env) (course_id : string) (holeCount : Z)
  : list Hole.t :=
  map (fun i => Hole.mk (generateId env (S i)) course_id (Z.of_nat i + 1) 3 None)
      (seq 0 (Z.to_nat holeCount)).

(** [handleNewCourseSubmit(event)]. A form that is refused changes the
    page only; the round of a form that is accepted becomes the current
    round, is saved and is shown at its first hole. *)
Definition handleNewCourseSubmit (env : Env) : M unit :=
  let name := trim (course_name env) in
  let holeCount := parseInt (hole_count env) in
  if negb (name_isValid (validateCourseName name)) then ret tt
  else if negb (isValidNumber holeCount 1 27) then ret tt
  else
    match holeCount with
    | NaN => ret tt
    | Num count =>
        let course :=
          Course.mk (generateId env 0) name count (created_date env) None in
        let holes := empty_holes env (Course.course_id course) count in
        let round :=
          Round.mk (generateId env (S (Z.to_nat count))) (Course.course_id course)
                   name (round_date env) false holes [] true 0 count (Some course)
                   None None in
        (fun w => (Normal tt, mk (Some round) 0 (storage w) (ui w))) ;;;
        saveCurrentRoundState ;;;
        emit (showScreen "scoring") ;;;
        do_renderScoringScreen
    end.

(** A form for a course of nine holes. *)
Definition nine_holes : Env :=
  mkEnv " Oak Park " "9" (fun n => "id-" +:+ pretty (Z.of_nat n))
        "2024-05-01" "2024-05-01".

End NewCourse.

(** ** Saving a finished round ([App.handleFinishRound]) *)

Module Finish.

Import Storage SheetsAPI Rows.

(** What the handler draws from outside: the date that
    [Utils.formatDateForStorage()] returns, the instants of the
    successive calls of [addPendingSync], and the outcomes of the
    successive requests to IndexedDB. *)
Record Env : Type := mkEnv {
  today : string;
  enqueued_at : nat -> string;
  request_ok : nat -> bool
}.

Section Gateway.

Context {GW : Type}.
Variable gateway : Call -> GW -> option (list obj) * GW.

(** The session, the database of [Storage] and the network. *)
Record World : Type := mkWorld {
  session : App.t;
  database : option IDBDatabase;
  net : @Net GW
}.

Definition T (A : Type) : Type := World -> completion A * World.

Definition ret {A : Type} (a : A) : T A := fun w => (Normal a, w).

Definition bind {A B : Type} (m : T A) (k : A -> T B) : T B :=
  fun w =>
    match m w with
    | (Normal a, w') => k a w'
    | (Throw e, w') => (Throw e, w')
    end.

Notation "x <- m ;; k" := (bind m (fun x => k))
  (at level 100, m at next level, right associativity).
Notation "m ;;; k" := (bind m (fun _ => k))
  (at level 100, right associativity).

(** A method of [Storage], awaited. *)
Definition local_store {A : Type} (f : Storage.t -> completion A * Storage.t) : T A :=
  fun w =>
    let '(c, st) := f (Storage.mk (database w) (App.storage (session w))) in
    (c, mkWorld (App.mk (App.currentRound (session w))
                        (App.currentHoleIndex (session w))
                        (Storage.local st) (App.ui (session w)))
                (Storage.db st) (net w)).

(** A method of [SheetsAPI], awaited. *)
Definition remote {A : Type} (m : @Async GW A) : T A :=
  fun w =>
    let '(c, n) := m (net w) in
    (c, mkWorld (session w) (database w) n).

(** [await Storage.addPendingSync(operation)]. *)
Definition enqueue (op : Operation) (now : string) : T bool :=
  local_store (fun st =>
    let '(b, ls) := addPendingSync (Storage.local st) op now in
    (Normal b, Storage.mk (Storage.db st) ls)).

Definition set_round (round : option Round.t) (index : Z) : T unit :=
  fun w =>
    (Normal tt,
     mkWorld (App.mk round index (App.storage (session w)) (App.ui (session w)))
             (database w) (net w)).

Definition showScreen (screen : string) : T unit :=
  fun w =>
    (Normal tt,
     mkWorld (App.mk (App.currentRound (session w)) (App.currentHoleIndex (session w))
                     (App.storage (session w))
                     (App.ui (session w) ++ [App.showScreen screen]))
             (database w) (net w)).

(** [round.courseData.last_played = date]. *)
Definition played (round : Round.t) (course : Course.t) (date : string) : Round.t :=
  Round.mk (Round.round_id round) (Round.course_id round) (Round.courseName round)
           (Round.round_date round) (Round.completed round) (Round.holes round)
           (Round.scores round) (Round.isNewCourse round)
           (Round.currentHoleIndex round) (Round.holeCount round)
           (Some (Course.mk (Course.course_id course) (Course.course_name course)
                            (Course.hole_count course) (Course.created_date course)
                            (Some date)))
           (Round.total_score round) (Round.total_par round).

(** The body of the [try] of [handleFinishRound]; [online] is
    [this.state.isOnline && SheetsAPI.isConfigured()]. The records go to
    the stores, to the sheets and to the queue as JSON objects. *)
Definition save_round (env : Env) (online : bool) : T unit :=
  fun w =>
    match App.currentRound (session w) with
    | None => (Throw "TypeError", w)
    | Some round0 =>
        let round :=
          match Round.isNewCourse round0, Round.courseData round0 with
          | true, Some course => played round0 course (today env)
          | _, _ => round0
          end in
        let course_part : T unit :=
          match Round.isNewCourse round0, Round.courseData round with
          | true, Some course =>
              let holes := map hole_obj (Round.holes round) in
              set_round (Some round) (App.currentHoleIndex (session w)) ;;;
              local_store (fun st => put st (request_ok env 0) "courses"
                                         (course_obj course)) ;;;
              local_store (fun st => StorageOps.putMany st (request_ok env 1) "holes" holes) ;;;
              if online then
                remote (saveCourse gateway (course_obj course)) ;;;
                remote (saveHoles gateway holes)
              else
                enqueue (op_saveCourse (course_obj course)) (enqueued_at env 0) ;;;
                enqueue (op_saveHoles holes) (enqueued_at env 1) ;;;
                ret tt
          | _, _ => ret tt
          end in
        let scores := map score_obj (Round.scores round) in
        (course_part ;;;
         local_store (fun st => put st (request_ok env 2) "rounds" (roundData round)) ;;;
         local_store (fun st => StorageOps.putMany st (request_ok env 3) "scores" scores) ;;;
         (if online then
            remote (saveRound gateway (roundData round)) ;;;
            remote (saveScores gateway scores) ;;;
            remote (updateCourseLastPlayed gateway (VStr (Round.course_id round))
                                           (VStr (Round.round_date round))) ;;;
            ret tt
          else
            enqueue (op_saveRound (roundData round)) (enqueued_at env 2) ;;;
            enqueue (op_saveScores scores) (enqueued_at env 3) ;;;
            enqueue (op_updateCourseLastPlayed (VStr (Round.course_id round))
                                               (VStr (Round.round_date round)))
                    (enqueued_at env 4) ;;;
            ret tt) ;;;
         (fun w' =>
            (Normal tt,
             mkWorld (App.mk None 0
                             (StorageOps.clearCurrentRound (App.storage (session w')))
                             (App.ui (session w')))
                     (database w') (net w'))) ;;;
         local_store (fun st => (getAll st (request_ok env 4) "courses", st)) ;;;
         showScreen "home") w
    end.

(** [handleFinishRound()]: whatever the body throws is caught. *)
Definition handleFinishRound (env : Env) (online : bool) : World -> World :=
  fun w =>
    match save_round env online w with
    | (Normal _, w') => w'
    | (Throw _, w') => snd (showScreen "home" w')
    end.

(** The queue of a world, and a step that leaves it as it is. *)
Definition queue (w : World) : list PendingOp :=
  getPendingSync (App.storage (session w)).

Definition keeps_queue {A : Type} (m : T A) : Prop :=
  forall w, queue (snd (m w)) = queue w.

End Gateway.

(** A service that refuses every request. *)
Definition refusing : Call -> unit -> option (list obj) * unit :=
  fun _ g => (None, g).

(** The operations that [handleFinishRound] queues for a round. *)
Definition queued_for (env : Env) (round : Round.t) : list PendingOp :=
  match Round.isNewCourse round, Round.courseData round with
  | true, Some course =>
      [mkPending (op_saveCourse (course_obj course)) (enqueued_at env 0);
       mkPending (op_saveHoles (map hole_obj (Round.holes round))) (enqueued_at env 1)]
  | _, _ => []
  end
  ++ [mkPending (op_saveRound (roundData round)) (enqueued_at env 2);
      mkPending (op_saveScores (map score_obj (Round.scores round)))
                (enqueued_at env 3);
      mkPending (op_updateCourseLastPlayed (VStr (Round.course_id round))
                                           (VStr (Round.round_date round)))
                (enqueued_at env 4)].

(** The round as [handleFinishRound] saves it: the course of a new
    course is marked as played at the date of the call. *)
Definition saved_round (env : Env) (round : Round.t) : Round.t :=
  match Round.isNewCourse round, Round.courseData round with
  | true, Some course => played round course (today env)
  | _, _ => round
  end.

(** The round of [Session.at_summary]. *)
Definition summary_round : Round.t :=
  Round.finished
    (Round.with_currentHoleIndex
       (Round.with_scores Session.three_hole_round
          [Score.mk "score-1" "round-1" "hole-1" 1 (Some (Num 3)) None None
                    "2024-05-01";
           Score.mk "score-2" "round-1" "hole-2" 2 (Some (Num 4)) None None
                    "2024-05-01";
           Score.mk "score-3" "round-1" "hole-3" 3 (Some (Num 3)) None None
                    "2024-05-01"]) 2) 10 10.

(** The session of [Session.at_summary] on the fallback store, with a
    service that refuses every request; earlier scores are in the
    store. *)
Definition at_summary_offline : @World unit :=
  mkWorld
    (App.mk (Some summary_round) 2
            (set_items (App.storage Session.at_summary) "dgtracker_scores"
               [score_obj (Score.mk "old-1" "round-0" "hole-1" 1 (Some (Num 5))
                                    None None "2024-04-01")])
            [])
    None (mkNet tt []).

Definition finish_env : Env := mkEnv "2024-05-01" (fun _ => "2024-05-01") (fun _ => true).

End Finish.

(** * Properties *)

(** ** Validation *)

Module ValidationFacts.

Lemma check_throws_in_range (t : Z) :
  1 <= t <= 20 -> check_throws (Num t) = [].
Proof.
  intros Ht. unfold check_throws. cbn.
  destruct (Z.ltb_spec t 1); [lia|].
  destruct (Z.ltb_spec 20 t); [lia|]. reflexivity.
Qed.

Lemma parsed_not_empty (s : string) (z : Z) :
  parseInt s = Num z -> String.eqb s "" = false.
Proof. destruct s; [discriminate | reflexivity]. Qed.

Lemma check_optional_in_range (fld Name s : string) (z : Z) :
  parseInt s = Num z -> 0 <= z <= 19 -> check_optional fld Name s = [].
Proof.
  intros Hp Hz. unfold check_optional.
  rewrite (parsed_not_empty _ _ Hp), Hp. cbn.
  destruct (Z.ltb_spec z 0); [lia|].
  destruct (Z.ltb_spec 19 z); [lia|]. reflexivity.
Qed.

(** Each of the three field blocks reports at most one error, and only
    errors scoped to a field. *)
Lemma check_throws_field (n : jsnum) :
  Forall (fun e => is_field_error e = true) (check_throws n)
  /\ (length (check_throws n) <= 1)%nat.
Proof.
  unfold check_throws.
  repeat match goal with |- context [if ?b then _ else _] => destruct b end;
    cbn; split; repeat constructor.
Qed.

Lemma check_optional_field (fld Name s : string) :
  is_field_error (mkError fld "") = true ->
  Forall (fun e => is_field_error e = true) (check_optional fld Name s)
  /\ (length (check_optional fld Name s) <= 1)%nat.
Proof.
  intros Hf. unfold check_optional.
  repeat match goal with |- context [if ?b then _ else _] => destruct b end;
    cbn; split; repeat constructor; exact Hf.
Qed.

Lemma check_consistency_cases (errs : list ValidationError) (n : jsnum)
    (a p : string) :
  check_consistency errs n a p = []
  \/ (check_consistency errs n a p = [consistency_error]
      /\ errs = [] /\ a <> "" /\ p <> "").
Proof.
  unfold check_consistency.
  destruct errs as [|e errs]; cbn; [|left; reflexivity].
  destruct (String.eqb_spec a ""); cbn; [left; reflexivity|].
  destruct (String.eqb_spec p ""); cbn; [left; reflexivity|].
  destruct (JS.gt _ _); [right|left]; auto.
Qed.

(** The consistency error appears only alone: both sub-values are then
    present and none of the three field blocks reported anything. *)
Lemma consistency_only_after_fields (i : ScoreInputs) :
  In consistency_error (errors (validateScoreEntry i)) ->
  errors (validateScoreEntry i) = [consistency_error]
  /\ trim (score_approaches i) <> "" /\ trim (score_putts i) <> ""
  /\ check_throws (parseInt (score_throws i)) = []
  /\ check_optional "approaches" "Approaches" (trim (score_approaches i)) = []
  /\ check_optional "putts" "Putts" (trim (score_putts i)) = [].
Proof.
  unfold validateScoreEntry; cbn [errors].
  set (e1 := check_throws _). set (e2 := check_optional "approaches" _ _).
  set (e3 := check_optional "putts" _ _).
  intros Hin.
  destruct (check_consistency_cases ((e1 ++ e2) ++ e3)
              (parseInt (score_throws i)) (trim (score_approaches i))
              (trim (score_putts i))) as [Hc | (Hc & Hnil & Ha & Hp)].
  - rewrite Hc, app_nil_r in Hin.
    assert (Hf : Forall (fun e => is_field_error e = true) ((e1 ++ e2) ++ e3)).
    { repeat apply Forall_app_2.
      - apply check_throws_field.
      - apply check_optional_field; reflexivity.
      - apply check_optional_field; reflexivity. }
    rewrite Forall_forall in Hf.
    apply list_elem_of_In, Hf in Hin. discriminate Hin.
  - rewrite Hc, Hnil. cbn.
    apply app_eq_nil in Hnil as [Hnil He3].
    apply app_eq_nil in Hnil as [He1 He2]. auto 6.
Qed.

(** The result is valid exactly when no error was collected. *)
Lemma isValid_iff_no_error (i : ScoreInputs) :
  isValid (validateScoreEntry i) = true <-> errors (validateScoreEntry i) = [].
Proof.
  unfold validateScoreEntry; cbn [isValid errors].
  destruct (_ ++ _) as [|e l]; cbn; split; intros H; congruence.
Qed.

Lemma check_throws_nil (n : jsnum) :
  (length (check_throws n) =? 0)%nat = in_range 1 20 n.
Proof.
  unfold check_throws, in_range. destruct n as [|t]; cbn; [reflexivity|].
  destruct (Z.ltb_spec t 1), (Z.leb_spec 1 t); try lia; cbn; [reflexivity|].
  destruct (Z.ltb_spec 20 t), (Z.leb_spec t 20); try lia; reflexivity.
Qed.

Lemma check_optional_nil (fld Name s : string) :
  (length (check_optional fld Name s) =? 0)%nat
  = (String.eqb s "" || in_range 0 19 (parseInt s)).
Proof.
  unfold check_optional, in_range. destruct (String.eqb s ""); cbn; [reflexivity|].
  destruct (parseInt s) as [|a]; cbn; [reflexivity|].
  destruct (Z.ltb_spec a 0), (Z.leb_spec 0 a); try lia; cbn; [reflexivity|].
  destruct (Z.ltb_spec 19 a), (Z.leb_spec a 19); try lia; reflexivity.
Qed.

Lemma length_app_0 {A : Type} (l1 l2 : list A) :
  (length (l1 ++ l2) =? 0)%nat = (length l1 =? 0)%nat && (length l2 =? 0)%nat.
Proof. destruct l1; cbn; [reflexivity|reflexivity]. Qed.

(** The decision of [validateScoreEntry] in closed form. *)
Lemma isValid_accepted (i : ScoreInputs) :
  isValid (validateScoreEntry i) = accepted i.
Proof.
  unfold validateScoreEntry, accepted. cbn [isValid].
  rewrite !length_app_0, check_throws_nil, !check_optional_nil.
  destruct (in_range 1 20 (parseInt (score_throws i))
            && (String.eqb (trim (score_approaches i)) ""
                || in_range 0 19 (parseInt (trim (score_approaches i))))
            && (String.eqb (trim (score_putts i)) ""
                || in_range 0 19 (parseInt (trim (score_putts i))))) eqn:Hf;
    [|reflexivity].
  apply andb_true_iff in Hf as [Hf H3]. apply andb_true_iff in Hf as [H1 H2].
  assert (Hnil : (check_throws (parseInt (score_throws i))
                  ++ check_optional "approaches" "Approaches" (trim (score_approaches i)))
                 ++ check_optional "putts" "Putts" (trim (score_putts i)) = []).
  { rewrite <- check_throws_nil in H1.
    rewrite <- (check_optional_nil "approaches" "Approaches") in H2.
    rewrite <- (check_optional_nil "putts" "Putts") in H3.
    destruct (check_throws _); [|discriminate].
    destruct (check_optional "approaches" _ _); [|discriminate].
    destruct (check_optional "putts" _ _); [|discriminate]. reflexivity. }
  rewrite Hnil. unfold check_consistency. cbn [length Nat.eqb andb].
  destruct (String.eqb (trim (score_approaches i)) ""); [reflexivity|].
  destruct (String.eqb (trim (score_putts i)) ""); [reflexivity|].
  cbn in H2, H3 |- *.
  destruct (parseInt (score_throws i)) as [|t]; [discriminate|].
  destruct (parseInt (trim (score_approaches i))) as [|a]; [discriminate|].
  destruct (parseInt (trim (score_putts i))) as [|p]; [discriminate|].
  cbn. destruct (Z.ltb_spec (t - 1) (a + p)), (Z.leb_spec (a + p) (t - 1));
    try lia; reflexivity.
Qed.

(** A primary value that is missing, below 1 or above 20 is reported by
    exactly one error on the [throws] field, and the entry is invalid. *)
Lemma throws_out_of_range (i : ScoreInputs) :
  (parseInt (score_throws i) = NaN
   \/ exists t, parseInt (score_throws i) = Num t /\ (t < 1 \/ 20 < t)) ->
  isValid (validateScoreEntry i) = false
  /\ length (filter (fun e => field e = "throws")
                    (errors (validateScoreEntry i))) = 1%nat.
Proof.
  intros Ht.
  assert (H1 : exists m, check_throws (parseInt (score_throws i)) = [mkError "throws" m]).
  { unfold check_throws.
    destruct Ht as [-> | (t & -> & Hr)]; cbn; [eauto|].
    destruct (Z.ltb_spec t 1); [eauto|].
    destruct (Z.ltb_spec 20 t); [eauto|lia]. }
  destruct H1 as [m H1].
  unfold validateScoreEntry; cbn [isValid errors]. rewrite H1.
  assert (Hopt : forall fld Name s, fld <> "throws" ->
             filter (fun e => field e = "throws") (check_optional fld Name s) = []).
  { intros fld Name s Hne. unfold check_optional.
    repeat match goal with |- context [if ?b then _ else _] => destruct b end;
      try reflexivity; rewrite filter_cons_False; cbn; auto. }
  split; [reflexivity|].
  rewrite !filter_app, !Hopt by discriminate.
  unfold check_consistency. cbn. reflexivity.
Qed.

(** C3. For a primary value in 1..20 and two sub-values that are present
    and in 0..19, validation reports the consistency error, alone, when
    approaches + putts > throws - 1, and nothing otherwise; that error is
    not a field error, and on any input it is reported only when both
    sub-values are present and the three field checks reported nothing. *)
Theorem consistency_error_iff (i : ScoreInputs) (t a p : Z) :
  parseInt (score_throws i) = Num t -> 1 <= t <= 20 ->
  parseInt (trim (score_approaches i)) = Num a -> 0 <= a <= 19 ->
  parseInt (trim (score_putts i)) = Num p -> 0 <= p <= 19 ->
  (t - 1 < a + p -> validateScoreEntry i = mkResult false [consistency_error])
  /\ (a + p <= t - 1 -> validateScoreEntry i = mkResult true [])
  /\ is_consistency_error consistency_error = true
  /\ is_field_error consistency_error = false
  /\ (forall j : ScoreInputs,
        In consistency_error (errors (validateScoreEntry j)) ->
        errors (validateScoreEntry j) = [consistency_error]
        /\ trim (score_approaches j) <> "" /\ trim (score_putts j) <> ""
        /\ check_throws (parseInt (score_throws j)) = []
        /\ check_optional "approaches" "Approaches" (trim (score_approaches j)) = []
        /\ check_optional "putts" "Putts" (trim (score_putts j)) = []).
Proof.
  intros Ht Hrt Ha Hra Hp Hrp.
  assert (Hv : validateScoreEntry i
               = if t - 1 <? a + p then mkResult false [consistency_error]
                 else mkResult true []).
  { unfold validateScoreEntry.
    rewrite Ht, (check_throws_in_range _ Hrt),
      (check_optional_in_range _ _ _ _ Ha Hra),
      (check_optional_in_range _ _ _ _ Hp Hrp).
    unfold check_consistency. cbn [app length Nat.eqb andb].
    rewrite (parsed_not_empty _ _ Ha), (parsed_not_empty _ _ Hp), Ha, Hp.
    cbn. destruct (t - 1 <? a + p); reflexivity. }
  repeat split.
  - intros H. rewrite Hv. destruct (Z.ltb_spec (t - 1) (a + p)); [reflexivity|lia].
  - intros H. rewrite Hv. destruct (Z.ltb_spec (t - 1) (a + p)); [lia|reflexivity].
  - apply consistency_only_after_fields; assumption.
  - apply consistency_only_after_fields; assumption.
  - apply consistency_only_after_fields; assumption.
  - apply consistency_only_after_fields; assumption.
  - apply consistency_only_after_fields; assumption.
  - apply consistency_only_after_fields; assumption.
Qed.

(** The example of the specification: 3 throws with 2 approaches and 1
    putt. *)
Lemma consistency_error_iff_witness :
  validateScoreEntry (mkInputs "3" "2" "1") = mkResult false [consistency_error].
Proof.
  apply (consistency_error_iff (mkInputs "3" "2" "1") 3 2 1);
    first [reflexivity | lia].
Defined.

(** The decimal text of an integer of the form's range parses to it. *)
Lemma parseInt_decimal (z : Z) :
  0 <= z <= 20 -> parseInt (pretty z) = Num z /\ trim (pretty z) = pretty z.
Proof.
  intros Hz.
  assert (Hall : Forall (fun z => parseInt (pretty z) = Num z
                                  /\ trim (pretty z) = pretty z)
                        (Z.of_nat <$> seq 0 21)).
  { repeat constructor. }
  rewrite Forall_forall in Hall. apply Hall.
  apply list_elem_of_fmap. exists (Z.to_nat z). split; [lia|].
  apply elem_of_seq. lia.
Qed.

(** The consistency rule on the integers themselves, entered in decimal. *)
Corollary consistency_on_integers (t a p : Z) :
  1 <= t <= 20 -> 0 <= a <= 19 -> 0 <= p <= 19 ->
  validateScoreEntry (mkInputs (pretty t) (pretty a) (pretty p))
  = if t - 1 <? a + p then mkResult false [consistency_error] else mkResult true [].
Proof.
  intros Ht Ha Hp.
  destruct (parseInt_decimal t) as [Pt _]; [lia|].
  destruct (parseInt_decimal a) as [Pa Ta]; [lia|].
  destruct (parseInt_decimal p) as [Pp Tp]; [lia|].
  unfold validateScoreEntry. cbn [score_throws score_approaches score_putts].
  rewrite Ta, Tp, Pt, (check_throws_in_range _ Ht),
    (check_optional_in_range _ _ _ _ Pa Ha), (check_optional_in_range _ _ _ _ Pp Hp).
  unfold check_consistency. cbn [app length Nat.eqb andb].
  rewrite (parsed_not_empty _ _ Pa), (parsed_not_empty _ _ Pp), Pa, Pp.
  cbn. destruct (t - 1 <? a + p); reflexivity.
Qed.

Example parseInt_examples :
  parseInt "7" = Num 7 /\ parseInt "  -12abc" = Num (-12) /\ parseInt "" = NaN
  /\ parseInt "3.7" = Num 3 /\ parseInt "abc" = NaN /\ trim "  2 " = "2".
Proof. repeat split; reflexivity. Qed.

Example validate_3_2_1 :
  errors (validateScoreEntry (mkInputs "3" "2" "1")) = [consistency_error].
Proof. reflexivity. Qed.

Example validate_4_2_1 :
  validateScoreEntry (mkInputs "4" "2" "1") = mkResult true [].
Proof. reflexivity. Qed.

Example validate_multiple :
  map field (errors (validateScoreEntry (mkInputs "0" "-1" "20")))
  = ["throws"; "approaches"; "putts"].
Proof. reflexivity. Qed.

End ValidationFacts.

(** ** The round session *)

Module AppFacts.

Import App Session.

(** *** [findIndex] *)

Lemma findIndex_Some {A : Type} (f : A -> bool) (l : list A) (n : nat) :
  findIndex f l = Some n ->
  exists x, l !! n = Some x /\ f x = true
            /\ forall j y, (j < n)%nat -> l !! j = Some y -> f y = false.
Proof.
  revert n. induction l as [|a l IH]; intros n; cbn; [discriminate|].
  destruct (f a) eqn:Hfa.
  - intros [= <-]. exists a. repeat split; auto. intros j y Hj. lia.
  - destruct (findIndex f l) as [m|]; cbn; [|discriminate].
    intros [= <-]. destruct (IH m eq_refl) as (x & Hx & Hfx & Hlt).
    exists x. repeat split; auto.
    intros [|j] y Hj; cbn; [congruence|]. apply Hlt. lia.
Qed.

Lemma findIndex_None {A : Type} (f : A -> bool) (l : list A) :
  findIndex f l = None -> forall x, In x l -> f x = false.
Proof.
  induction l as [|a l IH]; cbn; [tauto|].
  destruct (f a) eqn:Hfa; [discriminate|].
  destruct (findIndex f l); cbn; [discriminate|].
  intros _ x [<- | Hin]; auto.
Qed.

Lemma findIndex_first {A : Type} (f : A -> bool) (l : list A) (n : nat) (x : A) :
  l !! n = Some x -> f x = true ->
  (forall j y, (j < n)%nat -> l !! j = Some y -> f y = false) ->
  findIndex f l = Some n.
Proof.
  revert n. induction l as [|a l IH]; intros [|n]; cbn; try discriminate.
  - intros [= ->] -> _. reflexivity.
  - intros Hx Hfx Hlt.
    rewrite (Hlt 0%nat a) by (cbn; auto; lia).
    rewrite (IH n Hx Hfx); [reflexivity|].
    intros j y Hj Hy. apply (Hlt (S j) y); [lia|exact Hy].
Qed.

(** *** The scores array holds one entry per hole *)

Lemma update_or_add_found (holeIndex : Z) (d : Score.t) (scores : list Score.t)
    (n : nat) (s : Score.t) :
  Score.hole_number d = holeIndex + 1 ->
  NoDup (hole_numbers scores) ->
  scores !! n = Some s -> Score.hole_number s = holeIndex + 1 ->
  update_or_add holeIndex d scores
  = <[n := Score.mk (Score.score_id s) (Score.round_id d) (Score.hole_id d)
                    (holeIndex + 1) (Score.throws d) (Score.approaches d)
                    (Score.putts d) (Score.created_at d)]> scores.
Proof.
  intros Hd Hnd Hn Hs. unfold update_or_add.
  rewrite (findIndex_first _ scores n s Hn).
  - rewrite Hn, Hd. reflexivity.
  - rewrite Hs. apply Z.eqb_refl.
  - intros j y Hj Hy. apply Z.eqb_neq. intros Heq.
    assert (j = n); [|lia].
    apply (NoDup_lookup (hole_numbers scores) j n (holeIndex + 1)); auto;
      unfold hole_numbers; rewrite list_lookup_fmap.
    + rewrite Hy. cbn. congruence.
    + rewrite Hn. cbn. congruence.
Qed.

Lemma update_or_add_hole_numbers (holeIndex : Z) (d : Score.t)
    (scores : list Score.t) :
  Score.hole_number d = holeIndex + 1 ->
  hole_numbers (update_or_add holeIndex d scores) = hole_numbers scores
  \/ (hole_numbers (update_or_add holeIndex d scores)
      = hole_numbers scores ++ [holeIndex + 1]
      /\ ~ In (holeIndex + 1) (hole_numbers scores)).
Proof.
  intros Hd. unfold update_or_add.
  destruct (findIndex _ scores) as [n|] eqn:Hf.
  - left. destruct (findIndex_Some _ _ _ Hf) as (x & Hx & Hfx & _).
    apply Z.eqb_eq in Hfx. unfold hole_numbers.
    rewrite list_fmap_insert. cbn. apply list_insert_id.
    rewrite list_lookup_fmap, Hx. cbn. congruence.
  - right. unfold hole_numbers. rewrite map_app. cbn. rewrite Hd. split; auto.
    intros Hin. apply in_map_iff in Hin as (x & Hx & Hin).
    apply (findIndex_None _ _ Hf) in Hin. apply Z.eqb_neq in Hin. auto.
Qed.

Lemma update_or_add_NoDup (holeIndex : Z) (d : Score.t) (scores : list Score.t) :
  Score.hole_number d = holeIndex + 1 ->
  NoDup (hole_numbers scores) ->
  NoDup (hole_numbers (update_or_add holeIndex d scores)).
Proof.
  intros Hd Hnd.
  destruct (update_or_add_hole_numbers holeIndex d scores Hd) as [-> | [-> Hnin]];
    [assumption|].
  apply NoDup_app. repeat split; auto.
  - intros x Hx Hx'. apply list_elem_of_In in Hx.
    apply list_elem_of_singleton in Hx'. subst. auto.
  - apply NoDup_singleton.
Qed.

(** The entry just written is in the array, with the values of the form. *)
Lemma update_or_add_In (holeIndex : Z) (d : Score.t) (scores : list Score.t) :
  exists e, In e (update_or_add holeIndex d scores)
            /\ Score.hole_number e = Score.hole_number d
            /\ Score.throws e = Score.throws d
            /\ Score.approaches e = Score.approaches d
            /\ Score.putts e = Score.putts d.
Proof.
  unfold update_or_add.
  destruct (findIndex _ scores) as [n|] eqn:Hf.
  - destruct (findIndex_Some _ _ _ Hf) as (x & Hx & _).
    eexists. split.
    + apply list_elem_of_In, list_elem_of_lookup. exists n.
      apply list_lookup_insert_eq. eapply lookup_lt_Some; eauto.
    + cbn. auto.
  - exists d. split; auto. apply in_or_app. right. left. reflexivity.
Qed.

Lemma preserves_bind {A B : Type} (m : M A) (k : A -> M B) :
  preserves m -> (forall a, preserves (k a)) -> preserves (bind m k).
Proof.
  intros Hm Hk w Hw. unfold bind. specialize (Hm w Hw).
  destruct (m w) as [[a|e] w']; cbn in *; [apply Hk|]; assumption.
Qed.

Lemma preserves_ret {A : Type} (a : A) : preserves (ret a).
Proof. intros w Hw. exact Hw. Qed.

Lemma preserves_emit (e : UiEvent) : preserves (emit e).
Proof. intros w Hw. exact Hw. Qed.

Lemma hole_numbers_json (scores : list Score.t) :
  hole_numbers (map json_score scores) = hole_numbers scores.
Proof. unfold hole_numbers. rewrite map_map. reflexivity. Qed.

Lemma preserves_saveCurrentRoundState : preserves saveCurrentRoundState.
Proof.
  intros w Hw. unfold saveCurrentRoundState.
  destruct (currentRound w) as [round|] eqn:Hround; [|exact Hw].
  destruct Hw as [Hr Hs]. split; cbn.
  - intros r Heq. apply Hr. congruence.
  - intros snap [= <-]. cbn. rewrite hole_numbers_json. auto.
Qed.

Lemma preserves_set_index (i : Z) : preserves (set_index i).
Proof.
  intros w [Hr Hs]. split; [|exact Hs].
  intros r. cbn. destruct (currentRound w) as [round|] eqn:Hround; cbn; [|discriminate].
  intros [= <-]. cbn. auto.
Qed.

Lemma preserves_render : preserves do_renderScoringScreen.
Proof.
  intros w Hw. unfold do_renderScoringScreen.
  destruct (currentRound w) as [round|]; [|exact Hw].
  destruct (array_get _ _); exact Hw.
Qed.

Lemma preserves_saveCurrentHoleScore (env : Env) :
  preserves (saveCurrentHoleScore env).
Proof.
  intros w Hw. unfold saveCurrentHoleScore.
  destruct (currentRound w) as [round|] eqn:Hround; [|exact Hw].
  destruct (array_get _ _) as [hole|]; [|exact Hw].
  destruct Hw as [Hr Hs]. split; [|exact Hs].
  intros r [= <-]. cbn. apply update_or_add_NoDup; auto.
Qed.

Lemma preserves_finishRound : preserves finishRound.
Proof.
  intros w Hw. unfold finishRound.
  destruct (currentRound w) as [round|] eqn:Hround; [|exact Hw].
  destruct Hw as [Hr Hs]. split; cbn.
  - intros r [= <-]. cbn. auto.
  - intros snap [= <-]. cbn. rewrite hole_numbers_json. auto.
Qed.

Lemma preserves_move (i : Z) :
  preserves (set_index i ;;; saveCurrentRoundState ;;; do_renderScoringScreen)%app.
Proof.
  apply preserves_bind; [apply preserves_set_index|]. intros _.
  apply preserves_bind; [apply preserves_saveCurrentRoundState|]. intros _.
  apply preserves_render.
Qed.

Lemma preserves_navigateHole (env : Env) (direction : Z) :
  preserves (navigateHole env direction).
Proof.
  unfold navigateHole.
  destruct (_ && _); [apply preserves_emit|].
  apply preserves_bind; [destruct (0 <? direction); [apply preserves_emit|apply preserves_ret]|].
  intros _. apply preserves_bind; [apply preserves_saveCurrentHoleScore|].
  intros _ w Hw.
  destruct (currentRound w) as [round|] eqn:Hround; [|exact Hw].
  destruct (_ && _); [|exact Hw].
  apply preserves_move; exact Hw.
Qed.

Lemma preserves_handleSaveHole (env : Env) : preserves (handleSaveHole env).
Proof.
  unfold handleSaveHole.
  destruct (negb _); [apply preserves_emit|].
  apply preserves_bind; [apply preserves_emit|].
  intros _. apply preserves_bind; [apply preserves_saveCurrentHoleScore|].
  intros _ w Hw.
  destruct (currentRound w) as [round|] eqn:Hround; [|exact Hw].
  destruct (_ =? _); [apply preserves_finishRound|apply preserves_move]; exact Hw.
Qed.

Lemma preserves_handleBack : preserves handleBack.
Proof.
  apply preserves_bind; [apply preserves_saveCurrentRoundState|].
  intros _. apply preserves_emit.
Qed.

Lemma preserves_handleResumeRound : preserves handleResumeRound.
Proof.
  intros w Hw. unfold handleResumeRound.
  destruct (Storage.getCurrentRound (storage w)) as [saved|] eqn:Hsaved; [|exact Hw].
  assert (Hp : preserves (emit (showScreen "scoring") ;;; do_renderScoringScreen)%app).
  { apply preserves_bind; [apply preserves_emit|]. intros _. apply preserves_render. }
  apply Hp. destruct Hw as [Hr Hs]. split; [|exact Hs].
  intros r [= <-]. cbn. apply Hs. exact Hsaved.
Qed.

Lemma preserves_step (a : Action) : preserves (step a).
Proof.
  destruct a; cbn.
  - apply preserves_navigateHole.
  - apply preserves_handleSaveHole.
  - apply preserves_handleBack.
  - apply preserves_handleResumeRound.
Qed.

Lemma one_entry_per_hole_start (round : Round.t) (ls : Storage.localStorage) :
  Round.scores round = [] -> one_entry_per_hole (start round ls).
Proof.
  intros Hnil. split; cbn.
  - intros r [= <-]. rewrite Hnil. constructor.
  - intros snap [= <-]. cbn. rewrite Hnil. constructor.
Qed.

Lemma one_entry_per_hole_run (actions : list Action) (w : t) :
  one_entry_per_hole w -> one_entry_per_hole (run actions w).
Proof.
  revert w. induction actions as [|a r IH]; intros w Hw; cbn; [exact Hw|].
  apply IH, preserves_step, Hw.
Qed.

End AppFacts.

Module SessionClaims.

Import App Session AppFacts.

Lemma saveCurrentHoleScore_ok (env : Env) (w : t) (round : Round.t) (hole : Hole.t) :
  currentRound w = Some round ->
  array_get (Round.holes round) (currentHoleIndex w) = Some hole ->
  exists round',
    saveCurrentHoleScore env w
    = (Normal tt, mk (Some round') (currentHoleIndex w) (storage w) (ui w))
    /\ Round.holeCount round' = Round.holeCount round
    /\ Round.completed round' = Round.completed round
    /\ length (Round.holes round') = length (Round.holes round)
    /\ exists d, Round.scores round'
                 = update_or_add (currentHoleIndex w) d (Round.scores round)
                 /\ entered env (currentHoleIndex w) d.
Proof.
  intros Hr Hh. unfold saveCurrentHoleScore. rewrite Hr, Hh.
  eexists. split; [reflexivity|]. cbn.
  repeat split.
  - destruct (Round.isNewCourse round); [apply length_insert|reflexivity].
  - eexists. split; [reflexivity|]. repeat split.
Qed.

Lemma entered_update_or_add (env : Env) (i : Z) (d : Score.t) (scores : list Score.t) :
  entered env i d ->
  exists e, In e (update_or_add i d scores) /\ entered env i e.
Proof.
  intros (H1 & H2 & H3 & H4).
  destruct (update_or_add_In i d scores) as (e & Hin & E1 & E2 & E3 & E4).
  exists e. split; [exact Hin|]. unfold entered. repeat split; congruence.
Qed.

(** When [validateScoreEntry] rejects the values of the form,
    [handleSaveHole] completes without writing: the round with its scores,
    the active index and [localStorage] with its snapshot are what they
    were, and the one thing it does is to hand the list of errors of
    [validateScoreEntry], which is not empty, to [showValidationErrors]. *)
Lemma invalid_entry_not_saved (env : Env) (w : t) :
  isValid (validateScoreEntry (score_entry (dom env))) = false ->
  handleSaveHole env w
  = (Normal tt,
     mk (currentRound w) (currentHoleIndex w) (storage w)
        (ui w ++ [showValidationErrors
                    (errors (validateScoreEntry (score_entry (dom env))))]))
  /\ errors (validateScoreEntry (score_entry (dom env))) <> [].
Proof.
  intros Hp. unfold handleSaveHole. rewrite Hp. cbn.
  split; [reflexivity|].
  intros Hnil. apply ValidationFacts.isValid_iff_no_error in Hnil. congruence.
Qed.

(** A form without throws, submitted on the first hole of a new round. *)
Lemma invalid_entry_not_saved_witness :
  handleSaveHole (form "" "" "" "score-1") at_first_hole
  = (Normal tt,
     mk (currentRound at_first_hole) 0 (storage at_first_hole)
        [showValidationErrors [mkError "throws" "Throws must be at least 1"]])
  /\ errors (validateScoreEntry (mkInputs "" "" "")) <> [].
Proof.
  apply (invalid_entry_not_saved (form "" "" "" "score-1") at_first_hole).
  reflexivity.
Defined.

(** [navigateHole] once its validation check is passed: the entry is saved
    and the move is made when its target is on the course. *)
Lemma navigateHole_after_save (env : Env) (direction : Z) (w : t)
    (round : Round.t) (hole : Hole.t) :
  (0 <? direction) && negb (isValid (validateScoreEntry (score_entry (dom env))))
  = false ->
  currentRound w = Some round ->
  array_get (Round.holes round) (currentHoleIndex w) = Some hole ->
  exists r1 d u,
    Round.scores r1 = update_or_add (currentHoleIndex w) d (Round.scores round)
    /\ entered env (currentHoleIndex w) d
    /\ Round.holeCount r1 = Round.holeCount round
    /\ ((0 <? direction) = false -> u = ui w)
    /\ navigateHole env direction w
       = if (0 <=? currentHoleIndex w + direction)
            && (currentHoleIndex w + direction <? Round.holeCount r1)
         then (set_index (currentHoleIndex w + direction) ;;;
               saveCurrentRoundState ;;;
               do_renderScoringScreen)%app
                (mk (Some r1) (currentHoleIndex w) (storage w) u)
         else (Normal tt, mk (Some r1) (currentHoleIndex w) (storage w) u).
Proof.
  intros Hchk Hr Hh. unfold navigateHole. rewrite Hchk.
  set (w0 := if 0 <? direction
             then mk (currentRound w) (currentHoleIndex w) (storage w)
                     (ui w ++ [clearValidationErrors])
             else w).
  assert (H0 : currentRound w0 = currentRound w
               /\ currentHoleIndex w0 = currentHoleIndex w
               /\ storage w0 = storage w).
  { unfold w0. destruct (0 <? direction); cbn; auto. }
  destruct H0 as (Hr0 & Hi0 & Hs0).
  destruct (saveCurrentHoleScore_ok env w0 round hole)
    as (r1 & Hsave & Hcount & _ & _ & d & Hscores & Hent);
    [congruence | congruence |].
  rewrite Hi0, Hs0 in *.
  exists r1, d, (ui w0).
  split; [exact Hscores|]. split; [exact Hent|]. split; [exact Hcount|].
  split; [intros Hback; unfold w0; rewrite Hback; reflexivity|].
  transitivity
    ((saveCurrentHoleScore env ;;;
      fun w1 =>
        match currentRound w1 with
        | Some round1 =>
            if (0 <=? currentHoleIndex w1 + direction)
               && (currentHoleIndex w1 + direction <? Round.holeCount round1)
            then (set_index (currentHoleIndex w1 + direction) ;;;
                  saveCurrentRoundState ;;; do_renderScoringScreen)%app w1
            else (Normal tt, w1)
        | None => (Throw "TypeError", w1)
        end)%app w0).
  { unfold w0. destruct (0 <? direction); reflexivity. }
  unfold bind at 1. rewrite Hsave. reflexivity.
Qed.

(** A move whose target is on the course: the index is set and the
    snapshot written, whether or not the screen can then be drawn. *)
Lemma navigateHole_moves (env : Env) (direction : Z) (w : t)
    (round : Round.t) (hole : Hole.t) :
  (0 <? direction) && negb (isValid (validateScoreEntry (score_entry (dom env))))
  = false ->
  currentRound w = Some round ->
  array_get (Round.holes round) (currentHoleIndex w) = Some hole ->
  0 <= currentHoleIndex w + direction < Round.holeCount round ->
  exists r1 d c u,
    Round.scores r1 = update_or_add (currentHoleIndex w) d (Round.scores round)
    /\ entered env (currentHoleIndex w) d
    /\ navigateHole env direction w
       = (c, mk (Some (Round.with_currentHoleIndex r1 (currentHoleIndex w + direction)))
                (currentHoleIndex w + direction)
                (Storage.saveCurrentRound (storage w)
                   (Round.with_currentHoleIndex r1 (currentHoleIndex w + direction)))
                u).
Proof.
  intros Hchk Hr Hh Hrange.
  destruct (navigateHole_after_save env direction w round hole Hchk Hr Hh)
    as (r1 & d & u & Hscores & Hent & Hcount & _ & ->).
  replace ((0 <=? currentHoleIndex w + direction)
           && (currentHoleIndex w + direction <? Round.holeCount r1))
    with true by (symmetry; apply andb_true_iff; split;
                  [apply Z.leb_le|apply Z.ltb_lt]; lia).
  exists r1, d.
  unfold bind, set_index, saveCurrentRoundState, do_renderScoringScreen; cbn.
  destruct (array_get (Round.holes r1) _); cbn; do 2 eexists;
    (split; [exact Hscores|]); (split; [exact Hent|]); reflexivity.
Qed.

(** C10. A move backward takes no validation: whatever the form holds, its
    values are written as they are to the entry of the hole that is left,
    in the scores of the round, and no validation error is shown; when the
    target of the move is on the course the snapshot is saved with that
    entry. *)
Theorem backward_move_saves_unvalidated (env : Env) (direction : Z) (w : t)
    (round : Round.t) (hole : Hole.t) :
  direction < 0 ->
  currentRound w = Some round ->
  array_get (Round.holes round) (currentHoleIndex w) = Some hole ->
  exists round' e,
    currentRound (snd (navigateHole env direction w)) = Some round'
    /\ In e (Round.scores round')
    /\ entered env (currentHoleIndex w) e
    /\ (ui (snd (navigateHole env direction w)) = ui w
        \/ ui (snd (navigateHole env direction w)) = ui w ++ [renderScoringScreen])
    /\ (0 <= currentHoleIndex w + direction < Round.holeCount round ->
        exists snap,
          Storage.getCurrentRound (storage (snd (navigateHole env direction w)))
          = Some snap
          /\ In (json_score e) (Round.scores snap)).
Proof.
  intros Hd Hr Hh.
  assert (Hback : (0 <? direction) = false) by (apply Z.ltb_ge; lia).
  destruct (navigateHole_after_save env direction w round hole)
    as (r1 & d & u & Hscores & Hent & Hcount & Hu & ->); auto.
  { rewrite Hback. reflexivity. }
  rewrite (Hu Hback), Hcount.
  destruct (entered_update_or_add env _ d (Round.scores round) Hent)
    as (e & Hin & He).
  rewrite <- Hscores in Hin.
  destruct ((0 <=? currentHoleIndex w + direction)
            && (currentHoleIndex w + direction <? Round.holeCount round)) eqn:Hb.
  - exists (Round.with_currentHoleIndex r1 (currentHoleIndex w + direction)), e.
    unfold bind, set_index, saveCurrentRoundState, do_renderScoringScreen; cbn.
    destruct (array_get (Round.holes r1) _); cbn;
      (split; [reflexivity|]); (split; [exact Hin|]); (split; [exact He|]);
      (split; [auto|]); intros _; eexists; (split; [reflexivity|]);
      cbn; apply in_map; exact Hin.
  - exists r1, e. cbn.
    split; [reflexivity|]. split; [exact Hin|]. split; [exact He|].
    split; [auto|]. intros Hrange. exfalso.
    apply andb_false_iff in Hb as [Hb|Hb];
      [apply Z.leb_gt in Hb|apply Z.ltb_ge in Hb]; lia.
Qed.

(** Back from the second hole with an empty throws field: the entry of
    hole 2 is written with 0 throws, in the round and in the snapshot,
    although validation rejects the form. *)
Lemma backward_move_saves_unvalidated_witness :
  isValid (validateScoreEntry (score_entry (dom (form "" "" "" "score-2")))) = false
  /\ exists round' e,
    currentRound (snd (navigateHole (form "" "" "" "score-2") (-1) at_second_hole))
    = Some round'
    /\ In e (Round.scores round')
    /\ entered (form "" "" "" "score-2") 1 e
    /\ (ui (snd (navigateHole (form "" "" "" "score-2") (-1) at_second_hole))
        = ui at_second_hole
        \/ ui (snd (navigateHole (form "" "" "" "score-2") (-1) at_second_hole))
           = ui at_second_hole ++ [renderScoringScreen])
    /\ (0 <= 1 + -1 < 3 ->
        exists snap,
          Storage.getCurrentRound
            (storage (snd (navigateHole (form "" "" "" "score-2") (-1) at_second_hole)))
          = Some snap
          /\ In (json_score e) (Round.scores snap)).
Proof.
  split; [reflexivity|].
  apply (backward_move_saves_unvalidated (form "" "" "" "score-2") (-1)
           at_second_hole
           (Round.with_currentHoleIndex
              (Round.with_scores three_hole_round
                 [Score.mk "score-1" "round-1" "hole-1" 1 (Some (Num 3)) None None
                           "2024-05-01"]) 1)
           (Hole.mk "hole-2" "course-1" 2 3 None)).
  - lia.
  - reflexivity.
  - reflexivity.
Defined.

(** The entry that this move leaves in the snapshot: hole 2 with 0 throws. *)
Example backward_move_snapshot :
  option_map (fun r => map (fun s => (Score.hole_number s, Score.throws s))
                           (Round.scores r))
    (Storage.getCurrentRound
       (storage (snd (navigateHole (form "" "" "" "score-2") (-1) at_second_hole))))
  = Some [(1, Some (Num 3)); (2, Some (Num 0))].
Proof. reflexivity. Qed.

(** Likewise 3 throws with 2 approaches and 2 putts, which validation
    rejects, are saved on the way back. *)
Example backward_move_inconsistent :
  isValid (validateScoreEntry (mkInputs "3" "2" "2")) = false
  /\ option_map (fun r => map (fun s => (Score.hole_number s, Score.throws s,
                                         Score.approaches s, Score.putts s))
                              (Round.scores r))
       (Storage.getCurrentRound
          (storage (snd (navigateHole (form "3" "2" "2" "score-2") (-1) at_second_hole))))
     = Some [(1, Some (Num 3), None, None);
             (2, Some (Num 3), Some (Num 2), Some (Num 2))].
Proof. split; reflexivity. Qed.

(** Saving the hole at hand when its entry exists: the entry is replaced
    where it is and keeps its identifier. *)
Lemma save_replaces_in_place (env : Env) (w : t) (round : Round.t)
    (hole : Hole.t) (n : nat) (s : Score.t) :
  currentRound w = Some round ->
  array_get (Round.holes round) (currentHoleIndex w) = Some hole ->
  NoDup (hole_numbers (Round.scores round)) ->
  Round.scores round !! n = Some s ->
  Score.hole_number s = currentHoleIndex w + 1 ->
  exists round' s',
    saveCurrentHoleScore env w
    = (Normal tt, mk (Some round') (currentHoleIndex w) (storage w) (ui w))
    /\ length (Round.scores round') = length (Round.scores round)
    /\ Round.scores round' !! n = Some s'
    /\ Score.score_id s' = Score.score_id s
    /\ entered env (currentHoleIndex w) s'
    /\ (forall j, j <> n -> Round.scores round' !! j = Round.scores round !! j)
    /\ NoDup (hole_numbers (Round.scores round')).
Proof.
  intros Hr Hh Hnd Hn Hs.
  destruct (saveCurrentHoleScore_ok env w round hole Hr Hh)
    as (r1 & Hsave & _ & _ & _ & d & Hscores & Hent).
  pose proof Hent as (Hd & Ht & Ha & Hp).
  pose proof (update_or_add_NoDup _ d _ Hd Hnd) as Hnd'.
  rewrite (update_or_add_found _ d _ n s Hd Hnd Hn Hs) in Hscores, Hnd'.
  exists r1. eexists. split; [exact Hsave|]. rewrite Hscores.
  split; [apply length_insert|].
  split; [apply list_lookup_insert_eq; eapply lookup_lt_Some; eauto|].
  split; [reflexivity|].
  split; [unfold entered; cbn; auto|].
  split; [intros j Hj; apply list_lookup_insert_ne; congruence|].
  exact Hnd'.
Qed.

(** C9. Whatever the handlers called on a round that started without
    scores, its scores hold at most one entry per hole number, and so does
    the saved snapshot; and saving a hole whose entry exists replaces that
    entry where it is, with the identifier it had: the array keeps its
    length, its other entries and the invariant. *)
Theorem scores_one_entry_per_hole
    (round_id course_id courseName round_date : string) (holes : list Hole.t)
    (isNewCourse : bool) (holeCount : Z) (courseData : option Course.t)
    (ls : Storage.localStorage) (actions : list Action) (env : Env)
    (round : Round.t) (hole : Hole.t) (n : nat) (s : Score.t) :
  let w := run actions
               (start (new_round round_id course_id courseName round_date holes
                                 isNewCourse holeCount courseData) ls) in
  one_entry_per_hole w
  /\ (currentRound w = Some round ->
      array_get (Round.holes round) (currentHoleIndex w) = Some hole ->
      Round.scores round !! n = Some s ->
      Score.hole_number s = currentHoleIndex w + 1 ->
      exists round' s',
        saveCurrentHoleScore env w
        = (Normal tt, mk (Some round') (currentHoleIndex w) (storage w) (ui w))
        /\ length (Round.scores round') = length (Round.scores round)
        /\ Round.scores round' !! n = Some s'
        /\ Score.score_id s' = Score.score_id s
        /\ entered env (currentHoleIndex w) s'
        /\ (forall j, j <> n -> Round.scores round' !! j = Round.scores round !! j)
        /\ NoDup (hole_numbers (Round.scores round'))).
Proof.
  intros w.
  assert (Hinv : one_entry_per_hole w).
  { apply one_entry_per_hole_run, one_entry_per_hole_start. reflexivity. }
  split; [exact Hinv|].
  intros Hr Hh Hn Hs.
  apply (save_replaces_in_place env w round hole n s); auto.
  exact (proj1 Hinv round Hr).
Qed.

(** Hole 1 saved with 3 throws, then hole 2, then back to hole 1 and 5
    throws entered: the entry of hole 1 is replaced and is still
    ["score-1"]. *)
Lemma scores_one_entry_per_hole_witness :
  exists round' s',
    saveCurrentHoleScore (form "5" "" "" "score-9") back_at_first_hole
    = (Normal tt, mk (Some round') 0 (storage back_at_first_hole)
                     (ui back_at_first_hole))
    /\ length (Round.scores round') = 2%nat
    /\ Round.scores round' !! 0%nat = Some s'
    /\ Score.score_id s' = "score-1"
    /\ entered (form "5" "" "" "score-9") 0 s'
    /\ (forall j, j <> 0%nat ->
                  Round.scores round' !! j
                  = [Score.mk "score-1" "round-1" "hole-1" 1 (Some (Num 3)) None None
                              "2024-05-01";
                     Score.mk "score-2" "round-1" "hole-2" 2 (Some (Num 4)) None None
                              "2024-05-01"] !! j)
    /\ NoDup (hole_numbers (Round.scores round')).
Proof.
  refine (proj2 (scores_one_entry_per_hole
            "round-1" "course-1" "Three Oaks" "2024-05-01" three_holes false 3 None
            Storage.empty_localStorage
            [HandleSaveHole (form "3" "" "" "score-1");
             NavigateHole (form "4" "" "" "score-2") (-1)]
            (form "5" "" "" "score-9")
            (Round.with_currentHoleIndex
               (Round.with_scores three_hole_round
                  [Score.mk "score-1" "round-1" "hole-1" 1 (Some (Num 3)) None None
                            "2024-05-01";
                   Score.mk "score-2" "round-1" "hole-2" 2 (Some (Num 4)) None None
                            "2024-05-01"]) 0)
            (Hole.mk "hole-1" "course-1" 1 3 None) 0%nat
            (Score.mk "score-1" "round-1" "hole-1" 1 (Some (Num 3)) None None
                      "2024-05-01")) _ _ _ _); reflexivity.
Defined.

(** C8, as the code has it, for a round with a hole at the active index.
    A move to an index that is not on the course is not an error: the
    handler completes, and the active index and the saved snapshot stay as
    they were. When the move is not forward, or the form is valid, the
    values of the form are stored as the entry of the active hole in the
    scores of the round in memory; when the move is forward and the form is
    invalid, the validation errors are shown and nothing else changes, so
    that no entry is stored. Submitting a valid form on the last hole of a
    round that is already completed is not an error either: the handler
    completes, the entry of the hole takes the values of the form and the
    round is finished once more, that is, its totals are computed again from
    the scores, the snapshot is written again with it and the summary is
    shown again. *)
Theorem invalid_transition_absorbed (env : Env) (direction : Z) (w : t)
    (round : Round.t) (hole : Hole.t) :
  currentRound w = Some round ->
  array_get (Round.holes round) (currentHoleIndex w) = Some hole ->
  (~ 0 <= currentHoleIndex w + direction < Round.holeCount round ->
   fst (navigateHole env direction w) = Normal tt
   /\ currentHoleIndex (snd (navigateHole env direction w)) = currentHoleIndex w
   /\ storage (snd (navigateHole env direction w)) = storage w
   /\ (direction <= 0
       \/ isValid (validateScoreEntry (score_entry (dom env))) = true ->
       exists round' d e,
         currentRound (snd (navigateHole env direction w)) = Some round'
         /\ Round.scores round'
            = update_or_add (currentHoleIndex w) d (Round.scores round)
         /\ entered env (currentHoleIndex w) d
         /\ In e (Round.scores round')
         /\ entered env (currentHoleIndex w) e)
   /\ (0 < direction ->
       isValid (validateScoreEntry (score_entry (dom env))) = false ->
       navigateHole env direction w
       = (Normal tt,
          mk (currentRound w) (currentHoleIndex w) (storage w)
             (ui w ++ [showValidationErrors
                         (errors (validateScoreEntry (score_entry (dom env))))]))))
  /\ (Round.completed round = true ->
      currentHoleIndex w = Round.holeCount round - 1 ->
      isValid (validateScoreEntry (score_entry (dom env))) = true ->
      fst (handleSaveHole env w) = Normal tt
      /\ exists round' e,
           currentRound (snd (handleSaveHole env w)) = Some round'
           /\ Round.completed round' = true
           /\ In e (Round.scores round')
           /\ entered env (currentHoleIndex w) e
           /\ (exists d,
                 Round.scores round'
                 = update_or_add (currentHoleIndex w) d (Round.scores round)
                 /\ entered env (currentHoleIndex w) d)
           /\ Round.total_score round'
              = Some (fst (Statistics.calculateRunningTotal
                             (Round.scores round') (Round.holes round')))
           /\ Round.total_par round'
              = Some (snd (Statistics.calculateRunningTotal
                             (Round.scores round') (Round.holes round')))
           /\ currentHoleIndex (snd (handleSaveHole env w)) = currentHoleIndex w
           /\ storage (snd (handleSaveHole env w))
              = Storage.saveCurrentRound (storage w) round'
           /\ ui (snd (handleSaveHole env w))
              = ui w ++ [clearValidationErrors; showScreen "summary"; renderSummary]).
Proof.
  intros Hr Hh. split.
  - intros Hout.
    destruct ((0 <? direction)
              && negb (isValid (validateScoreEntry (score_entry (dom env)))))
      eqn:Hchk.
    { apply andb_true_iff in Hchk as [Hfwd Hinv].
      apply Z.ltb_lt in Hfwd. apply negb_true_iff in Hinv.
      assert (Hrun : navigateHole env direction w
                     = (Normal tt,
                        mk (currentRound w) (currentHoleIndex w) (storage w)
                           (ui w ++ [showValidationErrors
                                       (errors (validateScoreEntry
                                                  (score_entry (dom env))))]))).
      { unfold navigateHole. rewrite Hinv.
        destruct (Z.ltb_spec 0 direction); [reflexivity | lia]. }
      rewrite Hrun. cbn [fst snd currentHoleIndex storage].
      split; [reflexivity|]. split; [reflexivity|]. split; [reflexivity|].
      split; [intros [Hback | Hvalid]; [lia | congruence] | reflexivity]. }
    destruct (navigateHole_after_save env direction w round hole Hchk Hr Hh)
      as (r1 & d & u & Hscores & Hent & Hcount & _ & ->).
    replace ((0 <=? currentHoleIndex w + direction)
             && (currentHoleIndex w + direction <? Round.holeCount r1))
      with false.
    2:{ symmetry. rewrite Hcount. apply andb_false_iff.
        destruct (Z.leb_spec 0 (currentHoleIndex w + direction)); [right|left; auto].
        apply Z.ltb_ge. lia. }
    cbn [fst snd currentHoleIndex storage currentRound].
    split; [reflexivity|]. split; [reflexivity|]. split; [reflexivity|]. split.
    + intros _.
      destruct (entered_update_or_add env _ d (Round.scores round) Hent)
        as (e & Hin & He).
      exists r1, d, e. rewrite Hscores. auto.
    + intros Hfwd Hinv. apply andb_false_iff in Hchk as [Hchk | Hchk].
      * apply Z.ltb_ge in Hchk. lia.
      * rewrite Hinv in Hchk. discriminate Hchk.
  - intros Hdone Hlast Hvalid.
    set (w0 := mk (currentRound w) (currentHoleIndex w) (storage w)
                  (ui w ++ [clearValidationErrors])).
    destruct (saveCurrentHoleScore_ok env w0 round hole Hr Hh)
      as (r1 & Hsave & Hcount & Hcompl & _ & d & Hscores & Hent).
    destruct (entered_update_or_add env _ d (Round.scores round) Hent)
      as (e & Hin & He).
    cbn [currentHoleIndex w0] in *.
    rewrite <- Hscores in Hin.
    assert (Hrun : handleSaveHole env w
                   = finishRound (mk (Some r1) (currentHoleIndex w) (storage w) (ui w0))).
    { unfold handleSaveHole. rewrite Hvalid. cbn [negb].
      unfold bind at 1. cbn [emit]. fold w0. unfold bind at 1. rewrite Hsave.
      cbn [currentRound currentHoleIndex]. rewrite Hcount, Hlast, Z.eqb_refl.
      reflexivity. }
    rewrite Hrun. unfold finishRound, bind, saveCurrentRoundState, emit; cbn.
    split; [reflexivity|]. do 2 eexists.
    split; [reflexivity|]. cbn.
    split; [reflexivity|]. split; [exact Hin|]. split; [exact He|].
    split; [exists d; split; [exact Hscores | exact Hent]|].
    split; [reflexivity|]. split; [reflexivity|]. split; [reflexivity|].
    split; [reflexivity|].
    rewrite <- !app_assoc. reflexivity.
Qed.

(** A move back from the first hole, which stores the 3 throws of the
    form; a move forward from the last hole with an empty form, which
    shows the error and stores nothing; and a fourth submission, with 7
    throws, on the completed round of three holes, whose total becomes
    14. *)
Lemma invalid_transition_absorbed_witness :
  (fst (navigateHole (form "3" "" "" "score-1") (-1) at_first_hole) = Normal tt
   /\ currentHoleIndex (snd (navigateHole (form "3" "" "" "score-1") (-1) at_first_hole))
      = 0
   /\ storage (snd (navigateHole (form "3" "" "" "score-1") (-1) at_first_hole))
      = storage at_first_hole
   /\ option_map Round.scores
        (currentRound (snd (navigateHole (form "3" "" "" "score-1") (-1) at_first_hole)))
      = Some [Score.mk "score-1" "round-1" "hole-1" 1 (Some (Num 3)) None None
                       "2024-05-01"])
  /\ navigateHole (form "" "" "" "score-4") 1 at_summary
     = (Normal tt,
        mk (currentRound at_summary) 2 (storage at_summary)
           (ui at_summary
            ++ [showValidationErrors [mkError "throws" "Throws must be at least 1"]]))
  /\ fst (handleSaveHole (form "7" "" "" "score-4") at_summary) = Normal tt
  /\ option_map Round.total_score
       (currentRound (snd (handleSaveHole (form "7" "" "" "score-4") at_summary)))
     = Some (Some 14).
Proof.
  split; [|split].
  - destruct (invalid_transition_absorbed (form "3" "" "" "score-1") (-1) at_first_hole
                three_hole_round (Hole.mk "hole-1" "course-1" 1 3 None)
                eq_refl eq_refl) as [Hmove _].
    destruct Hmove as (H1 & H2 & H3 & _); [change (~ 0 <= 0 + -1 < 3); lia|].
    split; [exact H1|]. split; [exact H2|]. split; [exact H3|]. reflexivity.
  - destruct (invalid_transition_absorbed (form "" "" "" "score-4") 1 at_summary
                Finish.summary_round (Hole.mk "hole-3" "course-1" 3 4 None)
                eq_refl eq_refl) as [Hmove _].
    destruct Hmove as (_ & _ & _ & _ & H5); [change (~ 0 <= 2 + 1 < 3); lia|].
    apply H5; [lia | reflexivity].
  - destruct (invalid_transition_absorbed (form "7" "" "" "score-4") 0 at_summary
                Finish.summary_round (Hole.mk "hole-3" "course-1" 3 4 None)
                eq_refl eq_refl) as [_ Hsubmit].
    destruct Hsubmit as (H1 & _); [reflexivity | reflexivity | reflexivity |].
    split; [exact H1 | reflexivity].
Defined.

(** C8, as stated, fails: the move from the first hole to index -1 does
    not end in an error, and neither does a submission on a completed
    round. *)
Lemma invalid_transition_not_loud :
  ~ (0 <= currentHoleIndex at_first_hole + -1 < 3)
  /\ (forall e, fst (navigateHole (form "3" "" "" "score-1") (-1) at_first_hole)
                <> Throw e)
  /\ option_map Round.completed (currentRound at_summary) = Some true
  /\ (forall e, fst (handleSaveHole (form "7" "" "" "score-4") at_summary)
                <> Throw e).
Proof.
  split; [change (~ 0 <= 0 + -1 < 3); lia|].
  split; [intros e; vm_compute; discriminate|].
  split; [reflexivity|].
  intros e; vm_compute; discriminate.
Qed.

End SessionClaims.

(** ** Statistics *)

Module StatisticsFacts.

Import Statistics Records.

Lemma roundTo_is_Some (q : option Qc) : is_Some (roundTo q).
Proof. destruct q; cbn; eauto. Qed.

Lemma length_filter_carrying (f : Score.t -> option jsnum) (holeId : string)
    (scores : list Score.t) :
  length (filter (fun v => is_number v = true)
                 (map f (filter (fun s => Score.hole_id s = holeId) scores)))
  = carrying f holeId scores.
Proof.
  unfold carrying. induction scores as [|s r IH]; [reflexivity|].
  rewrite (filter_cons (fun s => Score.hole_id s = holeId)),
    (filter_cons (fun s => Score.hole_id s = holeId /\ _)).
  destruct (decide (Score.hole_id s = holeId)) as [Hid|Hid].
  - cbn [map]. rewrite filter_cons.
    destruct (decide (is_number (f s) = true)) as [Hn|Hn].
    + rewrite decide_True by auto. cbn. rewrite IH. reflexivity.
    + rewrite decide_False by tauto. exact IH.
  - rewrite decide_False by tauto. exact IH.
Qed.

Lemma carrying_le_entries (f : Score.t -> option jsnum) (holeId : string)
    (scores : list Score.t) :
  (carrying f holeId scores
   <= length (filter (fun s => Score.hole_id s = holeId) scores))%nat.
Proof.
  rewrite <- length_filter_carrying.
  etransitivity; [apply length_filter|]. rewrite length_map. reflexivity.
Qed.

(** C7. The average of a sub-value of a hole is exposed exactly when at
    least 3 entries of the hole carry that sub-value, however many entries
    the hole has; the average of the throws is exposed from one entry that
    carries them. *)
Theorem detailed_average_needs_three (holeId : string) (scores : list Score.t) :
  (is_Some (avgApproaches (calculateHoleStats holeId scores))
   <-> (3 <= carrying Score.approaches holeId scores)%nat)
  /\ (is_Some (avgPutts (calculateHoleStats holeId scores))
      <-> (3 <= carrying Score.putts holeId scores)%nat)
  /\ (is_Some (avgScore (calculateHoleStats holeId scores))
      <-> (1 <= carrying Score.throws holeId scores)%nat)
  /\ avgApproaches (calculateHoleStats "hole-1" ten_entries) = None
  /\ length (filter (fun s => Score.hole_id s = "hole-1") ten_entries) = 10%nat.
Proof.
  assert (Hgen : forall (f : Score.t -> option jsnum) (m : nat) (q : option Qc),
             (1 <= m)%nat ->
             is_Some
               (if (length (filter (fun s => Score.hole_id s = holeId) scores) =? 0)%nat
                then None
                else if (m <=? carrying f holeId scores)%nat then roundTo q else None)
             <-> (m <= carrying f holeId scores)%nat).
  { intros f m q Hm. pose proof (carrying_le_entries f holeId scores) as Hle.
    destruct (Nat.eqb_spec (length (filter (fun s => Score.hole_id s = holeId) scores)) 0)
      as [H0|H0].
    - split; [intros [x Hx]; discriminate|lia].
    - destruct (Nat.leb_spec m (carrying f holeId scores)).
      + split; [auto|intros _; apply roundTo_is_Some].
      + split; [intros [x Hx]; discriminate|lia]. }
  unfold calculateHoleStats.
  rewrite !length_filter_carrying.
  repeat split.
  - intros H. apply (Hgen Score.approaches 3%nat) with (q := average
      (filter (fun v => is_number v = true)
         (map Score.approaches (filter (fun s => Score.hole_id s = holeId) scores))));
      [lia|].
    destruct (_ =? _)%nat; exact H.
  - intros H. apply (Hgen Score.approaches 3%nat) with (q := average
      (filter (fun v => is_number v = true)
         (map Score.approaches (filter (fun s => Score.hole_id s = holeId) scores))))
      in H; [|lia].
    destruct (_ =? _)%nat; exact H.
  - intros H. apply (Hgen Score.putts 3%nat) with (q := average
      (filter (fun v => is_number v = true)
         (map Score.putts (filter (fun s => Score.hole_id s = holeId) scores))));
      [lia|].
    destruct (_ =? _)%nat; exact H.
  - intros H. apply (Hgen Score.putts 3%nat) with (q := average
      (filter (fun v => is_number v = true)
         (map Score.putts (filter (fun s => Score.hole_id s = holeId) scores))))
      in H; [|lia].
    destruct (_ =? _)%nat; exact H.
  - intros H. apply (Hgen Score.throws 1%nat) with (q := average
      (filter (fun v => is_number v = true)
         (map Score.throws (filter (fun s => Score.hole_id s = holeId) scores))));
      [lia|].
    destruct (_ =? _)%nat; [exact H|].
    change (0 <? ?n)%nat with (1 <=? n)%nat in H. exact H.
  - intros H. apply (Hgen Score.throws 1%nat) with (q := average
      (filter (fun v => is_number v = true)
         (map Score.throws (filter (fun s => Score.hole_id s = holeId) scores))))
      in H; [|lia].
    destruct (_ =? _)%nat; [exact H|].
    change (0 <? ?n)%nat with (1 <=? n)%nat. exact H.
Qed.

(** With three entries that carry them, the averages are the exact ones
    rounded to one decimal: 2 for approaches 1, 2, 3 and 1.3 for putts
    1, 2, 1. *)
Example detailed_average_values :
  let st := calculateHoleStats "hole-1"
              [Score.mk "" "" "hole-1" 1 (Some (Num 3)) (Some (Num 1)) (Some (Num 1)) "";
               Score.mk "" "" "hole-1" 1 (Some (Num 4)) (Some (Num 2)) (Some (Num 2)) "";
               Score.mk "" "" "hole-1" 1 (Some (Num 5)) (Some (Num 3)) (Some (Num 1)) ""] in
  avgScore st = Some (Q2Qc 4) /\ avgApproaches st = Some (Q2Qc 2)
  /\ avgPutts st = Some (Q2Qc (13 # 10)).
Proof.
  cbv zeta. unfold calculateHoleStats, roundTo, average. cbn.
  repeat split; apply (f_equal Some), Qc_is_canon; reflexivity.
Qed.

End StatisticsFacts.

(** ** The local store *)

Module StorageFacts.

Import Storage Records.

(** *** [getAll] *)

(** On the [localStorage] fallback [getAll] never throws, and a collection
    that is absent or whose text does not parse reads as empty. *)
Lemma getAll_fallback (ls : localStorage) (request_ok : bool) (storeName : string) :
  exists items,
    getAll (mk None ls) request_ok storeName = Normal items
    /\ (ls_items ls !! CONFIG.storageKeys storeName = None -> items = [])
    /\ (ls_items ls !! CONFIG.storageKeys storeName = Some Corrupt -> items = []).
Proof.
  unfold getAll, get_items. cbn.
  destruct (ls_items ls !! CONFIG.storageKeys storeName) as [[|v]|];
    eexists; (split; [reflexivity|]); split; intros H; try discriminate; reflexivity.
Qed.

(** On IndexedDB a request that fails on an existing object store gives
    the empty array. *)
Lemma getAll_request_error (d : IDBDatabase) (ls : localStorage)
    (storeName : string) (os : ObjectStore) :
  objectStores d !! storeName = Some os ->
  getAll (mk (Some d) ls) false storeName = Normal [].
Proof. intros H. unfold getAll. cbn. rewrite H. reflexivity. Qed.

Lemma getAll_throws_iff (st : Storage.t) (request_ok : bool) (storeName : string) :
  (exists e, getAll st request_ok storeName = Throw e)
  <-> exists d, db st = Some d /\ objectStores d !! storeName = None.
Proof.
  unfold getAll. destruct (db st) as [d|].
  - destruct (objectStores d !! storeName) as [os|] eqn:Hos.
    + split.
      * intros [e He]. destruct request_ok; discriminate.
      * intros (d' & [= <-] & Hd). congruence.
    + split; eauto.
  - split; [intros [e He]; discriminate | intros (d' & Hd & _); discriminate].
Qed.

(** C5, at the input where the code departs from it: with IndexedDB open
    on the database that [init] creates, [getAll] of a name that is not
    one of its object stores does not return the empty array: its promise
    is rejected with the [NotFoundError] that [db.transaction] throws,
    whereas the [localStorage] fallback returns the empty array for the
    same name. *)
Theorem getAll_unknown_store_rejects :
  getAll (mk (Some created_database) empty_localStorage) true "players"
  = Throw "NotFoundError"
  /\ getAll (mk None empty_localStorage) true "players" = Normal [].
Proof. split; reflexivity. Qed.

(** *** [put] *)







Lemma store_put_keeps_keyPath (os os1 : ObjectStore) (item : obj) :
  store_put os item = Normal os1 -> keyPath os1 = keyPath os.
Proof.
  unfold store_put. destruct (item !! keyPath os) as [v|].
  - destruct (valid_key (Some v)); [|discriminate]. intros [= <-]. reflexivity.
  - destruct (autoIncrement os); [|discriminate]. intros [= <-]. reflexivity.
Qed.





End StorageFacts.

(** ** The replay of the queue *)

Module ReplayFacts.

Import SheetsAPI Replay.

Lemma rows_attempt_succeeded (sheetName : string) (headers : list string)
    (xs : list obj) (seg : list Event) (b : bool) :
  rows_attempt sheetName headers xs seg b -> b = succeeded seg.
Proof. induction 1; cbn; auto. Qed.

Lemma attempt_succeeded (op : Operation) (seg : list Event) (b : bool) :
  attempt op seg b -> b = succeeded seg.
Proof.
  destruct 1; cbn; rewrite ?andb_true_r; auto;
    eapply rows_attempt_succeeded; eauto.
Qed.

Lemma rows_attempt_complete (sheetName : string) (headers : list string)
    (xs : list obj) (seg : list Event) :
  rows_attempt sheetName headers xs seg true ->
  ev_call <$> seg
  = (fun x => CreateRow sheetName (prepareRowData x headers)) <$> xs.
Proof.
  remember true as b eqn:Hb. induction 1; cbn; [reflexivity|discriminate|].
  rewrite IHrows_attempt by assumption. reflexivity.
Qed.

Lemma attempt_payload_rows (op : Operation) (seg : list Event) (k : nat) :
  attempt op seg true -> payload_rows op = Some k -> length seg = k.
Proof.
  intros Ha. remember true as b eqn:Hb.
  destruct Ha; cbn; intros [= <-]; try reflexivity; subst b;
    apply rows_attempt_complete in H;
    apply (f_equal length) in H; rewrite !length_fmap in H; exact H.
Qed.

Section Gateway.

Context {GW : Type}.
Variable gateway : Call -> GW -> option (list obj) * GW.

Local Abbreviation appends := (Replay.appends gateway).
Local Abbreviation answered := (Replay.answered gateway).

Lemma request_appends (c : Call) (n : @Net GW) :
  exists ok r,
    appends (request gateway c) n r [mkEvent c ok]
    /\ is_normal r = ok
    /\ (ok = true -> exists rows, r = Normal rows).
Proof.
  unfold appends, request.
  destruct (gateway c (gw n)) as [[rows|] g] eqn:Hg.
  - exists true, (Normal rows). split; [|split; eauto].
    exists g. split; [reflexivity|]. repeat constructor.
    exists (gw n). cbn. rewrite Hg. reflexivity.
  - exists false, (Throw "Error"). split; [|split; [reflexivity|discriminate]].
    exists g. split; [reflexivity|]. repeat constructor.
    exists (gw n). cbn. rewrite Hg. reflexivity.
Qed.

Lemma createRow_appends (sheetName : string) (data : obj) (n : @Net GW) :
  exists ok r,
    appends (createRow gateway sheetName data) n r
            [mkEvent (CreateRow sheetName data) ok]
    /\ is_normal r = ok.
Proof.
  destruct (request_appends (CreateRow sheetName data) n)
    as (ok & r & (g & Hrun & Hans) & Hok & _).
  exists ok, (match r with Normal _ => Normal tt | Throw e => Throw e end).
  split; [|destruct r; exact Hok].
  exists g. unfold createRow, bind. rewrite Hrun. destruct r; auto.
Qed.

Lemma updateRow_appends (sheetName : string) (rowIndex : Z) (data : obj) (n : @Net GW) :
  exists ok r,
    appends (updateRow gateway sheetName rowIndex data) n r
            [mkEvent (UpdateRow sheetName rowIndex data) ok]
    /\ is_normal r = ok.
Proof.
  destruct (request_appends (UpdateRow sheetName rowIndex data) n)
    as (ok & r & (g & Hrun & Hans) & Hok & _).
  exists ok, (match r with Normal _ => Normal tt | Throw e => Throw e end).
  split; [|destruct r; exact Hok].
  exists g. unfold updateRow, bind. rewrite Hrun. destruct r; auto.
Qed.

Lemma createRows_appends (sheetName : string) (headers : list string)
    (xs : list obj) (n : @Net GW) :
  exists seg r,
    appends (createRows gateway sheetName headers xs) n r seg
    /\ rows_attempt sheetName headers xs seg (is_normal r).
Proof.
  revert n. induction xs as [|x xs IH]; intros n.
  - exists [], (Normal tt). split; [|constructor].
    exists (gw n). cbn. rewrite app_nil_r. destruct n; auto.
  - destruct (createRow_appends sheetName (prepareRowData x headers) n)
      as (ok & r & (g & Hrun & Hans) & Hok).
    destruct r as [[]|e]; cbn in Hok; subst ok.
    + destruct (IH (mkNet g (log n ++ [mkEvent (CreateRow sheetName
                                                 (prepareRowData x headers)) true])))
        as (seg & r & (g' & Hrun' & Hans') & Hrows).
      eexists (_ :: seg), r. split; [|constructor; exact Hrows].
      exists g'. cbn [createRows]. unfold bind. rewrite Hrun, Hrun'.
      cbn [log]. rewrite <- app_assoc. cbn.
      split; [reflexivity|]. constructor; [|exact Hans'].
      inversion Hans; assumption.
    + eexists [_], (Throw e). split; [|constructor].
      exists g. cbn [createRows]. unfold bind. rewrite Hrun. auto.
Qed.

Lemma bind_normal {A B : Type} (m : @Async GW A) (k : A -> @Async GW B)
    (n n' : @Net GW) (a : A) :
  m n = (Normal a, n') -> bind m k n = k a n'.
Proof. intros H. unfold bind. rewrite H. reflexivity. Qed.

Lemma bind_throw {A B : Type} (m : @Async GW A) (k : A -> @Async GW B)
    (n n' : @Net GW) (e : string) :
  m n = (Throw e, n') -> bind m k n = (Throw e, n').
Proof. intros H. unfold bind. rewrite H. reflexivity. Qed.

Lemma updateRound_attempt (data : obj) (n : @Net GW) :
  exists seg r,
    appends (updateRound gateway data) n r seg
    /\ attempt (op_updateRound data) seg (is_normal r).
Proof.
  destruct (request_appends (GetRows CONFIG.sheets.rounds) n)
    as (ok & r & (g & Hrun & Hans) & Hok & Hrows).
  apply Forall_inv in Hans.
  destruct ok.
  - destruct (Hrows eq_refl) as [allRounds ->].
    destruct (findIndex (fun r => strict_eq (r !! "round_id") (data !! "round_id"))
                        allRounds) as [rowIndex|] eqn:Hfind.
    + destruct (updateRow_appends CONFIG.sheets.rounds (Z.of_nat rowIndex + 2)
                  (prepareRowData data CONFIG.sheetHeaders.rounds)
                  (mkNet g (log n ++ [mkEvent (GetRows CONFIG.sheets.rounds) true])))
        as (ok & r & (g' & Hrun' & Hans') & Hok').
      apply Forall_inv in Hans'. cbn [log] in Hrun'.
      rewrite <- app_assoc in Hrun'. cbn [app] in Hrun'.
      exists [mkEvent (GetRows CONFIG.sheets.rounds) true;
              mkEvent (UpdateRow CONFIG.sheets.rounds (Z.of_nat rowIndex + 2)
                 (prepareRowData data CONFIG.sheetHeaders.rounds)) ok],
        (match r with Normal _ => Normal true | Throw e => Throw e end).
      split.
      * exists g'. split; [|repeat constructor; eassumption].
        unfold updateRound, getRows. rewrite (bind_normal _ _ _ _ _ Hrun), Hfind.
        cbv beta iota zeta.
        destruct r; [rewrite (bind_normal _ _ _ _ _ Hrun')
                    |rewrite (bind_throw _ _ _ _ _ Hrun')]; reflexivity.
      * replace (is_normal _) with ok by (destruct r; auto). constructor.
    + exists [mkEvent (GetRows CONFIG.sheets.rounds) true], (Normal false). split; [|constructor].
      exists g. split; [|repeat constructor; assumption].
      unfold updateRound, getRows. rewrite (bind_normal _ _ _ _ _ Hrun), Hfind.
      reflexivity.
  - destruct r as [rows|e]; [discriminate|].
    exists [mkEvent (GetRows CONFIG.sheets.rounds) false], (Throw e). split; [|constructor].
    exists g. split; [|repeat constructor; assumption].
    unfold updateRound, getRows. rewrite (bind_throw _ _ _ _ _ Hrun). reflexivity.
Qed.

Lemma updateCourseLastPlayed_attempt (courseId date : value) (n : @Net GW) :
  exists seg r,
    appends (updateCourseLastPlayed gateway courseId date) n r seg
    /\ attempt (op_updateCourseLastPlayed courseId date) seg (is_normal r).
Proof.
  destruct (request_appends (GetRows CONFIG.sheets.courses) n)
    as (ok & r & (g & Hrun & Hans) & Hok & Hrows).
  apply Forall_inv in Hans.
  destruct ok.
  - destruct (Hrows eq_refl) as [allCourses ->].
    destruct (findIndex (fun c => strict_eq (c !! "course_id") (Some courseId))
                        allCourses) as [rowIndex|] eqn:Hfind.
    + destruct (updateRow_appends CONFIG.sheets.courses (Z.of_nat rowIndex + 2)
                  (prepareRowData
                     (<["last_played" := date]> (default ∅ (allCourses !! rowIndex)))
                     CONFIG.sheetHeaders.courses)
                  (mkNet g (log n ++ [mkEvent (GetRows CONFIG.sheets.courses) true])))
        as (ok & r & (g' & Hrun' & Hans') & Hok').
      apply Forall_inv in Hans'. cbn [log] in Hrun'.
      rewrite <- app_assoc in Hrun'. cbn [app] in Hrun'.
      exists [mkEvent (GetRows CONFIG.sheets.courses) true;
              mkEvent (UpdateRow CONFIG.sheets.courses (Z.of_nat rowIndex + 2)
                 (prepareRowData
                    (<["last_played" := date]> (default ∅ (allCourses !! rowIndex)))
                    CONFIG.sheetHeaders.courses)) ok],
        (match r with Normal _ => Normal true | Throw e => Throw e end).
      split.
      * exists g'. split; [|repeat constructor; eassumption].
        unfold updateCourseLastPlayed, getRows.
        rewrite (bind_normal _ _ _ _ _ Hrun), Hfind.
        cbv beta iota zeta.
        destruct r; [rewrite (bind_normal _ _ _ _ _ Hrun')
                    |rewrite (bind_throw _ _ _ _ _ Hrun')]; reflexivity.
      * replace (is_normal _) with ok by (destruct r; auto). constructor.
    + exists [mkEvent (GetRows CONFIG.sheets.courses) true], (Normal false). split; [|constructor].
      exists g. split; [|repeat constructor; assumption].
      unfold updateCourseLastPlayed, getRows.
      rewrite (bind_normal _ _ _ _ _ Hrun), Hfind. reflexivity.
  - destruct r as [rows|e]; [discriminate|].
    exists [mkEvent (GetRows CONFIG.sheets.courses) false], (Throw e). split; [|constructor].
    exists g. split; [|repeat constructor; assumption].
    unfold updateCourseLastPlayed, getRows.
    rewrite (bind_throw _ _ _ _ _ Hrun). reflexivity.
Qed.

Lemma appends_discard {A : Type} (m : @Async GW A) (n : @Net GW)
    (r : completion A) (seg : list Event) :
  appends m n r seg ->
  exists r', appends (bind m (fun _ => ret tt)) n r' seg
             /\ is_normal r' = is_normal r.
Proof.
  intros (g & Hrun & Hans).
  exists (match r with Normal _ => Normal tt | Throw e => Throw e end).
  split; [|destruct r; reflexivity].
  exists g. unfold bind. rewrite Hrun. destruct r; auto.
Qed.

(** The handler of an operation makes one attempt of it, and completes
    normally exactly when the attempt succeeded. *)
Lemma dispatch_attempt (op : Operation) (n : @Net GW) :
  exists seg r,
    appends (dispatch gateway op) n r seg
    /\ attempt op seg (is_normal r).
Proof.
  destruct op as [data|data|data|data|data|courseId date]; cbn [dispatch].
  - destruct (createRow_appends CONFIG.sheets.courses
                (prepareRowData data CONFIG.sheetHeaders.courses) n)
      as (ok & r & Hrun & Hok).
    eexists; exists r. split; [exact Hrun|]. rewrite Hok. constructor.
  - destruct (createRows_appends CONFIG.sheets.holes CONFIG.sheetHeaders.holes data n)
      as (seg & r & Hrun & Hrows).
    exists seg, r. split; [exact Hrun|]. constructor. exact Hrows.
  - destruct (createRow_appends CONFIG.sheets.rounds
                (prepareRowData data CONFIG.sheetHeaders.rounds) n)
      as (ok & r & Hrun & Hok).
    eexists; exists r. split; [exact Hrun|]. rewrite Hok. constructor.
  - destruct (updateRound_attempt data n) as (seg & r & Hrun & Hatt).
    destruct (appends_discard _ _ _ _ Hrun) as (r' & Hrun' & Hr').
    exists seg, r'. split; [exact Hrun'|]. rewrite Hr'. exact Hatt.
  - destruct (createRows_appends CONFIG.sheets.scores CONFIG.sheetHeaders.scores data n)
      as (seg & r & Hrun & Hrows).
    exists seg, r. split; [exact Hrun|]. constructor. exact Hrows.
  - destruct (updateCourseLastPlayed_attempt courseId date n)
      as (seg & r & Hrun & Hatt).
    destruct (appends_discard _ _ _ _ Hrun) as (r' & Hrun' & Hr').
    exists seg, r'. split; [exact Hrun'|]. rewrite Hr'. exact Hatt.
Qed.

(** The loop: one attempt per operation, in the order of the queue; the
    operations whose attempt failed are appended to [failed], in that
    order. *)
Lemma replay_attempts (pending failed : list PendingOp) (n : @Net GW) :
  exists segs g,
    replay gateway pending failed n
    = (Normal (failed ++ retained pending segs), mkNet g (log n ++ concat segs))
    /\ Forall2 (fun p seg => attempt (pending_op p) seg (succeeded seg)) pending segs
    /\ Forall (Forall answered) segs.
Proof.
  revert failed n. induction pending as [|p rest IH]; intros failed n.
  - exists [], (gw n). cbn. rewrite !app_nil_r. destruct n; auto.
  - destruct (dispatch_attempt (pending_op p) n) as (seg & r & (g & Hrun & Hans) & Hatt).
    pose proof (attempt_succeeded _ _ _ Hatt) as Hs.
    destruct r as [[]|e]; cbn [is_normal] in *.
    + destruct (IH failed (mkNet g (log n ++ seg)))
        as (segs & g' & Hrest & Hall & Hans').
      exists (seg :: segs), g'. split; [|split; constructor; auto].
      * cbn [replay retained concat]. rewrite <- Hs.
        unfold bind at 1, try_catch, bind. rewrite Hrun. cbn [ret].
        rewrite Hrest. cbn [log]. rewrite app_assoc. reflexivity.
      * rewrite <- Hs. exact Hatt.
    + destruct (IH (failed ++ [p]) (mkNet g (log n ++ seg)))
        as (segs & g' & Hrest & Hall & Hans').
      exists (seg :: segs), g'. split; [|split; constructor; auto].
      * cbn [replay retained concat]. rewrite <- Hs.
        unfold bind at 1, try_catch, bind. rewrite Hrun. cbn [ret].
        rewrite Hrest. cbn [log]. rewrite <- !app_assoc. reflexivity.
      * rewrite <- Hs. exact Hatt.
Qed.

Lemma retained_none (pending : list PendingOp) (segs : list (list Event)) :
  length pending = length segs ->
  (length (retained pending segs) =? 0)%nat = forallb succeeded segs.
Proof.
  revert segs. induction pending as [|p rest IH]; intros [|seg segs];
    cbn; try discriminate; [reflexivity|].
  intros [= Hlen]. destruct (succeeded seg); cbn; auto.
Qed.

(** What one pass does to the queue, the log and [localStorage]: either the
    queue was empty and nothing is written, or the operations whose attempt
    failed are written back. *)
Lemma drain_pass (ls : Storage.localStorage) (n : @Net GW) :
  exists segs ls' g,
    processPendingSync gateway ls n
    = (Normal ((length (retained (Storage.getPendingSync ls) segs) =? 0)%nat, ls'),
       mkNet g (log n ++ concat segs))
    /\ Forall2 (fun p seg => attempt (pending_op p) seg (succeeded seg))
               (Storage.getPendingSync ls) segs
    /\ Forall (Forall answered) segs
    /\ (Storage.getPendingSync ls = [] /\ ls' = ls
        \/ ls' = Storage.set_pendingSync ls
                   (retained (Storage.getPendingSync ls) segs)).
Proof.
  unfold processPendingSync.
  destruct (Storage.getPendingSync ls) as [|p rest] eqn:Hq.
  - exists [], ls, (gw n). cbn. rewrite app_nil_r. destruct n.
    repeat split; auto.
  - destruct (replay_attempts (p :: rest) [] n) as (segs & g & Hrun & Hall & Hans).
    exists segs, (Storage.set_pendingSync ls (retained (p :: rest) segs)), g.
    cbn [length Nat.eqb]. unfold bind. rewrite Hrun. cbn [app ret].
    repeat split; auto.
Qed.

(** C1. One pass of [processPendingSync] over the queue, against any
    gateway: it makes one attempt of each queued operation, in the order
    of the queue, each attempt being the requests of that operation up
    to its first failure, with the outcomes that the gateway gave; it
    writes back exactly the operations whose attempt had a failed
    request, in their order in the queue, and leaves the rest of
    [localStorage] alone; and it returns [true] exactly when no attempt
    failed. *)
Theorem drain_keeps_failed (ls : Storage.localStorage) (n : @Net GW) :
  exists segs ls' g,
    processPendingSync gateway ls n
    = (Normal (forallb succeeded segs, ls'), mkNet g (log n ++ concat segs))
    /\ Forall2 (fun p seg => attempt (pending_op p) seg (succeeded seg))
               (Storage.getPendingSync ls) segs
    /\ Forall (Forall answered) segs
    /\ Storage.getPendingSync ls' = retained (Storage.getPendingSync ls) segs
    /\ (forallb succeeded segs = true <-> Storage.getPendingSync ls' = [])
    /\ Storage.ls_items ls' = Storage.ls_items ls
    /\ Storage.ls_currentRound ls' = Storage.ls_currentRound ls.
Proof.
  destruct (drain_pass ls n) as (segs & ls' & g & Hrun & Hall & Hans & Hls).
  pose proof (retained_none _ _ (Forall2_length _ _ _ Hall)) as Hnone.
  rewrite Hnone in Hrun.
  assert (Hq : Storage.getPendingSync ls'
               = retained (Storage.getPendingSync ls) segs).
  { destruct Hls as [[Hempty ->] | ->]; [|reflexivity].
    rewrite Hempty. reflexivity. }
  exists segs, ls', g.
  split; [exact Hrun|]. split; [exact Hall|]. split; [exact Hans|].
  split; [exact Hq|]. split; [|destruct Hls as [[_ ->] | ->]; auto].
  rewrite Hq, <- Hnone.
  destruct (retained (Storage.getPendingSync ls) segs); cbn; split;
    intros H; first [reflexivity | discriminate].
Qed.

Lemma getPendingSync_enqueue_all (ls : Storage.localStorage)
    (ops : list (Operation * string)) :
  Storage.getPendingSync (enqueue_all ls ops)
  = Storage.getPendingSync ls ++ (queued <$> ops).
Proof.
  revert ls. induction ops as [|[op now] ops IH]; intros ls; cbn.
  - rewrite app_nil_r. reflexivity.
  - unfold enqueue_all in IH. rewrite IH. cbn. rewrite <- app_assoc. reflexivity.
Qed.

Lemma retained_all_succeeded (pending : list PendingOp) (segs : list (list Event)) :
  forallb succeeded segs = true -> retained pending segs = [].
Proof.
  revert segs. induction pending as [|p rest IH]; intros [|seg segs]; cbn; auto.
  intros H. apply andb_true_iff in H as [-> H]. auto.
Qed.

Lemma attempts_complete (pending : list PendingOp) (segs : list (list Event)) :
  Forall2 (fun p seg => attempt (pending_op p) seg (succeeded seg)) pending segs ->
  Forall (fun seg => succeeded seg = true) segs ->
  Forall2 (fun op seg =>
             attempt op seg true
             /\ forall k, payload_rows op = Some k -> length seg = k)
          (pending_op <$> pending) segs.
Proof.
  induction 1 as [|p seg pending segs Hatt Hall IH]; intros Hsucc; cbn;
    constructor; inversion Hsucc as [|? ? Hs Hrest]; subst.
  - rewrite Hs in Hatt. split; [exact Hatt|].
    intros k. apply attempt_payload_rows. exact Hatt.
  - apply IH. exact Hrest.
Qed.

(** C4, as the code has it. After any operations were enqueued, one pass
    against a gateway that accepts every request empties the queue and
    returns [true]; it makes one attempt of each operation of the queue,
    those that were there first and then the new ones in the order of
    enqueueing, and every attempt is complete: one [createRow] for
    [saveCourse] and for [saveRound], one per hole or per score for
    [saveHoles] and [saveScores], and a [getRows] followed by at most one
    [updateRow] for the two updates. The number of requests is the number
    of these rows, not the number of operations. *)
Theorem drain_after_enqueue_accepted (ls : Storage.localStorage)
    (ops : list (Operation * string)) (n : @Net GW) :
  (forall c g, is_some (fst (gateway c g)) = true) ->
  exists segs ls' g,
    processPendingSync gateway (enqueue_all ls ops) n
    = (Normal (true, ls'), mkNet g (log n ++ concat segs))
    /\ Storage.getPendingSync ls' = []
    /\ Forall2 (fun op seg =>
                  attempt op seg true
                  /\ forall k, payload_rows op = Some k -> length seg = k)
               ((pending_op <$> Storage.getPendingSync ls) ++ (fst <$> ops)) segs.
Proof.
  intros Haccept.
  destruct (drain_pass (enqueue_all ls ops) n)
    as (segs & ls' & g & Hrun & Hall & Hans & Hls).
  assert (Hsucc : Forall (fun seg => succeeded seg = true) segs).
  { eapply Forall_impl; [exact Hans|]. intros seg Hseg. unfold succeeded.
    apply forallb_forall. intros e He.
    rewrite Forall_forall in Hseg. apply list_elem_of_In in He.
    destruct (Hseg e He) as [g0 ->]. apply Haccept. }
  assert (Hnone : retained (Storage.getPendingSync (enqueue_all ls ops)) segs = []).
  { apply retained_all_succeeded, forallb_forall. intros seg Hseg.
    rewrite Forall_forall in Hsucc. apply Hsucc, list_elem_of_In, Hseg. }
  rewrite Hnone in Hrun, Hls.
  exists segs, ls', g. split; [exact Hrun|].
  split; [destruct Hls as [[Hq ->] | ->]; [exact Hq|reflexivity]|].
  apply attempts_complete in Hall; [|exact Hsucc].
  rewrite getPendingSync_enqueue_all, fmap_app, <- list_fmap_compose in Hall.
  exact Hall.
Qed.

End Gateway.

(** The example of the specification: of six queued operations the
    gateway fails the second and the fifth; after one pass exactly these
    two remain, in that order, and the pass returns [false]. *)
Example drain_positions_2_and_5 :
  exists ls',
    fst (processPendingSync refusing_2_and_5
           (enqueue_all Storage.empty_localStorage six_rounds) (mkNet tt []))
    = Normal (false, ls')
    /\ Storage.getPendingSync ls'
       = [mkPending (round_op "round-2") "t2"; mkPending (round_op "round-5") "t5"].
Proof. eexists. split; reflexivity. Qed.

(** With the operations that drew no failure, the next pass against a
    gateway that accepts every request empties the queue. *)
Example drain_again_empties :
  forall ls', Storage.getPendingSync ls' = [] ->
    fst (processPendingSync accepting ls' (mkNet tt [])) = Normal (true, ls').
Proof. intros ls' H. unfold processPendingSync. rewrite H. reflexivity. Qed.

(** A pass that replays an operation of two scores makes two requests. *)
Lemma drain_after_enqueue_accepted_witness :
  exists segs ls' g,
    processPendingSync accepting (enqueue_all Storage.empty_localStorage two_scores)
                       (mkNet tt [])
    = (Normal (true, ls'), mkNet g ([] ++ concat segs))
    /\ Storage.getPendingSync ls' = []
    /\ Forall2 (fun op seg =>
                  attempt op seg true
                  /\ forall k, payload_rows op = Some k -> length seg = k)
               ([] ++ (fst <$> two_scores)) segs.
Proof.
  apply (drain_after_enqueue_accepted accepting Storage.empty_localStorage
           two_scores (mkNet tt [])).
  intros c g. reflexivity.
Defined.

(** C4, as stated, fails: one operation was enqueued, the gateway accepts
    every request, and the pass calls it twice. *)
Lemma one_operation_two_requests :
  length two_scores = 1%nat
  /\ length (log (snd (processPendingSync accepting
                        (enqueue_all Storage.empty_localStorage two_scores)
                        (mkNet tt []))))
     = 2%nat
  /\ length (log (snd (processPendingSync accepting
                        (enqueue_all Storage.empty_localStorage two_scores)
                        (mkNet tt []))))
     <> length two_scores.
Proof. repeat split. vm_compute. discriminate. Qed.

End ReplayFacts.


(** ** The other methods of the store *)

Module StorageOpsFacts.

Import Storage StorageOps Records.

Lemma find_first_insert {A : Type} (f : A -> bool) (l : list A) (n : nat) (y : A) :
  findIndex f l = Some n -> f y = true ->
  find_first f (<[n := y]> l) = Some y.
Proof.
  revert n. induction l as [|a l IH]; intros n; cbn; [discriminate|].
  destruct (f a) eqn:Hfa.
  - intros [= <-] Hy. cbn. rewrite Hy. reflexivity.
  - destruct (findIndex f l) as [m|] eqn:Hm; cbn; [|discriminate].
    intros [= <-] Hy. cbn. rewrite Hfa. apply (IH m); auto.
Qed.

Lemma find_first_app_new {A : Type} (f : A -> bool) (l : list A) (y : A) :
  findIndex f l = None -> f y = true -> find_first f (l ++ [y]) = Some y.
Proof.
  induction l as [|a l IH]; cbn; intros Hn Hy; [rewrite Hy; reflexivity|].
  destruct (f a); [discriminate|].
  destruct (findIndex f l); [discriminate|]. auto.
Qed.

(** X1. A record that [put] has stored is the one that [getById] returns
    for its identifier, on both backends: on the fallback the record takes
    the place of the first record with that identifier, which is the one
    that [getById] finds. *)
Theorem getById_after_put (st : Storage.t) (storeName : string) (item : obj)
    (id : value) :
  identifier st storeName item = Some id ->
  fst (put st true storeName item) = Normal true ->
  getById (snd (put st true storeName item)) true storeName id = Normal (Some item).
Proof.
  unfold identifier, put, getById. destruct (db st) as [d|] eqn:Hdb.
  - destruct (objectStores d !! storeName) as [os|] eqn:Hos; [|discriminate].
    intros Hid. unfold store_put. rewrite Hid.
    destruct (valid_key (Some id)) as [k|] eqn:Hk; [|discriminate].
    intros _. cbn -[valid_key]. rewrite lookup_insert_eq. cbn.
    rewrite lookup_insert_eq. reflexivity.
  - intros Hid _. cbn. unfold get_items at 1, set_items. cbn.
    rewrite lookup_insert_eq. cbn. f_equal. rewrite <- Hid.
    destruct (findIndex _ _) as [n|] eqn:Hf.
    + apply (find_first_insert _ _ n item Hf).
      apply bool_decide_eq_true. reflexivity.
    + apply find_first_app_new; [exact Hf|].
      apply bool_decide_eq_true. reflexivity.
Qed.

Lemma getById_after_put_witness :
  getById (snd (put CourseStore.fallback_store true "courses"
                    CourseStore.oak_park_renamed))
          true "courses" (VStr "course-1")
  = Normal (Some CourseStore.oak_park_renamed).
Proof.
  apply (getById_after_put CourseStore.fallback_store "courses"
           CourseStore.oak_park_renamed (VStr "course-1")); reflexivity.
Defined.

Lemma find_first_filter_self {A : Type} (f : A -> bool) (l : list A) :
  find_first f (List.filter (fun x => negb (f x)) l) = None.
Proof.
  induction l as [|a l IH]; cbn; [reflexivity|].
  destruct (f a) eqn:Hfa; cbn; [exact IH|]. rewrite Hfa. exact IH.
Qed.

Lemma find_first_filter_other {A : Type} (f g : A -> bool) (l : list A) :
  (forall x, g x = true -> f x = false) ->
  find_first g (List.filter (fun x => negb (f x)) l) = find_first g l.
Proof.
  intros Hfg. induction l as [|a l IH]; cbn; [reflexivity|].
  destruct (f a) eqn:Hfa; cbn.
  - destruct (g a) eqn:Hga; [|exact IH]. rewrite (Hfg a Hga) in Hfa. discriminate.
  - destruct (g a); [reflexivity|exact IH].
Qed.

(** X2. After a successful [delete] of an identifier, [getById] finds no
    record for it, and finds for every other identifier what it found
    before; on the fallback every record with the identifier goes. *)
Theorem getById_after_delete (st : Storage.t) (storeName : string) (id id' : value) :
  fst (delete st true storeName id) = Normal true ->
  getById (snd (delete st true storeName id)) true storeName id = Normal None
  /\ (id' <> id ->
      getById (snd (delete st true storeName id)) true storeName id'
      = getById st true storeName id').
Proof.
  unfold delete, getById. destruct (db st) as [d|] eqn:Hdb.
  - destruct (objectStores d !! storeName) as [os|] eqn:Hos; [|discriminate].
    destruct (valid_key (Some id)) as [k|] eqn:Hk; [|discriminate].
    intros _. cbn -[valid_key]. rewrite lookup_insert_eq. cbn -[valid_key].
    rewrite lookup_delete_eq.
    split; [reflexivity|]. intros Hne.
    destruct (valid_key (Some id')) as [k'|] eqn:Hk'; [|reflexivity].
    rewrite lookup_delete_ne; [reflexivity|].
    intros ->. apply Hne.
    destruct id as [| |z|s], id' as [| |z'|s']; cbn in *; congruence.
  - intros _. cbn. unfold get_items at 1 3, set_items. cbn.
    rewrite lookup_insert_eq. cbn. split.
    + f_equal. apply find_first_filter_self.
    + intros Hne. f_equal. apply find_first_filter_other.
      intros x Hx. apply bool_decide_eq_true in Hx.
      apply bool_decide_eq_false. congruence.
Qed.

Lemma getById_after_delete_witness :
  getById (snd (delete two_courses true "courses" (VStr "course-1")))
          true "courses" (VStr "course-1")
  = Normal None
  /\ getById (snd (delete two_courses true "courses" (VStr "course-1")))
             true "courses" (VStr "course-2")
     = getById two_courses true "courses" (VStr "course-2").
Proof.
  destruct (getById_after_delete two_courses "courses"
              (VStr "course-1") (VStr "course-2") eq_refl) as [H1 H2].
  split; [exact H1 | apply H2; discriminate].
Defined.

Lemma put_indexedDB (d : IDBDatabase) (ls : localStorage) (storeName : string)
    (os os' : ObjectStore) (item : obj) :
  objectStores d !! storeName = Some os ->
  store_put os item = Normal os' ->
  put (mk (Some d) ls) true storeName item
  = (Normal true, mk (Some (mkDB (<[storeName := os']> (objectStores d)))) ls).
Proof. intros Hos Hp. unfold put. cbn. rewrite Hos, Hp. reflexivity. Qed.

Lemma putMany_as_puts (items : list obj) :
  forall (d : IDBDatabase) (ls : localStorage) (storeName : string) (os : ObjectStore),
    objectStores d !! storeName = Some os ->
    Forall (fun item => is_Some (key_in os item)) items ->
    exists os',
      put_each os items = (Normal tt, os')
      /\ keyPath os' = keyPath os
      /\ fold_left (fun s item => snd (put s true storeName item)) items
                   (mk (Some d) ls)
         = mk (Some (mkDB (<[storeName := os']> (objectStores d)))) ls.
Proof.
  induction items as [|item r IH]; intros d ls storeName os Hos Hall;
    simpl put_each; simpl fold_left.
  - exists os. split; [reflexivity|]. split; [reflexivity|].
    rewrite insert_id by exact Hos. destruct d. reflexivity.
  - inversion Hall as [|? ? [k Hk] Hr]; subst.
    unfold key_in in Hk.
    assert (Hput : exists os1, store_put os item = Normal os1 /\ keyPath os1 = keyPath os).
    { unfold store_put. destruct (item !! keyPath os) as [v|] eqn:Hv; [|discriminate Hk].
      rewrite Hk. eexists; split; reflexivity. }
    destruct Hput as (os1 & Hp & Hkp). rewrite Hp.
    rewrite (put_indexedDB d ls storeName os os1 item Hos Hp). simpl snd.
    destruct (IH (mkDB (<[storeName := os1]> (objectStores d))) ls storeName os1)
      as (os' & He & Hkp' & Hf).
    + cbn. apply lookup_insert_eq.
    + unfold key_in. rewrite Hkp. exact Hr.
    + exists os'. split; [exact He|]. split; [congruence|].
      rewrite Hf. cbn. rewrite insert_insert_eq. reflexivity.
Qed.

(** X3. On the fallback [putMany] replaces the collection: whatever it
    held, [getAll] lists afterwards the items given, in their order, and
    the other collections are as before. *)
Theorem putMany_fallback_replaces (st : Storage.t) (ok ok' : bool)
    (storeName : string) (items : list obj) :
  db st = None ->
  fst (putMany st ok storeName items) = Normal true
  /\ getAll (snd (putMany st ok storeName items)) ok' storeName = Normal items
  /\ (forall other,
        CONFIG.storageKeys other <> CONFIG.storageKeys storeName ->
        getAll (snd (putMany st ok storeName items)) ok' other
        = getAll st ok' other).
Proof.
  intros Hdb. unfold putMany, getAll. rewrite Hdb. cbn.
  split; [reflexivity|]. unfold get_items, set_items. cbn. split.
  - rewrite lookup_insert_eq. reflexivity.
  - intros other Hne. rewrite lookup_insert_ne by congruence. reflexivity.
Qed.

Lemma putMany_fallback_replaces_witness :
  getAll (snd (putMany two_courses true "courses" [CourseStore.oak_park_renamed]))
         true "courses"
  = Normal [CourseStore.oak_park_renamed].
Proof.
  apply (putMany_fallback_replaces two_courses true true "courses"
           [CourseStore.oak_park_renamed] eq_refl).
Defined.

(** X4. On IndexedDB [putMany] whose transaction completes is the
    sequence of the [put]s of its items, when each item has a valid key
    on the key path of the object store: the records under other keys
    stay, where the fallback drops them. *)
Theorem putMany_indexedDB_puts (st : Storage.t) (d : IDBDatabase)
    (os : ObjectStore) (storeName : string) (items : list obj) :
  db st = Some d ->
  objectStores d !! storeName = Some os ->
  Forall (fun item => is_Some (key_in os item)) items ->
  putMany st true storeName items
  = (Normal true,
     fold_left (fun s item => snd (put s true storeName item)) items st).
Proof.
  intros Hdb Hos Hall. destruct st as [dbo ls]. cbn in Hdb. subst dbo.
  destruct (putMany_as_puts items d ls storeName os Hos Hall) as (os' & He & _ & Hf).
  unfold putMany. cbn. rewrite Hos, He, Hf. reflexivity.
Qed.

Lemma putMany_indexedDB_puts_witness :
  putMany indexed_course true "courses" [CourseStore.oak_park_renamed; second_course]
  = (Normal true,
     snd (put (snd (put indexed_course true "courses" CourseStore.oak_park_renamed))
              true "courses" second_course)).
Proof.
  apply (putMany_indexedDB_puts indexed_course created_database
           (mkStore "course_id" false 1 ∅) "courses"
           [CourseStore.oak_park_renamed; second_course]).
  - reflexivity.
  - reflexivity.
  - repeat constructor; eexists; reflexivity.
Defined.

(** X5. A successful [clear] leaves the collection empty and the other
    collections as they were; on the fallback the other collection must
    have a storage key of its own (the names that [CONFIG.storageKeys]
    does not know share one). *)
Theorem clear_empties_collection (st : Storage.t) (storeName other : string) :
  fst (clear st true storeName) = Normal true ->
  getAll (snd (clear st true storeName)) true storeName = Normal []
  /\ (other <> storeName ->
      CONFIG.storageKeys other <> CONFIG.storageKeys storeName ->
      getAll (snd (clear st true storeName)) true other = getAll st true other).
Proof.
  unfold clear, getAll. destruct (db st) as [d|] eqn:Hdb.
  - destruct (objectStores d !! storeName) as [os|] eqn:Hos; [|discriminate].
    intros _. cbn. rewrite lookup_insert_eq. cbn. split.
    + rewrite map_to_list_empty. reflexivity.
    + intros Hne _. rewrite lookup_insert_ne by congruence. reflexivity.
  - intros _. cbn. unfold get_items, set_items. cbn. split.
    + rewrite lookup_insert_eq. reflexivity.
    + intros _ Hne. rewrite lookup_insert_ne by congruence. reflexivity.
Qed.

Lemma clear_empties_collection_witness :
  getAll (snd (clear two_courses true "courses")) true "courses" = Normal [].
Proof.
  exact (proj1 (clear_empties_collection two_courses "courses" "holes" eq_refl)).
Defined.

Lemma delete_out_of_range {A : Type} (l : list A) (i : nat) :
  (length l <= i)%nat -> base.delete i l = l.
Proof.
  intros Hle. rewrite delete_take_drop, take_ge, drop_ge by lia.
  apply app_nil_r.
Qed.

Lemma getPendingSync_set (ls : localStorage) (q : list PendingOp) :
  getPendingSync (set_pendingSync ls q) = q.
Proof. reflexivity. Qed.

(** X6. [removePendingSync] undoes the last [addPendingSync]: with the
    index of the operation just queued (the length of the queue before),
    or with [-1], the queue is again what it was. *)
Theorem removePendingSync_after_add (ls : localStorage) (op : Operation)
    (now : string) (index : Z) :
  index = Z.of_nat (length (getPendingSync ls)) \/ index = -1 ->
  getPendingSync (removePendingSync (snd (addPendingSync ls op now)) index)
  = getPendingSync ls.
Proof.
  intros Hi. unfold removePendingSync, addPendingSync. cbn [snd].
  rewrite !getPendingSync_set. unfold splice_1. rewrite length_app. cbn [length].
  set (q := getPendingSync ls) in *.
  assert (Hstart : Z.to_nat (if index <? 0
                             then Z.max (Z.of_nat (length q + 1) + index) 0
                             else Z.min index (Z.of_nat (length q + 1)))
                   = length q).
  { destruct Hi as [-> | ->].
    - destruct (Z.ltb_spec (Z.of_nat (length q)) 0); lia.
    - cbn. lia. }
  rewrite Hstart. rewrite delete_middle. apply app_nil_r.
Qed.

Lemma removePendingSync_after_add_witness :
  getPendingSync
    (removePendingSync
       (snd (addPendingSync (Replay.enqueue_all empty_localStorage Replay.six_rounds)
                            (Replay.round_op "round-7") "t7")) (-1))
  = getPendingSync (Replay.enqueue_all empty_localStorage Replay.six_rounds).
Proof.
  apply (removePendingSync_after_add
           (Replay.enqueue_all empty_localStorage Replay.six_rounds)
           (Replay.round_op "round-7") "t7" (-1)).
  right. reflexivity.
Defined.

(** X7. Which operation [removePendingSync] removes: the one at the
    index when the index is in the queue; none when it is past the end;
    counted from the end when it is negative, and the first one when it
    is more negative than the queue is long. The rest keeps its order. *)
Theorem removePendingSync_position (ls : localStorage) (index : Z) :
  let q := getPendingSync ls in
  let n := Z.of_nat (length q) in
  getPendingSync (removePendingSync ls index)
  = if index <? - n then drop 1 q
    else if index <? 0 then
      take (Z.to_nat (n + index)) q ++ drop (S (Z.to_nat (n + index))) q
    else if index <? n then
      take (Z.to_nat index) q ++ drop (S (Z.to_nat index)) q
    else q.
Proof.
  intros q n. unfold removePendingSync. rewrite getPendingSync_set.
  fold q. unfold splice_1. fold n.
  destruct (Z.ltb_spec index (- n)) as [H1|H1].
  - assert ((index <? 0) = true) as -> by lia.
    replace (Z.max (n + index) 0) with 0 by lia.
    destruct q; reflexivity.
  - destruct (Z.ltb_spec index 0) as [H2|H2].
    + replace (Z.max (n + index) 0) with (n + index) by lia.
      apply delete_take_drop.
    + destruct (Z.ltb_spec index n) as [H3|H3].
      * replace (Z.min index n) with index by lia. apply delete_take_drop.
      * replace (Z.min index n) with n by lia.
        apply delete_out_of_range. subst n. lia.
Qed.

End StorageOpsFacts.

(** ** Texts and numbers *)

Module TextFacts.

Import Text.

Lemma append_cons (c : ascii) (r s : string) :
  String c r +:+ s = String c (r +:+ s).
Proof. reflexivity. Qed.

Lemma append_nil_r (s : string) : s +:+ "" = s.
Proof.
  induction s as [|c r IH]; [reflexivity | rewrite append_cons, IH; reflexivity].
Qed.

Lemma append_assoc (a b c : string) : (a +:+ b) +:+ c = a +:+ (b +:+ c).
Proof.
  induction a as [|x r IH]; [reflexivity | rewrite !append_cons, IH; reflexivity].
Qed.

Lemma rev_string_acc (a acc : string) :
  rev_string a acc = rev_string a "" +:+ acc.
Proof.
  revert acc. induction a as [|c r IH]; intros acc; cbn; [reflexivity|].
  rewrite (IH (String c acc)), (IH (String c "")), append_assoc. reflexivity.
Qed.

Lemma rev_string_app (a b acc : string) :
  rev_string (a +:+ b) acc = rev_string b (rev_string a acc).
Proof.
  revert acc. induction a as [|c r IH]; intros acc; [reflexivity|].
  rewrite append_cons. cbn. apply IH.
Qed.

Lemma rev_string_rev (a acc acc' : string) :
  rev_string (rev_string a acc) acc' = rev_string acc (a +:+ acc').
Proof.
  revert acc acc'. induction a as [|c r IH]; intros acc acc'; cbn; [reflexivity|].
  rewrite IH, append_cons. reflexivity.
Qed.

Lemma all_space_rev (a acc : string) :
  all_space (rev_string a acc) = all_space a && all_space acc.
Proof.
  revert acc. induction a as [|c r IH]; intros acc; cbn; [reflexivity|].
  rewrite IH. cbn. destruct (is_space c), (all_space r); reflexivity.
Qed.

Lemma skip_space_decomp (s : string) :
  exists sp, all_space sp = true /\ s = sp +:+ skip_space s.
Proof.
  induction s as [|c r (sp & Hsp & Hr)]; [exists ""; split; reflexivity|].
  cbn. destruct (is_space c) eqn:Hc.
  - exists (String c sp). cbn. rewrite Hc, Hsp. split; [reflexivity|].
    rewrite append_cons, <- Hr. reflexivity.
  - exists "". split; reflexivity.
Qed.

Lemma skip_space_head (s : string) (c : ascii) (r : string) :
  skip_space s = String c r -> is_space c = false.
Proof.
  induction s as [|x t IH]; cbn; [discriminate|].
  destruct (is_space x) eqn:Hx; [exact IH|]. intros [= <- _]. exact Hx.
Qed.

(** The text without the white space before it is the trimmed text
    followed by white space. *)
Lemma trim_decomp (s : string) :
  exists sp, all_space sp = true /\ skip_space s = trim s +:+ sp.
Proof.
  unfold trim. set (t := skip_space s).
  destruct (skip_space_decomp (rev_string t "")) as (sp' & Hsp' & Hr).
  exists (rev_string sp' ""). split.
  - rewrite all_space_rev, Hsp'. reflexivity.
  - rewrite <- rev_string_acc, <- rev_string_app, <- Hr.
    rewrite rev_string_rev. cbn. symmetry. apply append_nil_r.
Qed.

Lemma space_not_digit (c : ascii) : is_space c = true -> is_digit c = false.
Proof.
  destruct c as [[] [] [] [] [] [] [] []]; cbn; intros H;
    first [reflexivity | discriminate H].
Qed.

Lemma read_digits_app_space (u sp : string) (seen : bool) (acc : Z) :
  all_space sp = true -> read_digits (u +:+ sp) seen acc = read_digits u seen acc.
Proof.
  intros Hsp. revert seen acc. induction u as [|c r IH]; intros seen acc.
  - change ("" +:+ sp) with sp. destruct sp as [|c r]; [reflexivity|]. cbn in *.
    apply andb_true_iff in Hsp as [Hc _]. rewrite (space_not_digit c Hc). reflexivity.
  - rewrite append_cons. cbn. destruct (is_digit c); [apply IH | reflexivity].
Qed.

(** [parseInt] reads the same number in a text and in the trimmed text. *)
Lemma parseInt_trim (s : string) : parseInt (trim s) = parseInt s.
Proof.
  destruct (trim_decomp s) as (sp & Hsp & Ht). unfold parseInt. rewrite Ht.
  destruct (trim s) as [|c u] eqn:Hu.
  - change ("" +:+ sp) with sp in *. cbn [skip_space].
    destruct sp as [|c r]; [reflexivity|].
    apply skip_space_head in Ht. cbn in Hsp. rewrite Ht in Hsp. discriminate.
  - rewrite append_cons in *. pose proof (skip_space_head _ _ _ Ht) as Hc.
    cbn [skip_space]. rewrite Hc.
    pose proof (read_digits_app_space (String c u) sp false 0 Hsp) as Hall.
    pose proof (read_digits_app_space u sp false 0 Hsp) as Hrest.
    rewrite append_cons in Hall.
    destruct c as [[] [] [] [] [] [] [] []];
      first [ exact (eq_sym Hall) | rewrite Hrest; reflexivity ].
Qed.

Lemma pretty_N_char_digit (m : N) :
  (m < 10)%N ->
  is_digit (pretty_N_char m) = true /\ digit_value (pretty_N_char m) = Z.of_N m.
Proof.
  intros Hm.
  assert (H : (m = 0 \/ m = 1 \/ m = 2 \/ m = 3 \/ m = 4 \/ m = 5 \/ m = 6
               \/ m = 7 \/ m = 8 \/ m = 9)%N) by lia.
  repeat (destruct H as [-> | H]; [split; reflexivity|]). subst m. split; reflexivity.
Qed.

Lemma read_digits_pretty_N_go (x : N) :
  exists k : Z,
    0 <= k /\
    forall (s : string) (seen : bool) (a : Z),
      read_digits (pretty_N_go x s) seen a
      = read_digits s (if decide (x = 0%N) then seen else true)
                    (a * 10 ^ k + Z.of_N x).
Proof.
  induction x as [x IH] using (well_founded_induction N.lt_wf_0).
  destruct (decide (x = 0%N)) as [->|Hx].
  - exists 0. split; [lia|]. intros s seen a. rewrite pretty_N_go_0.
    cbn. f_equal. lia.
  - destruct (IH (x `div` 10)%N) as (k & Hk & Hread).
    { apply N.div_lt; lia. }
    exists (k + 1). split; [lia|]. intros s seen a.
    rewrite pretty_N_go_step by lia. rewrite Hread.
    destruct (pretty_N_char_digit (x `mod` 10)%N) as [Hd Hv].
    { apply N.mod_lt. lia. }
    cbn [read_digits]. rewrite Hd, Hv. f_equal.
    rewrite Z.pow_add_r by lia.
    pose proof (N.div_mod x 10 ltac:(lia)) as Hdm.
    lia.
Qed.

Lemma pretty_N_go_head (x : N) (s : string) :
  (0 < x)%N ->
  exists c r, pretty_N_go x s = String c r /\ is_digit c = true.
Proof.
  revert s. induction x as [x IH] using (well_founded_induction N.lt_wf_0).
  intros s Hx. rewrite pretty_N_go_step by exact Hx.
  destruct (decide (x `div` 10 = 0)%N) as [H0|H0].
  - rewrite H0, pretty_N_go_0. eexists _, _. split; [reflexivity|].
    apply pretty_N_char_digit. apply N.mod_lt. lia.
  - apply IH.
    + apply N.div_lt; lia.
    + apply N.neq_0_lt_0. exact H0.
Qed.

Lemma parseInt_digits (c : ascii) (r : string) :
  is_digit c = true -> parseInt (String c r) = read_digits (String c r) false 0.
Proof.
  destruct c as [[] [] [] [] [] [] [] []]; cbn; intros H;
    first [reflexivity | discriminate H].
Qed.

Lemma parseInt_pretty_pos (p : positive) : parseInt (pretty (Npos p)) = Num (Zpos p).
Proof.
  unfold pretty, pretty_N. destruct (decide (N.pos p = 0%N)) as [H|_]; [discriminate H|].
  destruct (pretty_N_go_head (N.pos p) "" ltac:(lia)) as (c & r & Hs & Hc).
  destruct (read_digits_pretty_N_go (N.pos p)) as (k & Hk & Hread).
  rewrite Hs, (parseInt_digits c r Hc), <- Hs, Hread.
  destruct (decide (N.pos p = 0%N)) as [H|_]; [discriminate H|].
  cbn. reflexivity.
Qed.

Lemma parseInt_minus (r : string) :
  parseInt (String "-" r) = neg (read_digits r false 0).
Proof. reflexivity. Qed.

(** [parseInt] reads back the decimal notation of an integer. *)
Lemma parseInt_pretty (z : Z) : parseInt (pretty z) = Num z.
Proof.
  destruct z as [|p|p].
  - reflexivity.
  - apply parseInt_pretty_pos.
  - change (pretty (Z.neg p)) with (String "-" (pretty (N.pos p))).
    rewrite parseInt_minus.
    pose proof (parseInt_pretty_pos p) as Hp.
    unfold pretty, pretty_N in *.
    destruct (decide (N.pos p = 0%N)) as [H|_]; [discriminate H|].
    destruct (pretty_N_go_head (N.pos p) "" ltac:(lia)) as (c & r & Hs & Hc).
    rewrite Hs in *. rewrite (parseInt_digits c r Hc) in Hp.
    rewrite Hp. reflexivity.
Qed.

End TextFacts.

(** ** The round session: safety and resumption *)

Module PlayFacts.

Import App Session Play TextFacts.
Local Open Scope app_scope.

Lemma array_get_in_range {A : Type} (l : list A) (i : Z) :
  0 <= i < Z.of_nat (length l) -> exists x, array_get l i = Some x.
Proof.
  intros Hi. unfold array_get.
  destruct (Z.ltb_spec i 0) as [H|H]; [lia|].
  apply lookup_lt_is_Some_2. lia.
Qed.

Lemma length_insert_hole (h : Hole.t) (l : list Hole.t) :
  length (insert_hole h l) = S (length l).
Proof.
  induction l as [|x r IH]; cbn; [reflexivity|].
  destruct (Hole.hole_number h <=? Hole.hole_number x); cbn; [reflexivity|].
  rewrite IH. reflexivity.
Qed.

Lemma length_sort_holes (l : list Hole.t) : length (sort_holes l) = length l.
Proof.
  induction l as [|x r IH]; cbn; [reflexivity|].
  rewrite length_insert_hole. unfold sort_holes in IH. rewrite IH. reflexivity.
Qed.

Lemma safe_bind (m : M unit) (k : M unit) :
  safe m -> safe k -> safe (m ;;; k).
Proof.
  intros Hm Hk w Hw. unfold bind.
  destruct (Hm w Hw) as [H1 H2]. destruct (m w) as [[[]|e] w']; cbn in *.
  - apply Hk. exact H2.
  - discriminate.
Qed.

Lemma safe_ret : safe (ret tt).
Proof. intros w Hw. split; [reflexivity | exact Hw]. Qed.

Lemma safe_emit (e : UiEvent) : safe (emit e).
Proof. intros w Hw. split; [reflexivity | exact Hw]. Qed.

Lemma snapshot_resumable (ls : Storage.localStorage) (round snap : Round.t) :
  Round.holeCount round = Z.of_nat (length (Round.holes round)) ->
  0 <= Round.currentHoleIndex round < Round.holeCount round ->
  Storage.getCurrentRound (Storage.saveCurrentRound ls round) = Some snap ->
  Round.holeCount snap = Z.of_nat (length (Round.holes snap))
  /\ 0 <= Round.currentHoleIndex snap < Round.holeCount snap.
Proof.
  intros Hc Hi [= <-]. cbn. rewrite length_map. split; [exact Hc | exact Hi].
Qed.

Lemma safe_saveCurrentRoundState : safe saveCurrentRoundState.
Proof.
  intros w (round & Hr & Hc & Hi & Hx & Hs). unfold saveCurrentRoundState.
  rewrite Hr. cbn. split; [reflexivity|].
  exists round. split; [reflexivity|]. split; [exact Hc|]. split; [exact Hi|].
  split; [exact Hx|]. intros snap. apply snapshot_resumable; [exact Hc | lia].
Qed.

Lemma safe_render : safe do_renderScoringScreen.
Proof.
  intros w Hw. pose proof Hw as (round & Hr & Hc & Hi & Hx & Hs).
  unfold do_renderScoringScreen. rewrite Hr.
  destruct (array_get_in_range (Round.holes round) (currentHoleIndex w)) as [h Hh];
    [lia|].
  rewrite Hh. apply safe_emit. exact Hw.
Qed.

Lemma safe_saveCurrentHoleScore (env : Env) : safe (saveCurrentHoleScore env).
Proof.
  intros w (round & Hr & Hc & Hi & Hx & Hs). unfold saveCurrentHoleScore.
  rewrite Hr.
  destruct (array_get_in_range (Round.holes round) (currentHoleIndex w)) as [h Hh];
    [lia|].
  rewrite Hh. cbn. split; [reflexivity|].
  eexists. split; [reflexivity|]. cbn.
  split; [|split; [exact Hi|]; split; [exact Hx | exact Hs]].
  destruct (Round.isNewCourse round); [rewrite length_insert|]; exact Hc.
Qed.

(** The move to the hole at [i], for an index on the course. *)
Lemma safe_move (i : Z) (w : t) (round : Round.t) :
  playable w -> currentRound w = Some round -> 0 <= i < Round.holeCount round ->
  fst ((set_index i ;;; saveCurrentRoundState ;;; do_renderScoringScreen) w) = Normal tt
  /\ playable (snd ((set_index i ;;; saveCurrentRoundState ;;; do_renderScoringScreen) w)).
Proof.
  intros (round' & Hr & Hc & Hi & Hx & Hs) Hr' Hin.
  assert (round' = round) as -> by congruence.
  assert (Hp : playable (snd (set_index i w))).
  { unfold set_index. cbn. rewrite Hr. cbn. eexists. split; [reflexivity|]. cbn.
    split; [exact Hc|]. split; [exact Hin|]. split; [reflexivity | exact Hs]. }
  unfold bind at 1. cbn [set_index].
  change (set_index i w) with (Normal tt, snd (set_index i w)).
  cbv beta iota.
  apply (safe_bind saveCurrentRoundState do_renderScoringScreen
           safe_saveCurrentRoundState safe_render). exact Hp.
Qed.

Lemma safe_finishRound : safe finishRound.
Proof.
  intros w (round & Hr & Hc & Hi & Hx & Hs). unfold finishRound. rewrite Hr.
  apply (safe_bind saveCurrentRoundState _ safe_saveCurrentRoundState
           (safe_bind _ _ (safe_emit _) (safe_emit _))).
  eexists. split; [reflexivity|]. cbn.
  split; [exact Hc|]. split; [exact Hi|]. split; [exact Hx | exact Hs].
Qed.

Lemma safe_navigateHole (env : Env) (direction : Z) : safe (navigateHole env direction).
Proof.
  unfold navigateHole.
  destruct ((0 <? direction)
            && negb (isValid (validateScoreEntry (score_entry (dom env)))));
    [apply safe_emit|].
  apply safe_bind; [destruct (0 <? direction); [apply safe_emit | apply safe_ret]|].
  apply safe_bind; [apply safe_saveCurrentHoleScore|].
  intros w Hw. pose proof Hw as (round & Hr & Hc & Hi & Hx & Hs). rewrite Hr.
  destruct ((0 <=? currentHoleIndex w + direction)
            && (currentHoleIndex w + direction <? Round.holeCount round)) eqn:Hin.
  - apply (safe_move _ w round Hw Hr).
    apply andb_true_iff in Hin. lia.
  - split; [reflexivity | exact Hw].
Qed.

Lemma safe_handleSaveHole (env : Env) : safe (handleSaveHole env).
Proof.
  unfold handleSaveHole.
  destruct (negb (isValid (validateScoreEntry (score_entry (dom env)))));
    [apply safe_emit|].
  apply safe_bind; [apply safe_emit|].
  apply safe_bind; [apply safe_saveCurrentHoleScore|].
  intros w Hw. pose proof Hw as (round & Hr & Hc & Hi & Hx & Hs). rewrite Hr.
  destruct (Z.eqb_spec (currentHoleIndex w) (Round.holeCount round - 1)) as [He|He].
  - apply safe_finishRound. exact Hw.
  - apply (safe_move _ w round Hw Hr). lia.
Qed.

Lemma safe_handleBack : safe handleBack.
Proof. apply safe_bind; [apply safe_saveCurrentRoundState | apply safe_emit]. Qed.

Lemma safe_handleResumeRound : safe handleResumeRound.
Proof.
  intros w Hw. pose proof Hw as (round & Hr & Hc & Hi & Hx & Hs).
  unfold handleResumeRound.
  destruct (Storage.getCurrentRound (storage w)) as [saved|] eqn:Hsaved;
    [|split; [reflexivity | exact Hw]].
  destruct (Hs saved eq_refl) as [Hc' Hi'].
  apply (safe_bind _ _ (safe_emit _) safe_render).
  eexists. split; [reflexivity|]. cbn.
  rewrite length_sort_holes, Hsaved.
  split; [exact Hc'|]. split; [exact Hi'|]. split; [reflexivity|].
  intros snap [= <-]. split; [exact Hc' | exact Hi'].
Qed.

Lemma safe_step (a : Action) : safe (step a).
Proof.
  destruct a; cbn.
  - apply safe_navigateHole.
  - apply safe_handleSaveHole.
  - apply safe_handleBack.
  - apply safe_handleResumeRound.
Qed.

Lemma playable_start (round : Round.t) (ls : Storage.localStorage) :
  Round.holeCount round = Z.of_nat (length (Round.holes round)) ->
  0 < Round.holeCount round ->
  Round.currentHoleIndex round = 0 ->
  playable (start round ls).
Proof.
  intros Hc Hpos Hx. exists round. unfold start. cbn.
  split; [reflexivity|]. split; [exact Hc|]. split; [lia|]. split; [exact Hx|].
  intros snap. apply (snapshot_resumable ls round snap Hc). lia.
Qed.

Lemma playable_run (actions : list Action) (w : t) :
  playable w -> playable (run actions w).
Proof.
  revert w. induction actions as [|a r IH]; intros w Hw; cbn; [exact Hw|].
  apply IH. apply safe_step. exact Hw.
Qed.

(** X8. In a round that has as many holes as its [holeCount] says (at
    least one), whatever the sequence of calls of [navigateHole],
    [handleSaveHole], [handleBack] and [handleResumeRound], with whatever
    form values and directions: no call throws, the active index stays
    on the course and is the one kept in the round, and the snapshot can
    be resumed. *)
Theorem handlers_never_throw (round : Round.t) (ls : Storage.localStorage)
    (actions : list Action) (a : Action) :
  Round.holeCount round = Z.of_nat (length (Round.holes round)) ->
  0 < Round.holeCount round ->
  Round.currentHoleIndex round = 0 ->
  playable (run actions (start round ls))
  /\ fst (step a (run actions (start round ls))) = Normal tt.
Proof.
  intros Hc Hpos Hx.
  assert (Hp : playable (run actions (start round ls))).
  { apply playable_run. apply playable_start; assumption. }
  split; [exact Hp|]. apply safe_step. exact Hp.
Qed.

Lemma handlers_never_throw_witness :
  playable (run [HandleSaveHole (form "3" "" "" "score-1"); HandleBack]
                (start three_hole_round Storage.empty_localStorage))
  /\ fst (step HandleResumeRound
               (run [HandleSaveHole (form "3" "" "" "score-1"); HandleBack]
                    (start three_hole_round Storage.empty_localStorage)))
     = Normal tt.
Proof.
  apply (handlers_never_throw three_hole_round Storage.empty_localStorage
           [HandleSaveHole (form "3" "" "" "score-1"); HandleBack] HandleResumeRound).
  - reflexivity.
  - reflexivity.
  - reflexivity.
Defined.

(** *** Leaving a round and resuming it *)

Lemma insert_hole_head (h : Hole.t) (l : list Hole.t) :
  match l with
  | [] => True
  | x :: _ => Hole.hole_number h <= Hole.hole_number x
  end ->
  insert_hole h l = h :: l.
Proof.
  destruct l as [|x r]; cbn; [reflexivity|]. intros Hle.
  destruct (Z.leb_spec (Hole.hole_number h) (Hole.hole_number x)); [reflexivity | lia].
Qed.

Lemma sort_holes_ascending (l : list Hole.t) : ascending l -> sort_holes l = l.
Proof.
  induction l as [|h r IH]; [reflexivity|]. intros [Hh Hr].
  change (sort_holes (h :: r)) with (insert_hole h (sort_holes r)).
  rewrite (IH Hr). apply insert_hole_head. exact Hh.
Qed.

Lemma ascending_json (l : list Hole.t) : ascending l -> ascending (map json_hole l).
Proof.
  induction l as [|h r IH]; [exact id|]. intros [Hh Hr]. split; [|exact (IH Hr)].
  destruct r as [|h' r']; [exact I | exact Hh].
Qed.

(** X9. Leaving the scoring screen and resuming gives back the round
    that was left, at its hole, when its holes are in the order of their
    numbers: what [handleResumeRound] puts in the state is what the JSON
    text of the snapshot holds, that is the round with [NaN] written as
    [null]; the sort of the holes changes nothing. *)
Theorem resume_restores_round (w : t) (round : Round.t) :
  currentRound w = Some round ->
  Round.currentHoleIndex round = currentHoleIndex w ->
  ascending (Round.holes round) ->
  currentRound (run [HandleBack; HandleResumeRound] w) = Some (json_round round)
  /\ currentHoleIndex (run [HandleBack; HandleResumeRound] w) = currentHoleIndex w
  /\ Storage.getCurrentRound (storage (run [HandleBack; HandleResumeRound] w))
     = Some (json_round round).
Proof.
  intros Hr Hx Hasc. cbn [run step].
  assert (Hback : snd (handleBack w)
                  = mk (Some round) (currentHoleIndex w)
                       (Storage.saveCurrentRound (storage w) round)
                       (ui w ++ [showScreen "home"])).
  { unfold handleBack, bind, saveCurrentRoundState. rewrite Hr. reflexivity. }
  rewrite Hback. unfold handleResumeRound. cbn [storage Storage.getCurrentRound
    Storage.saveCurrentRound Storage.ls_currentRound].
  assert (Hsort : Round.with_holes (json_round round)
                    (sort_holes (Round.holes (json_round round)))
                  = json_round round).
  { cbn [json_round Round.holes Round.with_holes Round.with_scores].
    rewrite sort_holes_ascending by (apply ascending_json; exact Hasc).
    reflexivity. }
  rewrite Hsort.
  unfold bind, emit, do_renderScoringScreen. cbn.
  destruct (array_get _ _); cbn; rewrite Hx; repeat split; reflexivity.
Qed.

Lemma resume_restores_round_witness :
  currentRound (run [HandleBack; HandleResumeRound] at_second_hole)
  = currentRound at_second_hole.
Proof.
  apply (resume_restores_round at_second_hole
           second_hole_round).
  - reflexivity.
  - reflexivity.
  - cbn. lia.
Defined.

(** Abandoning the round removes the snapshot and the round of the
    state: [handleResumeRound] then does nothing, and the collections
    and the pending queue are as they were. *)
Lemma abandoned_round_not_resumable (w : t) :
  currentRound (snd (handleAbandonRound w)) = None
  /\ Storage.getCurrentRound (storage (snd (handleAbandonRound w))) = None
  /\ handleResumeRound (snd (handleAbandonRound w))
     = (Normal tt, snd (handleAbandonRound w))
  /\ Storage.ls_items (storage (snd (handleAbandonRound w)))
     = Storage.ls_items (storage w)
  /\ Storage.getPendingSync (storage (snd (handleAbandonRound w)))
     = Storage.getPendingSync (storage w).
Proof. repeat split. Qed.

(** *** What a valid submission stores *)

Lemma optional_number_stored (text : string) :
  (String.eqb (trim text) "" || in_range 0 19 (parseInt (trim text))) = true ->
  stored_for text (optional_number text).
Proof.
  intros Hv. unfold optional_number.
  destruct (truthy_string text) eqn:Ht.
  - assert (Hne : text <> "") by (intros ->; discriminate Ht).
    rewrite <- (parseInt_trim text).
    destruct (parseInt (trim text)) as [|a] eqn:Hp; cbn.
    + split; [exact Hne|]. cbn in Hv. rewrite orb_false_r in Hv.
      apply String.eqb_eq. exact Hv.
    + split; [exact Hp|].
      destruct (String.eqb_spec (trim text) "") as [He|He].
      * rewrite He in Hp. discriminate Hp.
      * cbn in Hv. lia.
  - destruct text; [reflexivity | discriminate Ht].
Qed.

Lemma optional_number_Num (text : string) (a : Z) :
  optional_number text = Some (Num a) ->
  parseInt (trim text) = Num a /\ String.eqb (trim text) "" = false.
Proof.
  unfold optional_number. destruct (truthy_string text); [|discriminate].
  intros [= Hp]. rewrite <- (parseInt_trim text) in Hp. split; [exact Hp|].
  apply (ValidationFacts.parsed_not_empty _ a Hp).
Qed.

(** The values that [saveCurrentHoleScore] reads in a form that
    [validateScoreEntry] accepts. *)
Lemma valid_values (i : ScoreInputs) :
  isValid (validateScoreEntry i) = true ->
  exists t,
    parseInt (score_throws i) = Num t /\ 1 <= t <= 20
    /\ stored_for (score_approaches i) (optional_number (score_approaches i))
    /\ stored_for (score_putts i) (optional_number (score_putts i))
    /\ (forall a p,
          optional_number (score_approaches i) = Some (Num a) ->
          optional_number (score_putts i) = Some (Num p) ->
          a + p <= t - 1).
Proof.
  rewrite ValidationFacts.isValid_accepted. unfold accepted.
  intros Hv. apply andb_true_iff in Hv as [Hf Hc].
  apply andb_true_iff in Hf as [Hf Hp]. apply andb_true_iff in Hf as [Ht Ha].
  destruct (parseInt (score_throws i)) as [|t] eqn:Hthrows; [discriminate Ht|].
  exists t. split; [reflexivity|]. split; [cbn in Ht; lia|].
  split; [apply optional_number_stored; exact Ha|].
  split; [apply optional_number_stored; exact Hp|].
  intros a p Hoa Hop.
  apply optional_number_Num in Hoa as [Hpa Hna].
  apply optional_number_Num in Hop as [Hpp Hnp].
  rewrite Hna, Hnp, Hpa, Hpp in Hc. cbn in Hc. lia.
Qed.

(** [handleSaveHole] on a form that passes the validation: the entry is
    saved, then the round is finished or the next hole is shown. *)
Lemma handleSaveHole_after_save (env : Env) (w : t) (round : Round.t) (hole : Hole.t) :
  isValid (validateScoreEntry (score_entry (dom env))) = true ->
  currentRound w = Some round ->
  array_get (Round.holes round) (currentHoleIndex w) = Some hole ->
  exists r1 d,
    Round.scores r1 = update_or_add (currentHoleIndex w) d (Round.scores round)
    /\ entered env (currentHoleIndex w) d
    /\ handleSaveHole env w
       = (if currentHoleIndex w =? Round.holeCount round - 1 then finishRound
          else (set_index (currentHoleIndex w + 1) ;;;
                saveCurrentRoundState ;;;
                do_renderScoringScreen))
           (mk (Some r1) (currentHoleIndex w) (storage w)
               (ui w ++ [clearValidationErrors])).
Proof.
  intros Hv Hr Hh.
  set (w1 := mk (currentRound w) (currentHoleIndex w) (storage w)
                (ui w ++ [clearValidationErrors])).
  destruct (SessionClaims.saveCurrentHoleScore_ok env w1 round hole Hr Hh)
    as (r1 & Hsave & Hcount & _ & _ & d & Hsc & Hent).
  exists r1, d. split; [exact Hsc|]. split; [exact Hent|].
  unfold handleSaveHole. rewrite Hv. cbn [negb].
  unfold bind at 1. change (emit clearValidationErrors w) with (Normal tt, w1).
  cbv beta iota. unfold bind at 1. rewrite Hsave. cbv beta iota.
  cbn [currentRound currentHoleIndex w1]. rewrite Hcount.
  destruct (currentHoleIndex w =? Round.holeCount round - 1); reflexivity.
Qed.

(** X10. A submission that passes the validation is stored as validated:
    the entry of the hole holds the throws read in the form, between 1
    and 20; for each sub-value [null] when its text is empty, [NaN] when
    its text is white space only, and else the number between 0 and 19
    that the validation read in the trimmed text; two numeric sub-values
    add up to at most the throws minus 1. The snapshot is saved with the
    entry, and the session is on the next hole, or finished on the last
    one. *)
Theorem valid_entry_saved (env : Env) (w : t) (round : Round.t) :
  playable w ->
  currentRound w = Some round ->
  isValid (validateScoreEntry (score_entry (dom env))) = true ->
  exists round' e t,
    fst (handleSaveHole env w) = Normal tt
    /\ currentRound (snd (handleSaveHole env w)) = Some round'
    /\ Storage.getCurrentRound (storage (snd (handleSaveHole env w)))
       = Some (json_round round')
    /\ In e (Round.scores round')
    /\ Score.hole_number e = currentHoleIndex w + 1
    /\ Score.throws e = Some (Num t)
    /\ parseInt (score_throws (score_entry (dom env))) = Num t
    /\ 1 <= t <= 20
    /\ stored_for (score_approaches (score_entry (dom env))) (Score.approaches e)
    /\ stored_for (score_putts (score_entry (dom env))) (Score.putts e)
    /\ (forall a p,
          Score.approaches e = Some (Num a) -> Score.putts e = Some (Num p) ->
          a + p <= t - 1)
    /\ (if currentHoleIndex w =? Round.holeCount round - 1
        then Round.completed round' = true
             /\ currentHoleIndex (snd (handleSaveHole env w)) = currentHoleIndex w
        else currentHoleIndex (snd (handleSaveHole env w)) = currentHoleIndex w + 1).
Proof.
  intros Hw Hr Hv.
  destruct (safe_handleSaveHole env w Hw) as [Hok _].
  pose proof Hw as (round0 & Hr0 & Hc & Hi & _).
  assert (round0 = round) as -> by congruence.
  destruct (array_get_in_range (Round.holes round) (currentHoleIndex w)) as [hole Hh];
    [lia|].
  destruct (handleSaveHole_after_save env w round hole Hv Hr Hh)
    as (r1 & d & Hsc & Hent & Hrun).
  destruct (SessionClaims.entered_update_or_add env (currentHoleIndex w) d
              (Round.scores round) Hent) as (e & Hin & He1 & He2 & He3 & He4).
  destruct (valid_values _ Hv) as (t & Ht & Hrange & Ha & Hp & Hcons).
  rewrite <- Hsc in Hin.
  assert (Hthrows : Score.throws e = Some (Num t)).
  { rewrite He2, Ht. cbn. destruct (Z.eqb_spec t 0); [lia | reflexivity]. }
  rewrite <- He3 in Ha. rewrite <- He4 in Hp.
  assert (Hsum : forall a p, Score.approaches e = Some (Num a) ->
                             Score.putts e = Some (Num p) -> a + p <= t - 1).
  { intros a p Hea Hep. apply Hcons; congruence. }
  rewrite Hrun in *.
  destruct (currentHoleIndex w =? Round.holeCount round - 1).
  - eexists _, e, t. split; [exact Hok|].
    unfold finishRound, bind, saveCurrentRoundState, emit. cbn.
    split; [reflexivity|]. split; [reflexivity|]. cbn.
    repeat (split; [assumption|]). split; reflexivity.
  - eexists (Round.with_currentHoleIndex r1 (currentHoleIndex w + 1)), e, t.
    split; [exact Hok|].
    unfold set_index, bind, saveCurrentRoundState, do_renderScoringScreen, emit. cbn.
    destruct (array_get (Round.holes r1) _); cbn;
      (split; [reflexivity|]); (split; [reflexivity|]);
      repeat (split; [assumption|]); reflexivity.
Qed.

Lemma valid_entry_saved_witness :
  exists round' e t,
    fst (handleSaveHole (form "4" " " "2" "score-2") at_second_hole) = Normal tt
    /\ currentRound (snd (handleSaveHole (form "4" " " "2" "score-2") at_second_hole))
       = Some round'
    /\ In e (Round.scores round')
    /\ Score.hole_number e = 2
    /\ Score.throws e = Some (Num t)
    /\ stored_for " " (Score.approaches e)
    /\ stored_for "2" (Score.putts e).
Proof.
  destruct (valid_entry_saved (form "4" " " "2" "score-2") at_second_hole
              second_hole_round)
    as (round' & e & t & H1 & H2 & _ & H3 & H4 & H5 & _ & _ & H6 & H7 & _).
  - exists second_hole_round. split; [reflexivity|]. split; [reflexivity|].
    split; [change (0 <= 1 < 3); lia|]. split; [reflexivity|].
    intros snap [= <-]. split; [reflexivity | change (0 <= 1 < 3); lia].
  - reflexivity.
  - reflexivity.
  - exists round', e, t. repeat (split; [assumption|]). assumption.
Defined.

(** X11. The warning of [validateScoreDetails] covers the consistency
    error of [validateScoreEntry]: it is shown whenever the validation
    reports that error. It is not the same check: one sub-value alone
    that exceeds the throws minus 1 passes the validation and shows the
    warning. *)
Theorem warning_covers_consistency (i : ScoreInputs) :
  (In consistency_error (errors (validateScoreEntry i)) ->
   validateScoreDetails i = true)
  /\ (forall t a,
        1 <= t <= 20 -> t - 1 < a <= 19 ->
        isValid (validateScoreEntry (mkInputs (pretty t) (pretty a) "")) = true
        /\ validateScoreDetails (mkInputs (pretty t) (pretty a) "") = true).
Proof.
  split.
  - intros Hin.
    destruct (ValidationFacts.consistency_only_after_fields i Hin)
      as (Herr & Hna & Hnp & Ht & Ha & Hp).
    assert (Hinvalid : accepted i = false).
    { rewrite <- ValidationFacts.isValid_accepted.
      destruct (isValid (validateScoreEntry i)) eqn:Hv; [|reflexivity].
      apply ValidationFacts.isValid_iff_no_error in Hv. congruence. }
    pose proof (ValidationFacts.check_throws_nil (parseInt (score_throws i))) as Ht'.
    pose proof (ValidationFacts.check_optional_nil "approaches" "Approaches"
                  (trim (score_approaches i))) as Ha'.
    pose proof (ValidationFacts.check_optional_nil "putts" "Putts"
                  (trim (score_putts i))) as Hp'.
    rewrite Ht in Ht'. rewrite Ha in Ha'. rewrite Hp in Hp'. cbn in Ht', Ha', Hp'.
    apply String.eqb_neq in Hna, Hnp.
    unfold accepted in Hinvalid.
    rewrite <- Ht', <- Ha', <- Hp', Hna, Hnp in Hinvalid. cbn in Hinvalid.
    rewrite Hna in Ha'. rewrite Hnp in Hp'. cbn in Ha', Hp'.
    unfold validateScoreDetails.
    rewrite <- (parseInt_trim (score_approaches i)), <- (parseInt_trim (score_putts i)).
    destruct (parseInt (score_throws i)) as [|t]; [discriminate Ht'|].
    destruct (parseInt (trim (score_approaches i))) as [|a]; [discriminate Ha'|].
    destruct (parseInt (trim (score_putts i))) as [|p]; [discriminate Hp'|].
    cbn in *.
    destruct (Z.eqb_spec t 0), (Z.eqb_spec a 0), (Z.eqb_spec p 0); lia.
  - intros t a Ht Ha. rewrite ValidationFacts.isValid_accepted.
    unfold accepted, validateScoreDetails. cbn [score_throws score_approaches score_putts].
    rewrite parseInt_trim, !parseInt_pretty.
    change (trim "") with "". change (parseInt "") with NaN. cbn.
    rewrite andb_false_r.
    destruct (String.eqb (trim (pretty a)) ""), (Z.eqb_spec t 0), (Z.eqb_spec a 0);
      cbn; split; lia.
Qed.

Lemma warning_covers_consistency_witness :
  validateScoreDetails (mkInputs "3" "2" "1") = true.
Proof.
  apply (warning_covers_consistency (mkInputs "3" "2" "1")).
  left. reflexivity.
Defined.

(** *** The totals of a round *)

Lemma calculateRunningTotal_from (scores : list Score.t) (holes : list Hole.t)
    (a b : Z) :
  fold_left
    (fun '(totalScore, totalPar) score =>
       let hole := find (fun h => bool_decide (Hole.hole_id h = Score.hole_id score))
                        holes in
       (totalScore + Statistics.throws_or_0 (Score.throws score),
        totalPar + match hole with Some h => Hole.par h | None => 3 end))
    scores (a, b)
  = (a + sum (map (fun s => Statistics.throws_or_0 (Score.throws s)) scores),
     b + sum (map (par_of holes) (map Score.hole_id scores))).
Proof.
  unfold sum. revert a b. induction scores as [|s r IH]; intros a b; cbn.
  - rewrite !Z.add_0_r. reflexivity.
  - rewrite IH. unfold par_of. rewrite !Z.add_assoc. reflexivity.
Qed.

Lemma sum_Permutation (l l' : list Z) : Permutation l l' -> sum l = sum l'.
Proof.
  induction 1; cbn; try lia. unfold sum in *. cbn. lia.
Qed.

Lemma par_of_hole (holes : list Hole.t) (h : Hole.t) :
  NoDup (map Hole.hole_id holes) -> In h holes ->
  par_of holes (Hole.hole_id h) = Hole.par h.
Proof.
  unfold par_of. induction holes as [|x r IH]; cbn; [intros _ []|].
  intros Hnd [-> | Hin].
  - rewrite bool_decide_eq_true_2 by reflexivity. reflexivity.
  - apply NoDup_cons in Hnd as [Hx Hr].
    destruct (bool_decide_reflect (Hole.hole_id x = Hole.hole_id h)) as [He|He].
    + exfalso. apply Hx. rewrite He. apply list_elem_of_In, in_map, Hin.
    + apply IH; assumption.
Qed.

Lemma sum_par_of_holes (holes : list Hole.t) (l : list Hole.t) :
  NoDup (map Hole.hole_id holes) -> (forall h, In h l -> In h holes) ->
  sum (map (par_of holes) (map Hole.hole_id l)) = sum (map Hole.par l).
Proof.
  intros Hnd. induction l as [|h r IH]; intros Hsub; cbn; [reflexivity|].
  unfold sum in *. cbn. rewrite IH by (intros; apply Hsub; right; assumption).
  rewrite (par_of_hole holes h Hnd) by (apply Hsub; left; reflexivity).
  reflexivity.
Qed.

(** X12. The totals that [finishRound] keeps: the total score is the sum
    of the throws of the entries ([NaN] and [null] counting 0) and the
    total par the sum, over the entries, of the par of the hole of each
    (3 for an unknown hole); the order of the entries does not matter;
    and when the holes have distinct identifiers and each has exactly
    one entry, the total par is the par of the course. *)
Theorem running_totals (scores : list Score.t) (holes : list Hole.t) :
  Statistics.calculateRunningTotal scores holes
  = (sum (map (fun s => Statistics.throws_or_0 (Score.throws s)) scores),
     sum (map (par_of holes) (map Score.hole_id scores)))
  /\ (forall scores',
        Permutation scores scores' ->
        Statistics.calculateRunningTotal scores' holes
        = Statistics.calculateRunningTotal scores holes)
  /\ (NoDup (map Hole.hole_id holes) ->
      Permutation (map Score.hole_id scores) (map Hole.hole_id holes) ->
      snd (Statistics.calculateRunningTotal scores holes) = sum (map Hole.par holes)).
Proof.
  assert (Heq : forall l, Statistics.calculateRunningTotal l holes
                = (sum (map (fun s => Statistics.throws_or_0 (Score.throws s)) l),
                   sum (map (par_of holes) (map Score.hole_id l)))).
  { intros l. unfold Statistics.calculateRunningTotal.
    rewrite calculateRunningTotal_from. reflexivity. }
  split; [apply Heq|]. split.
  - intros scores' Hperm. rewrite !Heq. f_equal; apply sum_Permutation.
    + apply Permutation_map. symmetry. exact Hperm.
    + apply Permutation_map, Permutation_map. symmetry. exact Hperm.
  - intros Hnd Hperm. rewrite Heq. cbn [snd].
    rewrite (sum_Permutation _ _ (Permutation_map (par_of holes) Hperm)).
    apply sum_par_of_holes; [exact Hnd | auto].
Qed.

Lemma running_totals_witness :
  snd (Statistics.calculateRunningTotal
         [Score.mk "s1" "round-1" "hole-1" 1 (Some (Num 3)) None None "";
          Score.mk "s2" "round-1" "hole-2" 2 (Some (Num 4)) None None "";
          Score.mk "s3" "round-1" "hole-3" 3 (Some (Num 2)) None None ""]
         three_holes)
  = 10.
Proof.
  apply (running_totals
           [Score.mk "s1" "round-1" "hole-1" 1 (Some (Num 3)) None None "";
            Score.mk "s2" "round-1" "hole-2" 2 (Some (Num 4)) None None "";
            Score.mk "s3" "round-1" "hole-3" 3 (Some (Num 2)) None None ""]
           three_holes).
  - apply (bool_decide_unpack _). vm_compute. exact I.
  - reflexivity.
Defined.

End PlayFacts.

(** ** Rows *)

Module RowsFacts.

Import SheetsAPI Rows TextFacts.
Local Open Scope nat_scope.
Local Open Scope Z_scope.

Lemma prepareRowData_from (data : obj) (headers : list string) (prepared : obj)
    (h : string) :
  fold_left
    (fun prepared header =>
       match data !! header with
       | None | Some VNull => <[header := VStr ""]> prepared
       | Some (VBool b) => <[header := VStr (if b then "TRUE" else "FALSE")]> prepared
       | Some v => <[header := VStr (String_of v)]> prepared
       end)
    headers prepared !! h
  = if bool_decide (h ∈ headers) then Some (VStr (cell (data !! h)))
    else prepared !! h.
Proof.
  revert prepared. induction headers as [|x r IH]; intros prepared; cbn.
  - reflexivity.
  - rewrite IH. destruct (decide (h ∈ r)) as [Hr|Hr].
    + rewrite !bool_decide_eq_true_2; [reflexivity | right; exact Hr | exact Hr].
    + rewrite (bool_decide_eq_false_2 _ Hr).
      destruct (decide (h = x)) as [->|Hx].
      * rewrite bool_decide_eq_true_2 by left.
        unfold cell. destruct (data !! x) as [[]|]; rewrite lookup_insert_eq; reflexivity.
      * rewrite bool_decide_eq_false_2
          by (intros Hin; apply elem_of_cons in Hin as [?|?]; congruence).
        destruct (data !! x) as [[]|]; rewrite lookup_insert_ne by congruence;
          reflexivity.
Qed.

Lemma prepareRowData_lookup (data : obj) (headers : list string) (h : string) :
  prepareRowData data headers !! h
  = if bool_decide (h ∈ headers) then Some (VStr (cell (data !! h))) else None.
Proof.
  unfold prepareRowData. rewrite prepareRowData_from. rewrite lookup_empty.
  reflexivity.
Qed.

(** X13. The row that [prepareRowData] makes has exactly the columns of
    the header, whatever fields the record has, and every cell is a
    text: empty for [null] and for a field that the record does not
    have, TRUE or FALSE for a boolean, and the text of [String] for a
    number or a text. *)
Theorem prepareRowData_cells (data : obj) (headers : list string) :
  dom (prepareRowData data headers) = list_to_set headers
  /\ (forall h, h ∈ headers ->
                prepareRowData data headers !! h = Some (VStr (cell (data !! h))))
  /\ (forall h v, prepareRowData data headers !! h = Some v ->
                  h ∈ headers /\ exists text, v = VStr text).
Proof.
  split; [|split].
  - apply set_eq. intros h. rewrite elem_of_dom, elem_of_list_to_set.
    rewrite prepareRowData_lookup. destruct (bool_decide_reflect (h ∈ headers)).
    + split; [intros _; assumption | intros _; eexists; reflexivity].
    + split; [intros [v Hv]; discriminate Hv | contradiction].
  - intros h Hh. rewrite prepareRowData_lookup, bool_decide_eq_true_2 by exact Hh.
    reflexivity.
  - intros h v. rewrite prepareRowData_lookup.
    destruct (bool_decide_reflect (h ∈ headers)); [|discriminate].
    intros [= <-]. split; [assumption | eexists; reflexivity].
Qed.

Lemma prepareRowData_cells_witness :
  prepareRowData CourseStore.oak_park CONFIG.sheetHeaders.courses !! "last_played"
  = Some (VStr "").
Proof.
  apply (prepareRowData_cells CourseStore.oak_park CONFIG.sheetHeaders.courses).
  unfold CONFIG.sheetHeaders.courses. rewrite !elem_of_cons. tauto.
Defined.

Lemma pretty_truthy (z : Z) : truthy_string (pretty z) = true.
Proof.
  pose proof (ValidationFacts.parsed_not_empty _ _ (parseInt_pretty z)) as H.
  destruct (pretty z); [discriminate H | reflexivity].
Qed.

Lemma optional_cell (n : option jsnum) :
  optional (Some (VStr (cell (Some (json_of_number n))))) = LVal (json_of_number n).
Proof.
  destruct n as [[|z]|]; try reflexivity.
  unfold optional, cell, json_of_number, truthy, String_of, parseInt_of.
  rewrite pretty_truthy, parseInt_pretty. reflexivity.
Qed.

Lemma number_cell (z : Z) :
  number (parseInt_of (Some (VStr (cell (Some (VNum z)))))) = LVal (VNum z).
Proof. cbn. rewrite parseInt_pretty. reflexivity. Qed.

Lemma score_read_back (s : Score.t) (t : Z) :
  Score.throws s = Some (Num t) ->
  decode_score (prepareRowData (score_obj s) CONFIG.sheetHeaders.scores)
  = LVal <$> score_obj s.
Proof.
  intros Ht. apply map_eq. intros k. unfold decode_score, CONFIG.sheetHeaders.scores.
  destruct (decide (k = "putts")) as [->|?];
    [lookups; rewrite prepareRowData_lookup; a_header; unfold score_obj; lookups;
     cbn [fmap option_fmap option_map]; f_equal; apply optional_cell|].
  destruct (decide (k = "approaches")) as [->|?];
    [lookups; rewrite prepareRowData_lookup; a_header; unfold score_obj; lookups;
     cbn [fmap option_fmap option_map]; f_equal; apply optional_cell|].
  destruct (decide (k = "throws")) as [->|?].
  { lookups. rewrite prepareRowData_lookup. a_header. unfold score_obj. lookups.
    cbn [fmap option_fmap option_map]. f_equal.
    rewrite Ht. apply number_cell. }
  destruct (decide (k = "hole_number")) as [->|?];
    [lookups; rewrite prepareRowData_lookup; a_header; unfold score_obj; lookups;
     cbn [fmap option_fmap option_map]; f_equal; apply number_cell|].
  lookups. rewrite prepareRowData_lookup. unfold score_obj.
  destruct (decide (k = "score_id")) as [->|?]; [a_header; lookups; reflexivity|].
  destruct (decide (k = "round_id")) as [->|?]; [a_header; lookups; reflexivity|].
  destruct (decide (k = "hole_id")) as [->|?]; [a_header; lookups; reflexivity|].
  destruct (decide (k = "created_at")) as [->|?]; [a_header; lookups; reflexivity|].
  not_a_header. lookups. reflexivity.
Qed.

Lemma hole_read_back (h : Hole.t) :
  Hole.par h <> 0 ->
  decode_hole (prepareRowData (hole_obj h) CONFIG.sheetHeaders.holes)
  = LVal <$> hole_obj h.
Proof.
  intros Hpar. apply map_eq. intros k. unfold decode_hole, CONFIG.sheetHeaders.holes.
  destruct (decide (k = "distance")) as [->|?];
    [lookups; rewrite prepareRowData_lookup; a_header; unfold hole_obj; lookups;
     cbn [fmap option_fmap option_map]; f_equal; apply optional_cell|].
  destruct (decide (k = "par")) as [->|?].
  { lookups. rewrite prepareRowData_lookup. a_header. unfold hole_obj. lookups.
    cbn [fmap option_fmap option_map]. f_equal.
    unfold number_or, cell, String_of, parseInt_of. rewrite parseInt_pretty. cbn.
    destruct (Z.eqb_spec (Hole.par h) 0); [contradiction | reflexivity]. }
  destruct (decide (k = "hole_number")) as [->|?];
    [lookups; rewrite prepareRowData_lookup; a_header; unfold hole_obj; lookups;
     cbn [fmap option_fmap option_map]; f_equal; apply number_cell|].
  lookups. rewrite prepareRowData_lookup. unfold hole_obj.
  destruct (decide (k = "hole_id")) as [->|?]; [a_header; lookups; reflexivity|].
  destruct (decide (k = "course_id")) as [->|?]; [a_header; lookups; reflexivity|].
  not_a_header. lookups. reflexivity.
Qed.

Lemma round_read_back (r : Round.t) (ts tp : Z) :
  Round.total_score r = Some ts -> Round.total_par r = Some tp ->
  decode_round (prepareRowData (roundData r) CONFIG.sheetHeaders.rounds)
  = LVal <$> roundData r.
Proof.
  intros Hts Htp. apply map_eq. intros k.
  unfold decode_round, CONFIG.sheetHeaders.rounds, roundData. rewrite Hts, Htp.
  unfold with_total.
  destruct (decide (k = "total_par")) as [->|?];
    [lookups; rewrite prepareRowData_lookup; a_header; lookups;
     cbn [fmap option_fmap option_map]; f_equal;
     apply (optional_cell (Some (Num tp)))|].
  destruct (decide (k = "total_score")) as [->|?];
    [lookups; rewrite prepareRowData_lookup; a_header; lookups;
     cbn [fmap option_fmap option_map]; f_equal;
     apply (optional_cell (Some (Num ts)))|].
  destruct (decide (k = "completed")) as [->|?];
    [lookups; rewrite prepareRowData_lookup; a_header; lookups; reflexivity|].
  lookups. rewrite prepareRowData_lookup.
  destruct (decide (k = "round_id")) as [->|?]; [a_header; lookups; reflexivity|].
  destruct (decide (k = "course_id")) as [->|?]; [a_header; lookups; reflexivity|].
  destruct (decide (k = "round_date")) as [->|?]; [a_header; lookups; reflexivity|].
  not_a_header. lookups. reflexivity.
Qed.

(** X14. A record written to the sheets reads back as it was: decoding
    the row that [prepareRowData] makes of the JSON object of a score,
    of a hole or of a finished round gives the object again, for a score
    whose throws are a number, a hole whose par is not 0 and a round
    that has its totals. A sub-value or a distance 0 stays 0 (its cell
    is the text 0, which is truthy), [null] stays [null], and the
    boolean [completed] comes back from the text TRUE. *)
Theorem records_read_back (s : Score.t) (h : Hole.t) (r : Round.t) :
  (Statistics.is_number (Score.throws s) = true ->
   decode_score (prepareRowData (score_obj s) CONFIG.sheetHeaders.scores)
   = LVal <$> score_obj s)
  /\ (Hole.par h <> 0 ->
      decode_hole (prepareRowData (hole_obj h) CONFIG.sheetHeaders.holes)
      = LVal <$> hole_obj h)
  /\ (is_Some (Round.total_score r) -> is_Some (Round.total_par r) ->
      decode_round (prepareRowData (roundData r) CONFIG.sheetHeaders.rounds)
      = LVal <$> roundData r).
Proof.
  split; [|split].
  - intros Ht. destruct (Score.throws s) as [[|t]|] eqn:Hs; try discriminate Ht.
    apply (score_read_back s t Hs).
  - apply hole_read_back.
  - intros [ts Hts] [tp Htp]. apply (round_read_back r ts tp Hts Htp).
Qed.

Lemma records_read_back_witness :
  decode_score
    (prepareRowData
       (score_obj (Score.mk "score-1" "round-1" "hole-1" 1 (Some (Num 3))
                            (Some (Num 0)) None "2024-05-01"))
       CONFIG.sheetHeaders.scores)
  = LVal <$> score_obj (Score.mk "score-1" "round-1" "hole-1" 1 (Some (Num 3))
                                 (Some (Num 0)) None "2024-05-01").
Proof.
  apply (records_read_back
           (Score.mk "score-1" "round-1" "hole-1" 1 (Some (Num 3)) (Some (Num 0))
                     None "2024-05-01")
           (Hole.mk "hole-1" "course-1" 1 3 None)
           Session.three_hole_round).
  reflexivity.
Defined.

Lemma course_decoded (c : Course.t) :
  decode_course (prepareRowData (course_obj c) CONFIG.sheetHeaders.courses)
  = course_loaded c.
Proof.
  apply map_eq. intros k.
  unfold decode_course, course_loaded, CONFIG.sheetHeaders.courses, course_obj.
  destruct (decide (k = "hole_count")) as [->|?].
  { lookups. rewrite prepareRowData_lookup. a_header. lookups.
    f_equal. unfold number_or, cell, String_of, parseInt_of.
    rewrite parseInt_pretty. reflexivity. }
  destruct (decide (k = "last_played")) as [->|?].
  { lookups. rewrite prepareRowData_lookup. a_header. lookups.
    destruct (Course.last_played c); reflexivity. }
  lookups. rewrite prepareRowData_lookup.
  destruct (decide (k = "course_id")) as [->|?]; [a_header; lookups; reflexivity|].
  destruct (decide (k = "course_name")) as [->|?]; [a_header; lookups; reflexivity|].
  destruct (decide (k = "created_date")) as [->|?]; [a_header; lookups; reflexivity|].
  not_a_header. lookups. reflexivity.
Qed.

(** X15. A course does not come back from the sheets as it was saved
    when it was never played or has no hole: when the service answers
    with the rows that [saveCourse] sent, [loadCourses] returns each
    course with an empty text for [last_played] where the record had
    [null], and with a hole count of 18 where it had 0. Every other
    field comes back. *)
Theorem saved_courses_load {GW : Type}
    (gateway : Call -> GW -> option (list obj) * GW) (n : @Net GW) (g' : GW)
    (courses : list Course.t) :
  gateway (GetRows CONFIG.sheets.courses) (gw n) = (Some (course_rows courses), g') ->
  fst (loadCourses gateway n) = Normal (map course_loaded courses)
  /\ (forall c, In c courses ->
                course_loaded c = (LVal <$> course_obj c)
                <-> Course.last_played c <> None /\ Course.hole_count c <> 0).
Proof.
  intros Hrows. split.
  - unfold loadCourses, SheetsAPI.bind, getRows, request. rewrite Hrows.
    cbn [SheetsAPI.ret fst]. f_equal. unfold course_rows. rewrite map_map.
    apply map_ext. intros c. apply course_decoded.
  - intros c _. unfold course_loaded, course_obj. split.
    + intros Heq. split.
      * intros Hnone. rewrite Hnone in Heq.
        apply (f_equal (fun m => m !! "last_played")) in Heq. revert Heq.
        lookups. discriminate.
      * intros Hzero. rewrite Hzero in Heq.
        apply (f_equal (fun m => m !! "hole_count")) in Heq. revert Heq.
        lookups. discriminate.
    + intros [Hplayed Hcount]. apply map_eq. intros k.
      destruct (Course.last_played c) as [d|]; [|congruence].
      destruct (Z.eqb_spec (Course.hole_count c) 0); [congruence|].
      destruct (decide (k = "last_played")) as [->|?]; [lookups; reflexivity|].
      destruct (decide (k = "hole_count")) as [->|?]; [lookups; reflexivity|].
      lookups. reflexivity.
Qed.

Lemma saved_courses_load_witness :
  fst (loadCourses
         (answering (course_rows [Course.mk "course-1" "Oak Park" 9 "2024-05-01" None]))
         (mkNet tt []))
  = Normal [course_loaded (Course.mk "course-1" "Oak Park" 9 "2024-05-01" None)].
Proof.
  apply (saved_courses_load
           (answering (course_rows [Course.mk "course-1" "Oak Park" 9 "2024-05-01" None]))
           (mkNet tt []) tt [Course.mk "course-1" "Oak Park" 9 "2024-05-01" None]).
  reflexivity.
Defined.

Lemma filter_map {A B : Type} (f : B -> bool) (g : A -> B) (l : list A) :
  List.filter f (map g l) = map g (List.filter (fun x => f (g x)) l).
Proof.
  induction l as [|x r IH]; cbn; [reflexivity|].
  destruct (f (g x)); cbn; rewrite IH; reflexivity.
Qed.

Lemma Forall_filter {A : Type} (P : A -> Prop) (f : A -> bool) (l : list A) :
  Forall P l -> Forall P (List.filter f l).
Proof.
  induction 1 as [|x r Hx Hr IH]; cbn; [constructor|].
  destruct (f x); [constructor; assumption | assumption].
Qed.

(** X16. Loading gives back what was saved: when the service answers
    the request for the rows of the sheet of scores with the rows that
    [saveScores] sent for some entries, each with numeric throws,
    [loadScoresForRounds] returns the JSON objects of those of the
    entries whose round is among the rounds asked for, in their order. *)
Theorem saved_scores_load {GW : Type}
    (gateway : Call -> GW -> option (list obj) * GW) (n : @Net GW) (g' : GW)
    (scores : list Score.t) (roundIds : list (option value)) :
  gateway (GetRows CONFIG.sheets.scores) (gw n) = (Some (score_rows scores), g') ->
  Forall (fun s => Statistics.is_number (Score.throws s) = true) scores ->
  fst (loadScoresForRounds gateway roundIds n)
  = Normal (map (fun s => LVal <$> score_obj s)
                (List.filter
                   (fun s => includes roundIds (Some (VStr (Score.round_id s))))
                   scores)).
Proof.
  intros Hrows Hnum.
  unfold loadScoresForRounds, SheetsAPI.bind, getRows, request. rewrite Hrows.
  cbn [SheetsAPI.ret fst]. f_equal. unfold score_rows.
  rewrite filter_map, map_map.
  rewrite (List.filter_ext
             (fun s => includes roundIds
                         (prepareRowData (score_obj s) CONFIG.sheetHeaders.scores
                            !! "round_id"))
             (fun s => includes roundIds (Some (VStr (Score.round_id s))))).
  - apply map_ext_in. intros s Hin.
    assert (Hs : Statistics.is_number (Score.throws s) = true).
    { apply Forall_filter with (f := fun s => includes roundIds
                                            (Some (VStr (Score.round_id s)))) in Hnum.
      rewrite List.Forall_forall in Hnum. apply Hnum. exact Hin. }
    destruct (Score.throws s) as [[|t]|] eqn:Ht; try discriminate Hs.
    apply (score_read_back s t Ht).
  - intros s. rewrite prepareRowData_lookup. unfold CONFIG.sheetHeaders.scores.
    a_header. unfold score_obj. lookups. reflexivity.
Qed.

Lemma saved_scores_load_witness :
  fst (loadScoresForRounds
         (answering
            (score_rows
               [Score.mk "score-1" "round-1" "hole-1" 1 (Some (Num 3)) None None "t1";
                Score.mk "score-2" "round-2" "hole-1" 1 (Some (Num 4)) None None "t2"]))
         [Some (VStr "round-2")] (mkNet tt []))
  = Normal [LVal <$> score_obj (Score.mk "score-2" "round-2" "hole-1" 1
                                         (Some (Num 4)) None None "t2")].
Proof.
  apply (saved_scores_load
           (answering
              (score_rows
                 [Score.mk "score-1" "round-1" "hole-1" 1 (Some (Num 3)) None None "t1";
                  Score.mk "score-2" "round-2" "hole-1" 1 (Some (Num 4)) None None "t2"]))
           (mkNet tt []) tt
           [Score.mk "score-1" "round-1" "hole-1" 1 (Some (Num 3)) None None "t1";
            Score.mk "score-2" "round-2" "hole-1" 1 (Some (Num 4)) None None "t2"]
           [Some (VStr "round-2")]).
  - reflexivity.
  - repeat constructor.
Defined.

(** X17. The finished rounds of a course come back from the sheets:
    when the service answers with the rows that [saveRound] sent for
    rounds that have their totals, [loadRoundsForCourse] returns the
    JSON objects of those of the course asked for, in their order: the
    text TRUE that [prepareRowData] writes for [completed] is the text
    that the filter of [loadRoundsForCourse] asks for. *)
Theorem saved_rounds_load {GW : Type}
    (gateway : Call -> GW -> option (list obj) * GW) (n : @Net GW) (g' : GW)
    (rounds : list Round.t) (courseId : string) :
  gateway (GetRows CONFIG.sheets.rounds) (gw n) = (Some (round_rows rounds), g') ->
  Forall (fun r => is_Some (Round.total_score r) /\ is_Some (Round.total_par r))
         rounds ->
  fst (loadRoundsForCourse gateway (VStr courseId) n)
  = Normal (map (fun r => LVal <$> roundData r)
                (List.filter (fun r => bool_decide (Round.course_id r = courseId))
                             rounds)).
Proof.
  intros Hrows Htotals.
  unfold loadRoundsForCourse, SheetsAPI.bind, getRows, request. rewrite Hrows.
  cbn [SheetsAPI.ret fst]. f_equal. unfold round_rows.
  rewrite filter_map, map_map.
  rewrite (List.filter_ext
             (fun r => strict_eq
                         (prepareRowData (roundData r) CONFIG.sheetHeaders.rounds
                            !! "course_id") (Some (VStr courseId))
                       && strict_eq
                            (prepareRowData (roundData r) CONFIG.sheetHeaders.rounds
                               !! "completed") (Some (VStr "TRUE")))
             (fun r => bool_decide (Round.course_id r = courseId))).
  - apply map_ext_in. intros r Hin.
    apply Forall_filter with (f := fun r => bool_decide (Round.course_id r = courseId))
      in Htotals.
    rewrite List.Forall_forall in Htotals.
    destruct (Htotals r Hin) as [[ts Hts] [tp Htp]].
    apply (round_read_back r ts tp Hts Htp).
  - intros r. rewrite !prepareRowData_lookup. unfold CONFIG.sheetHeaders.rounds.
    do 2 a_header. unfold roundData. lookups. cbn [cell String_of].
    unfold strict_eq. rewrite (bool_decide_eq_true_2 (Some (VStr "TRUE") = _))
      by reflexivity.
    rewrite andb_true_r. apply bool_decide_ext. split; congruence.
Qed.

Lemma saved_rounds_load_witness :
  fst (loadRoundsForCourse
         (answering (round_rows [played_round "round-a" "course-1";
                                 played_round "round-b" "course-2"]))
         (VStr "course-2") (mkNet tt []))
  = Normal [LVal <$> roundData (played_round "round-b" "course-2")].
Proof.
  apply (saved_rounds_load
           (answering (round_rows [played_round "round-a" "course-1";
                                   played_round "round-b" "course-2"]))
           (mkNet tt []) tt
           [played_round "round-a" "course-1"; played_round "round-b" "course-2"]
           "course-2").
  - reflexivity.
  - repeat constructor; eexists; reflexivity.
Defined.

(** *** Replaying an operation of several rows *)

Lemma createRows_accepted (k : nat) (xs : list obj) (n : nat) (evs : list Event) :
  (k < n)%nat ->
  createRows (failing_at k) CONFIG.sheets.scores CONFIG.sheetHeaders.scores xs
             (mkNet n evs)
  = (Normal tt, mkNet (n + length xs)%nat (evs ++ created xs)).
Proof.
  revert n evs. induction xs as [|x r IH]; intros n evs Hk.
  - cbn. rewrite Nat.add_0_r, app_nil_r. reflexivity.
  - cbn [createRows]. unfold SheetsAPI.bind at 1. unfold createRow, SheetsAPI.bind at 1.
    unfold request, failing_at at 1. cbn [gw log].
    destruct (Nat.eqb_spec n k) as [He|_]; [lia|].
    cbn [SheetsAPI.ret]. rewrite IH by lia.
    cbn [length created map]. rewrite <- app_assoc. cbn [app].
    replace (n + S (length r))%nat with (S n + length r)%nat by lia. reflexivity.
Qed.

Lemma createRows_refused (pre post : list obj) (x : obj) (n : nat) (evs : list Event) :
  createRows (failing_at (n + length pre)) CONFIG.sheets.scores
             CONFIG.sheetHeaders.scores (pre ++ x :: post) (mkNet n evs)
  = (Throw "Error",
     mkNet (S (n + length pre)) (evs ++ created pre ++ [refused x])).
Proof.
  revert n evs. induction pre as [|y r IH]; intros n evs.
  - cbn [app length createRows]. rewrite Nat.add_0_r.
    unfold SheetsAPI.bind at 1. unfold createRow, SheetsAPI.bind at 1.
    unfold request, failing_at at 1. cbn [gw log]. rewrite Nat.eqb_refl.
    reflexivity.
  - cbn [app length createRows].
    unfold SheetsAPI.bind at 1. unfold createRow, SheetsAPI.bind at 1.
    unfold request, failing_at at 1. cbn [gw log].
    destruct (Nat.eqb_spec n (n + S (length r))) as [He|_]; [lia|].
    cbn [SheetsAPI.ret].
    replace (n + S (length r))%nat with (S n + length r)%nat by lia.
    rewrite IH. cbn [created map]. rewrite <- app_assoc. reflexivity.
Qed.

(** X18. Replaying a queued operation of several rows is not
    idempotent: when the service refuses one row of a queued
    [saveScores], the rows before it have been created, the operation
    stays in the queue, and the next drain, which succeeds, creates every
    row of the operation, so that the rows before the refused one are
    created twice. *)
Theorem retried_rows_created_twice (ls : Storage.localStorage) (pre post : list obj)
    (x : obj) (at_ : string) :
  Storage.getPendingSync ls
  = [mkPending (op_saveScores (pre ++ x :: post)) at_] ->
  exists ls1 ls2,
    processPendingSync (failing_at (length pre)) ls (mkNet 0%nat [])
    = (Normal (false, ls1),
       mkNet (S (length pre)) (created pre ++ [refused x]))
    /\ Storage.getPendingSync ls1 = Storage.getPendingSync ls
    /\ processPendingSync (failing_at (length pre)) ls1
         (mkNet (S (length pre)) (created pre ++ [refused x]))
       = (Normal (true, ls2),
          mkNet (S (length pre) + length (pre ++ x :: post))%nat
                ((created pre ++ [refused x]) ++ created (pre ++ x :: post)))
    /\ Storage.getPendingSync ls2 = [].
Proof.
  intros Hq.
  exists (Storage.set_pendingSync ls
            [mkPending (op_saveScores (pre ++ x :: post)) at_]),
         (Storage.set_pendingSync
            (Storage.set_pendingSync ls
               [mkPending (op_saveScores (pre ++ x :: post)) at_]) []).
  split; [|split; [|split]].
  - unfold processPendingSync. rewrite Hq. cbn [length Nat.eqb replay].
    unfold SheetsAPI.bind at 1. unfold SheetsAPI.bind at 1.
    unfold try_catch, SheetsAPI.bind at 1.
    cbn [pending_op dispatch]. unfold saveScores.
    pose proof (createRows_refused pre post x 0 []) as Hrows.
    change (0 + length pre)%nat with (length pre) in Hrows.
    rewrite Hrows. reflexivity.
  - rewrite Hq. reflexivity.
  - unfold processPendingSync.
    change (Storage.getPendingSync (Storage.set_pendingSync ls ?q)) with q.
    cbn [length Nat.eqb replay].
    unfold SheetsAPI.bind at 1. unfold SheetsAPI.bind at 1.
    unfold try_catch, SheetsAPI.bind at 1.
    cbn [pending_op dispatch]. unfold saveScores.
    rewrite createRows_accepted by lia. reflexivity.
  - reflexivity.
Qed.

Lemma retried_rows_created_twice_witness :
  exists ls1 ls2 n1 n2,
    processPendingSync (failing_at 1)
      (Replay.enqueue_all Storage.empty_localStorage Replay.two_scores)
      (mkNet 0%nat [])
    = (Normal (false, ls1), n1)
    /\ processPendingSync (failing_at 1) ls1 n1 = (Normal (true, ls2), n2)
    /\ map ev_ok (log n2) = [true; false; true; true].
Proof.
  destruct (retried_rows_created_twice
              (Replay.enqueue_all Storage.empty_localStorage Replay.two_scores)
              [Replay.score_row "score-1"] [] (Replay.score_row "score-2") "t1"
              eq_refl) as (ls1 & ls2 & H1 & _ & H2 & _).
  exists ls1, ls2. eexists _, _. split; [exact H1|]. split; [exact H2|]. reflexivity.
Defined.

End RowsFacts.

(** ** Course statistics and the texts of a score *)

Module CourseStatisticsFacts.

Import Statistics CourseStatistics TextFacts.

Lemma insert_stat_In (s x : RoundStat) (l : list RoundStat) :
  In x (insert_stat s l) <-> x = s \/ In x l.
Proof.
  induction l as [|y r IH]; cbn; [intuition congruence|].
  destruct (totalScore s <=? totalScore y); cbn; [intuition congruence|].
  rewrite IH. intuition congruence.
Qed.

Lemma sort_stats_In (x : RoundStat) (l : list RoundStat) :
  In x (sort_stats l) <-> In x l.
Proof.
  induction l as [|y r IH]; cbn; [reflexivity|].
  rewrite insert_stat_In. unfold sort_stats in IH. rewrite IH. intuition congruence.
Qed.

(** The list is in the order of the totals. *)
Lemma insert_stat_head (s : RoundStat) (l : list RoundStat) (b : RoundStat) :
  (forall x, head l = Some x -> forall y, In y l -> totalScore x <= totalScore y) ->
  head (insert_stat s l) = Some b ->
  forall y, In y (insert_stat s l) -> totalScore b <= totalScore y.
Proof.
  destruct l as [|x r]; cbn.
  - intros _ [= <-] y [<-|[]]. lia.
  - intros Hmin. specialize (Hmin x eq_refl).
    destruct (Z.leb_spec (totalScore s) (totalScore x)) as [Hle|Hlt]; cbn.
    + intros [= <-] y [<-|[<-|Hy]]; [lia | lia |].
      specialize (Hmin y (or_intror Hy)). lia.
    + intros [= <-] y [<-|Hy]; [lia|].
      apply insert_stat_In in Hy as [->|Hy]; [lia|].
      apply Hmin. right. exact Hy.
Qed.

Lemma sort_stats_head (l : list RoundStat) (b : RoundStat) :
  head (sort_stats l) = Some b ->
  forall y, In y (sort_stats l) -> totalScore b <= totalScore y.
Proof.
  revert b. induction l as [|x r IH]; intros b; cbn; [discriminate|].
  apply insert_stat_head. exact IH.
Qed.

Lemma sort_stats_nonempty (l : list RoundStat) :
  l <> [] -> exists b, head (sort_stats l) = Some b.
Proof.
  destruct l as [|x r]; [congruence|]. intros _. cbn.
  destruct (fold_right insert_stat [] r) as [|y t]; cbn; [eauto|].
  destruct (totalScore x <=? totalScore y); cbn; eauto.
Qed.

Lemma fold_left_sum {A : Type} (f : A -> Z) (l : list A) (a : Z) :
  fold_left (fun sum x => sum + f x) l a = a + Play.sum (map f l).
Proof.
  unfold Play.sum. revert a. induction l as [|x r IH]; intros a; cbn; [lia|].
  rewrite IH. lia.
Qed.

Lemma round_stat_total (scores : list Score.t) (totalPar : Z) (round : Round.t) :
  totalScore (round_stat scores totalPar round) = round_total scores round.
Proof.
  unfold round_stat, round_total. cbn [totalScore]. rewrite fold_left_sum. lia.
Qed.

(** X19. A round total is a personal best exactly when the course has a
    completed round and the total is strictly below the total of every
    completed round: equalling the best round is not a personal best,
    and rounds that are not completed do not count. The total of a round
    is the sum of the throws of its entries. *)
Theorem personal_best_strict (currentTotal : Z) (courseId : string)
    (rounds : list Round.t) (scores : list Score.t) (holes : list Hole.t) :
  isPersonalBest currentTotal (calculateCourseStats courseId rounds scores holes) = true
  <-> (exists round, In round rounds /\ Round.completed round = true)
      /\ (forall round,
            In round rounds -> Round.completed round = true ->
            currentTotal < round_total scores round).
Proof.
  unfold calculateCourseStats, isPersonalBest.
  set (totalPar := fold_left _ holes 0).
  assert (Hc : forall round, In round (List.filter Round.completed rounds)
                             <-> In round rounds /\ Round.completed round = true).
  { intros round. apply filter_In. }
  destruct (List.filter Round.completed rounds) as [|c cs] eqn:Hcr.
  - cbn. split; [discriminate|]. intros [(round & Hin & Hcomp) _].
    destruct (proj2 (Hc round) (conj Hin Hcomp)).
  - cbn [length Nat.eqb bestRound cs_hasData negb].
    set (stats := map (round_stat scores totalPar) (c :: cs)).
    destruct (sort_stats_nonempty stats) as [b Hb]; [discriminate|].
    rewrite Hb.
    pose proof (sort_stats_head stats b Hb) as Hmin.
    assert (Hbin : In b stats).
    { apply sort_stats_In. destruct (sort_stats stats); [discriminate Hb|].
      injection Hb as ->. left. reflexivity. }
    apply in_map_iff in Hbin as (rb & <- & Hrb).
    rewrite round_stat_total. split.
    + intros Hlt. apply Z.ltb_lt in Hlt. split.
      * exists c. apply Hc. left. reflexivity.
      * intros round Hin Hcomp.
        assert (Hs : In (round_stat scores totalPar round) (sort_stats stats)).
        { apply sort_stats_In, in_map, Hc. split; assumption. }
        specialize (Hmin _ Hs). rewrite !round_stat_total in Hmin. lia.
    + intros [_ Hall]. apply Z.ltb_lt.
      apply Hc in Hrb as [Hin Hcomp]. apply Hall; assumption.
Qed.

Lemma personal_best_strict_witness :
  isPersonalBest 8 (calculateCourseStats "course-1"
                      [old_round "round-a"; old_round "round-b"] old_scores
                      Session.three_holes)
  = true.
Proof.
  apply (personal_best_strict 8 "course-1" [old_round "round-a"; old_round "round-b"]
           old_scores Session.three_holes).
  split.
  - exists (old_round "round-a"). split; [left; reflexivity | reflexivity].
  - intros round [<-|[<-|[]]] _; vm_compute; reflexivity.
Defined.

Lemma insert_stat_sorted (s : RoundStat) (l : list RoundStat) :
  sorted_by_total l -> sorted_by_total (insert_stat s l).
Proof.
  induction l as [|x r IH]; cbn; [intros _; split; [constructor | exact I]|].
  intros [Hx Hr].
  destruct (Z.leb_spec (totalScore s) (totalScore x)) as [Hle|Hlt].
  - split; [|split; assumption].
    constructor; [exact Hle|].
    rewrite List.Forall_forall in *. intros y Hy. specialize (Hx y Hy).
    unfold by_total in *. lia.
  - split; [|exact (IH Hr)].
    rewrite List.Forall_forall in *. intros y Hy.
    apply insert_stat_In in Hy as [->|Hy]; [unfold by_total; lia | apply Hx, Hy].
Qed.

Lemma sort_stats_sorted (l : list RoundStat) : sorted_by_total (sort_stats l).
Proof.
  induction l as [|x r IH]; cbn; [exact I|]. apply insert_stat_sorted, IH.
Qed.

Lemma sorted_last (l : list RoundStat) (w : RoundStat) :
  sorted_by_total l -> last l = Some w ->
  forall y, In y l -> totalScore y <= totalScore w.
Proof.
  induction l as [|x r IH]; [discriminate|]. intros [Hx Hr].
  destruct r as [|x' r'].
  - intros [= <-] y [<-|[]]. lia.
  - change (last (x :: x' :: r')) with (last (x' :: r')). intros Hw y [<-|Hy].
    + rewrite List.Forall_forall in Hx.
      assert (Hin : In w (x' :: r')).
      { apply list_elem_of_In, last_Some_elem_of. exact Hw. }
      apply (Hx w Hin).
    + apply IH; assumption.
Qed.

Lemma last_In (l : list RoundStat) (w : RoundStat) : last l = Some w -> In w l.
Proof. intros H. apply list_elem_of_In, last_Some_elem_of. exact H. Qed.

Lemma head_In (l : list RoundStat) (b : RoundStat) : head l = Some b -> In b l.
Proof. destruct l; [discriminate|]. intros [= <-]. left. reflexivity. Qed.

(** X20. What [calculateCourseStats] reports: the number of completed
    rounds; as best round a completed round whose total no completed
    round is below, and as worst round one whose total no completed
    round is above; each with its total relative to the par of the
    course, the sum of the pars of the holes (3 for a par 0). Rounds
    that are not completed do not count. *)
Theorem course_stats_extremes (courseId : string) (rounds : list Round.t)
    (scores : list Score.t) (holes : list Hole.t) (x : RoundStat) :
  let stats := calculateCourseStats courseId rounds scores holes in
  cs_roundCount stats = length (List.filter Round.completed rounds)
  /\ (bestRound stats = Some x \/ worstRound stats = Some x ->
      (exists round,
         In round rounds /\ Round.completed round = true
         /\ stat_round_id x = Round.round_id round
         /\ totalScore x = round_total scores round)
      /\ totalPar stats = Some (Play.sum (map (fun h => par_or_3 (Hole.par h)) holes))
      /\ relativeToPar x
         = totalScore x - Play.sum (map (fun h => par_or_3 (Hole.par h)) holes))
  /\ (bestRound stats = Some x ->
      forall round, In round rounds -> Round.completed round = true ->
                    totalScore x <= round_total scores round)
  /\ (worstRound stats = Some x ->
      forall round, In round rounds -> Round.completed round = true ->
                    round_total scores round <= totalScore x).
Proof.
  unfold calculateCourseStats.
  rewrite (fold_left_sum (fun h => par_or_3 (Hole.par h)) holes 0), Z.add_0_l.
  set (totalPar := Play.sum _).
  assert (Hc : forall round, In round (List.filter Round.completed rounds)
                             <-> In round rounds /\ Round.completed round = true).
  { intros round. apply filter_In. }
  destruct (List.filter Round.completed rounds) as [|c cs] eqn:Hcr.
  - cbn. split; [reflexivity|]. split; [intros [H|H]; discriminate H|].
    split; intros H; discriminate H.
  - cbn [length Nat.eqb cs_roundCount bestRound worstRound CourseStatistics.totalPar].
    set (stats := map (round_stat scores totalPar) (c :: cs)).
    assert (Hstat : forall y, In y (sort_stats stats) ->
              exists round, In round rounds /\ Round.completed round = true
                            /\ y = round_stat scores totalPar round).
    { intros y Hy. apply sort_stats_In, in_map_iff in Hy as (round & <- & Hr).
      apply Hc in Hr as [Hin Hcomp]. eauto. }
    assert (Hall : forall round, In round rounds -> Round.completed round = true ->
                                 In (round_stat scores totalPar round) (sort_stats stats)).
    { intros round Hin Hcomp. apply sort_stats_In, in_map, Hc. split; assumption. }
    split; [reflexivity|]. split; [|split].
    + intros Hx.
      assert (Hin : In x (sort_stats stats)).
      { destruct Hx as [Hx|Hx]; [apply head_In | apply last_In]; exact Hx. }
      destruct (Hstat x Hin) as (round & Hr & Hcomp & ->).
      split; [|split; reflexivity].
      exists round. split; [exact Hr|]. split; [exact Hcomp|].
      split; [reflexivity | apply round_stat_total].
    + intros Hx round Hin Hcomp.
      pose proof (sort_stats_head stats x Hx _ (Hall round Hin Hcomp)) as Hle.
      rewrite round_stat_total in Hle. exact Hle.
    + intros Hx round Hin Hcomp.
      pose proof (sorted_last _ x (sort_stats_sorted stats) Hx _ (Hall round Hin Hcomp))
        as Hle.
      rewrite round_stat_total in Hle. exact Hle.
Qed.

Lemma course_stats_extremes_witness :
  9 <= round_total old_scores (old_round "round-b").
Proof.
  destruct (course_stats_extremes "course-1"
              [old_round "round-a"; old_round "round-b"] old_scores
              Session.three_holes (mkRoundStat "round-a" "2024-04-01" 9 (-1)))
    as (_ & _ & Hbest & _).
  apply Hbest; [reflexivity | right; left; reflexivity | reflexivity].
Defined.

(** *** The statistics of the holes of a course *)

Lemma calculateCourseHoleStats_from (holes : list Hole.t) (scores : list Score.t)
    (stats : gmap string HoleStats) (holeId : string) :
  fold_left
    (fun stats hole =>
       <[Hole.hole_id hole := calculateHoleStats (Hole.hole_id hole) scores]> stats)
    holes stats !! holeId
  = if bool_decide (holeId ∈ map Hole.hole_id holes)
    then Some (calculateHoleStats holeId scores)
    else stats !! holeId.
Proof.
  revert stats. induction holes as [|h r IH]; intros stats; cbn; [reflexivity|].
  rewrite IH. destruct (decide (holeId ∈ map Hole.hole_id r)) as [Hr|Hr].
  - rewrite !bool_decide_eq_true_2; [reflexivity | right; exact Hr | exact Hr].
  - rewrite (bool_decide_eq_false_2 _ Hr).
    destruct (decide (holeId = Hole.hole_id h)) as [->|Hh].
    + rewrite bool_decide_eq_true_2 by left. apply lookup_insert_eq.
    + rewrite bool_decide_eq_false_2
        by (intros Hin; apply elem_of_cons in Hin as [?|?]; congruence).
      apply lookup_insert_ne. congruence.
Qed.

Lemma filter_filter_same {A : Type} (P : A -> Prop) `{forall x, Decision (P x)}
    (l : list A) :
  filter P (filter P l) = filter P l.
Proof.
  induction l as [|x r IH]; [reflexivity|].
  rewrite filter_cons. destruct (decide (P x)) as [Hx|Hx]; [|exact IH].
  rewrite filter_cons, decide_True by exact Hx. rewrite IH. reflexivity.
Qed.

(** X21. The statistics of the holes of a course: the object has an
    entry for the identifier of each hole and for nothing else, and the
    entry of a hole depends on the entries of that hole only: the
    scores of the other holes, of this course or of another, change
    nothing. *)
Theorem hole_stats_local (holes : list Hole.t) (scores : list Score.t)
    (holeId : string) :
  calculateCourseHoleStats holes scores !! holeId
  = (if bool_decide (holeId ∈ map Hole.hole_id holes)
     then Some (calculateHoleStats holeId scores) else None)
  /\ calculateHoleStats holeId scores
     = calculateHoleStats holeId (filter (fun s => Score.hole_id s = holeId) scores).
Proof.
  split.
  - unfold calculateCourseHoleStats. rewrite calculateCourseHoleStats_from.
    rewrite lookup_empty. reflexivity.
  - unfold calculateHoleStats. rewrite filter_filter_same. reflexivity.
Qed.

(** *** The text of a score relative to par *)

Lemma parseInt_plus (r : string) : parseInt (String "+" r) = read_digits r false 0.
Proof. reflexivity. Qed.

Lemma parseInt_plus_pretty (d : Z) : 0 < d -> parseInt ("+" +:+ pretty d) = Num d.
Proof.
  intros Hd. change ("+" +:+ pretty d) with (String "+" (pretty d)).
  rewrite parseInt_plus. pose proof (parseInt_pretty d) as Hp.
  destruct d as [|p|p]; try lia.
  change (pretty (Z.pos p)) with (pretty (N.pos p)) in *.
  unfold pretty, pretty_N in *.
  destruct (decide (N.pos p = 0%N)) as [H|_]; [discriminate H|].
  destruct (pretty_N_go_head (N.pos p) "" ltac:(lia)) as (c & r & Hs & Hc).
  rewrite Hs in *. rewrite (parseInt_digits c r Hc) in Hp. exact Hp.
Qed.

Lemma parseInt_relative (score par : Z) :
  parseInt (getRelativeScore score par)
  = if score - par =? 0 then NaN else Num (score - par).
Proof.
  unfold getRelativeScore. destruct (Z.eqb_spec (score - par) 0); [reflexivity|].
  destruct (Z.ltb_spec 0 (score - par)).
  - apply parseInt_plus_pretty. assumption.
  - apply parseInt_pretty.
Qed.

(** X22. The text of a score relative to par tells the difference: it
    is E exactly when the score is the par, [parseInt] reads the
    difference back in it otherwise, and two texts are the same exactly
    when the differences are. The classes agree with it: a total is
    even-par, and a score is par, exactly for the text E, and a total is
    under-par exactly below par. *)
Theorem relative_score_text (score par score' par' : Z) :
  (getRelativeScore score par = "E" <-> score = par)
  /\ (score <> par -> parseInt (getRelativeScore score par) = Num (score - par))
  /\ (getRelativeScore score par = getRelativeScore score' par'
      <-> score - par = score' - par')
  /\ (getTotalScoreClass score par = "even-par"
      <-> getRelativeScore score par = "E")
  /\ (getTotalScoreClass score par = "under-par" <-> score < par)
  /\ (getScoreClass score par = "par" <-> getRelativeScore score par = "E").
Proof.
  assert (HE : forall s p, getRelativeScore s p = "E" <-> s = p).
  { intros s p. split.
    - intros H. pose proof (parseInt_relative s p) as Hp. rewrite H in Hp.
      destruct (Z.eqb_spec (s - p) 0); [lia | discriminate Hp].
    - intros ->. unfold getRelativeScore. rewrite Z.sub_diag. reflexivity. }
  split; [apply HE|]. split; [|split; [|split; [|split]]].
  - intros Hne. rewrite parseInt_relative.
    destruct (Z.eqb_spec (score - par) 0); [lia | reflexivity].
  - split.
    + intros H. pose proof (parseInt_relative score par) as H1.
      pose proof (parseInt_relative score' par') as H2. rewrite H in H1.
      rewrite H1 in H2.
      destruct (Z.eqb_spec (score - par) 0), (Z.eqb_spec (score' - par') 0);
        congruence.
    + intros H. unfold getRelativeScore. rewrite H. reflexivity.
  - rewrite HE. unfold getTotalScoreClass.
    destruct (Z.ltb_spec (score - par) 0); [split; [discriminate | lia]|].
    destruct (Z.eqb_spec (score - par) 0); split; first [discriminate | lia | reflexivity].
  - unfold getTotalScoreClass.
    destruct (Z.ltb_spec (score - par) 0); [split; [lia | reflexivity]|].
    destruct (Z.eqb_spec (score - par) 0); split; first [discriminate | lia].
  - rewrite HE. unfold getScoreClass.
    destruct (Z.leb_spec (score - par) (-2)); [split; [discriminate | lia]|].
    destruct (Z.eqb_spec (score - par) (-1)); [split; [discriminate | lia]|].
    destruct (Z.eqb_spec (score - par) 0); [split; [lia | reflexivity]|].
    destruct (Z.eqb_spec (score - par) 1); split; first [discriminate | lia].
Qed.

Lemma relative_score_text_witness :
  parseInt (getRelativeScore 5 3) = Num 2 /\ parseInt (getRelativeScore 2 3) = Num (-1).
Proof.
  split.
  - apply (relative_score_text 5 3 0 0). lia.
  - apply (relative_score_text 2 3 0 0). lia.
Defined.

(** *** The average *)

(** X23. [Utils.average] ignores the entries that are [null] or [NaN]:
    the average of a list is the average of its numbers, and it is
    [null] exactly when the list has no number. *)
Theorem average_ignores_invalid (numbers : list (option jsnum)) :
  average numbers = average (filter (fun n => is_number n = true) numbers)
  /\ (average numbers = None
      <-> Forall (fun n => is_number n = false) numbers).
Proof.
  unfold average.
  set (valid := filter (fun n => is_number n = true) numbers).
  assert (Hvv : filter (fun n => is_number n = true) valid = valid).
  { apply filter_filter_same. }
  assert (Hempty : valid = [] <-> Forall (fun n => is_number n = false) numbers).
  { subst valid. clear Hvv. induction numbers as [|n r IH]; [split; [constructor | reflexivity]|].
    rewrite filter_cons. destruct (decide (is_number n = true)) as [Hn|Hn].
    - split; [discriminate|]. intros H. apply Forall_cons in H as [H _]. congruence.
    - rewrite IH. split.
      + intros H. constructor; [destruct (is_number n); congruence | exact H].
      + intros H. apply Forall_cons in H as [_ H]. exact H. }
  split.
  - rewrite Hvv. destruct numbers as [|n r]; [reflexivity|].
    cbn [length Nat.eqb]. destruct valid; reflexivity.
  - rewrite <- Hempty. destruct numbers as [|n r]; [split; reflexivity|].
    cbn [length Nat.eqb]. destruct valid as [|v vs]; [split; reflexivity|].
    cbn [length Nat.eqb]. split; discriminate.
Qed.

End CourseStatisticsFacts.

(** ** Starting a round on a new course *)

Module NewCourseFacts.

Import App Play NewCourse TextFacts PlayFacts.
Local Open Scope app_scope.

Lemma isValidNumber_range (z : Z) (min max : Z) :
  isValidNumber (Num z) min max = (min <=? z) && (z <=? max).
Proof.
  unfold isValidNumber, Number_toString. rewrite parseInt_pretty. cbn.
  destruct (Z.ltb_spec z min), (Z.leb_spec min z), (Z.ltb_spec max z),
    (Z.leb_spec z max); cbn; try reflexivity; lia.
Qed.

Lemma empty_holes_length (env : Env) (course_id : string) (count : Z) :
  0 <= count -> Z.of_nat (length (empty_holes env course_id count)) = count.
Proof. intros H. unfold empty_holes. rewrite length_map, length_seq. lia. Qed.

Lemma empty_holes_lookup (env : Env) (course_id : string) (count : Z) (i : nat) :
  (i < Z.to_nat count)%nat ->
  empty_holes env course_id count !! i
  = Some (Hole.mk (generateId env (S i)) course_id (Z.of_nat i + 1) 3 None).
Proof.
  intros Hi. unfold empty_holes. rewrite list_lookup_fmap, lookup_seq_lt by exact Hi.
  reflexivity.
Qed.

(** X24. A round on a new course: the form is accepted exactly when the
    trimmed name is valid and the hole count reads as a number from 1 to
    27 (for a count below 10^21, where the text of a number changes its
    notation); a form that is refused leaves the session as it was; a
    form that is accepted makes the round current and saves it: it has
    the trimmed name, no score, as many holes as the count says,
    numbered from 1 in order, each of par 3 and without distance, and it
    can be played: no handler of the round throws on it. *)
Theorem new_course_round (env : Env) (w : t) :
  (forall z, parseInt (hole_count env) = Num z -> z < 10 ^ 21) ->
  let accepted :=
    name_isValid (validateCourseName (trim (course_name env)))
    && in_range 1 27 (parseInt (hole_count env)) in
  (accepted = false -> handleNewCourseSubmit env w = (Normal tt, w))
  /\ (accepted = true ->
      exists round count,
        parseInt (hole_count env) = Num count
        /\ fst (handleNewCourseSubmit env w) = Normal tt
        /\ currentRound (snd (handleNewCourseSubmit env w)) = Some round
        /\ currentHoleIndex (snd (handleNewCourseSubmit env w)) = 0
        /\ Storage.getCurrentRound (storage (snd (handleNewCourseSubmit env w)))
           = Some round
        /\ playable (snd (handleNewCourseSubmit env w))
        /\ Round.courseName round = trim (course_name env)
        /\ Round.isNewCourse round = true
        /\ Round.completed round = false
        /\ Round.scores round = []
        /\ Round.holeCount round = count
        /\ Z.of_nat (length (Round.holes round)) = count
        /\ (forall i hole,
              Round.holes round !! i = Some hole ->
              Hole.hole_number hole = Z.of_nat i + 1
              /\ Hole.par hole = 3 /\ Hole.distance hole = None
              /\ Hole.course_id hole = Round.course_id round)).
Proof.
  intros _ accepted. subst accepted. unfold handleNewCourseSubmit.
  destruct (name_isValid (validateCourseName (trim (course_name env)))); cbn [negb andb];
    [|split; [reflexivity | discriminate]].
  destruct (parseInt (hole_count env)) as [|count] eqn:Hcount.
  { split; [reflexivity | discriminate]. }
  rewrite isValidNumber_range. cbn [in_range].
  destruct ((1 <=? count) && (count <=? 27)) eqn:Hrange; cbn [negb];
    [|split; [reflexivity | discriminate]].
  split; [discriminate|]. intros _.
  apply andb_true_iff in Hrange as [H1 H27].
  apply Z.leb_le in H1, H27.
  set (course_id := generateId env 0).
  assert (Hlen : Z.of_nat (length (empty_holes env course_id count)) = count).
  { apply empty_holes_length. lia. }
  assert (Hholes : forall i hole,
            empty_holes env course_id count !! i = Some hole ->
            Hole.hole_number hole = Z.of_nat i + 1
            /\ Hole.par hole = 3 /\ Hole.distance hole = None
            /\ Hole.course_id hole = course_id).
  { intros i hole Hlook.
    assert (Hi : (i < Z.to_nat count)%nat).
    { apply lookup_lt_Some in Hlook. unfold empty_holes in Hlook.
      rewrite length_map, length_seq in Hlook. exact Hlook. }
    rewrite (empty_holes_lookup _ _ _ _ Hi) in Hlook.
    injection Hlook as <-. repeat split. }
  assert (Hjson : map json_hole (empty_holes env course_id count)
                  = empty_holes env course_id count).
  { unfold empty_holes. rewrite map_map. reflexivity. }
  destruct (array_get_in_range (empty_holes env course_id count) 0) as [h0 Hh0];
    [lia|].
  cbn [Course.course_id]. fold course_id.
  generalize dependent (empty_holes env course_id count). intros holes Hlen Hholes Hjson Hh0.
  unfold bind, saveCurrentRoundState, emit, do_renderScoringScreen.
  cbn [currentRound currentHoleIndex storage ui Round.holes fst snd].
  rewrite Hh0. cbn [fst snd currentRound currentHoleIndex storage ui].
  eexists _, count. split; [reflexivity|].
  split; [reflexivity|]. split; [reflexivity|]. split; [reflexivity|].
  split; [cbn; unfold json_round; cbn; rewrite Hjson; reflexivity|].
  split.
  { eexists. split; [reflexivity|]. cbn.
    split; [symmetry; exact Hlen|]. split; [lia|]. split; [reflexivity|].
    intros snap [= <-]. cbn. rewrite length_map. split; [symmetry; exact Hlen | lia]. }
  cbn. repeat (split; [reflexivity|]). split; [exact Hlen | exact Hholes].
Qed.

Lemma new_course_round_witness :
  exists round,
    currentRound (snd (handleNewCourseSubmit nine_holes Session.at_first_hole))
    = Some round
    /\ Round.courseName round = "Oak Park"
    /\ Round.holeCount round = 9.
Proof.
  destruct (new_course_round nine_holes Session.at_first_hole) as [_ H].
  - intros z [= <-]. reflexivity.
  - destruct (H eq_refl)
      as (round & count & Hp & _ & Hr & _ & _ & _ & Hn & _ & _ & _ & Hc & _).
    injection Hp as <-.
    exists round. split; [exact Hr|]. split; [exact Hn | exact Hc].
Defined.

End NewCourseFacts.

(** ** Saving a finished round *)

Module FinishFacts.

Import Storage SheetsAPI Rows Finish.

Lemma summary_round_at_summary :
  App.currentRound Session.at_summary = Some summary_round.
Proof. reflexivity. Qed.

Section Gateway.

Context {GW : Type}.
Variable gateway : Call -> GW -> option (list obj) * GW.

Local Abbreviation World := (@World GW).
Local Abbreviation T := (@T GW).

Lemma keeps_queue_bind {A B : Type} (m : T A) (k : A -> T B) :
  keeps_queue m -> (forall a, keeps_queue (k a)) -> keeps_queue (bind m k).
Proof.
  intros Hm Hk w. unfold bind. specialize (Hm w).
  destruct (m w) as [[a|e] w']; cbn in *; [rewrite Hk|]; exact Hm.
Qed.

Lemma keeps_queue_ret {A : Type} (a : A) : keeps_queue (@ret GW A a).
Proof. intros w. reflexivity. Qed.

Lemma keeps_queue_remote {A : Type} (m : @Async GW A) : keeps_queue (remote m).
Proof. intros w. unfold remote. destruct (m (net w)). reflexivity. Qed.

Lemma keeps_queue_set_round (round : option Round.t) (index : Z) :
  keeps_queue (@set_round GW round index).
Proof. intros w. reflexivity. Qed.

Lemma keeps_queue_showScreen (screen : string) : keeps_queue (@showScreen GW screen).
Proof. intros w. reflexivity. Qed.

Lemma keeps_queue_local {A : Type} (f : Storage.t -> completion A * Storage.t) :
  (forall st, getPendingSync (Storage.local (snd (f st)))
              = getPendingSync (Storage.local st)) ->
  keeps_queue (@local_store GW A f).
Proof.
  intros Hf w. unfold local_store, queue.
  specialize (Hf (Storage.mk (database w) (App.storage (session w)))).
  destruct (f _) as [c st]. exact Hf.
Qed.

Lemma put_keeps_queue (st : Storage.t) (ok : bool) (storeName : string) (item : obj) :
  getPendingSync (Storage.local (snd (put st ok storeName item)))
  = getPendingSync (Storage.local st).
Proof.
  unfold put. destruct (db st) as [d|]; [|reflexivity].
  destruct (objectStores d !! storeName); [|reflexivity].
  destruct (store_put _ _); [|reflexivity]. destruct ok; reflexivity.
Qed.

Lemma putMany_keeps_queue (st : Storage.t) (ok : bool) (storeName : string)
    (items : list obj) :
  getPendingSync (Storage.local (snd (StorageOps.putMany st ok storeName items)))
  = getPendingSync (Storage.local st).
Proof.
  unfold StorageOps.putMany. destruct (db st) as [d|]; [|reflexivity].
  destruct (objectStores d !! storeName); [|reflexivity].
  destruct (StorageOps.put_each _ _) as [[|] os]; destruct ok; reflexivity.
Qed.

(** X25. While the app takes itself to be online, [handleFinishRound]
    queues nothing, whatever the service answers and whatever the
    stores hold: the pending queue is afterwards what it was, also when
    a request to the sheets has failed. *)
Theorem finish_online_queues_nothing (env : Env) (w : World) :
  queue (handleFinishRound gateway env true w) = queue w.
Proof.
  assert (Hbody : keeps_queue (save_round gateway env true)).
  { intros w0. unfold save_round.
    destruct (App.currentRound (session w0)) as [round0|]; [|reflexivity].
    generalize (App.currentHoleIndex (session w0)). intros index.
    match goal with
    | |- queue (snd (?M w0)) = queue w0 =>
        assert (H : keeps_queue M); [|exact (H w0)]
    end.
    destruct (Round.isNewCourse round0), (Round.courseData round0) eqn:Hcourse;
      cbn [played Round.courseData]; rewrite ?Hcourse;
      repeat first
        [ apply keeps_queue_bind; [|intros ?]
        | apply keeps_queue_ret
        | apply keeps_queue_remote
        | apply keeps_queue_set_round
        | apply keeps_queue_showScreen
        | apply keeps_queue_local; intros ?;
          first [apply put_keeps_queue | apply putMany_keeps_queue | reflexivity]
        | (intros ?; reflexivity) ]. }
  unfold handleFinishRound. specialize (Hbody w).
  destruct (save_round gateway env true w) as [[a|e] w']; cbn in *; exact Hbody.
Qed.

(** The store of the world, as [Storage] sees it. *)
Lemma save_round_offline_fallback (env : Env) (w : World) (round : Round.t) :
  App.currentRound (session w) = Some round -> database w = None ->
  exists ls,
    save_round gateway env false w
    = (Normal tt,
       mkWorld (App.mk None 0 ls (App.ui (session w) ++ [App.showScreen "home"]))
               None (net w))
    /\ getCurrentRound ls = None
    /\ getPendingSync ls
       = getPendingSync (App.storage (session w)) ++ queued_for env (saved_round env round)
    /\ get_items ls "dgtracker_scores" = Some (map score_obj (Round.scores round))
    /\ (exists rounds,
          get_items ls "dgtracker_rounds" = Some rounds
          /\ StorageOps.find_first
               (fun item => strict_eq (item !! "round_id")
                                      (Some (VStr (Round.round_id round))))
               rounds
             = Some (roundData (saved_round env round))).
Proof.
  intros Hround Hdb. destruct w as [[cr idx ls0 ui0] dbase n0]. cbn in Hround, Hdb.
  subst cr dbase. unfold save_round. cbn [session App.currentRound].
  assert (Hput : forall (item : obj) (id : value) (l : list obj),
            item !! "round_id" = Some id ->
            StorageOps.find_first
              (fun i => strict_eq (i !! "round_id") (Some id))
              (match findIndex (fun i => strict_eq (i !! "round_id") (item !! "round_id")) l
               with Some k => <[k := item]> l | None => l ++ [item] end)
            = Some item).
  { intros item id l Hid. rewrite Hid.
    destruct (findIndex _ l) as [k|] eqn:Hf.
    - apply (StorageOpsFacts.find_first_insert _ _ k item Hf).
      rewrite Hid. apply bool_decide_eq_true. reflexivity.
    - apply StorageOpsFacts.find_first_app_new; [exact Hf|].
      rewrite Hid. apply bool_decide_eq_true. reflexivity. }
  destruct (Round.isNewCourse round) eqn:Hnew, (Round.courseData round) eqn:Hcourse;
    unfold saved_round, queued_for; rewrite ?Hnew, ?Hcourse;
    cbn [played Round.courseData Round.isNewCourse]; rewrite ?Hcourse, ?Hnew;
    unfold bind, set_round, local_store, enqueue, showScreen, ret; cbn;
    eexists; (split; [reflexivity|]); (split; [reflexivity|]);
    (split; [cbn; rewrite <- ?app_assoc; reflexivity|]);
    unfold get_items, set_items; cbn;
    (split; [lookups; reflexivity|]);
    lookups; eexists; (split; [reflexivity|]);
    apply Hput; unfold roundData; apply lookup_insert_eq.
Qed.

(** X26. Finishing a round offline, on the fallback store: the round
    leaves the session and its snapshot is removed; no request is made;
    the operations of the round are added to the pending queue, in the
    order course, holes (for a new course), round, scores, last played;
    the round is in the local collection of rounds; and the local
    collection of scores holds the entries of this round and nothing
    else: the entries of the rounds saved before are no longer there. *)
Theorem finish_offline_fallback (env : Env) (w : World) (round : Round.t) :
  App.currentRound (session w) = Some round -> database w = None ->
  let w' := handleFinishRound gateway env false w in
  let store := Storage.mk (database w') (App.storage (session w')) in
  App.currentRound (session w') = None
  /\ App.currentHoleIndex (session w') = 0
  /\ getCurrentRound (App.storage (session w')) = None
  /\ net w' = net w
  /\ queue w' = queue w ++ queued_for env (saved_round env round)
  /\ getAll store true "scores" = Normal (map score_obj (Round.scores round))
  /\ StorageOps.getById store true "rounds" (VStr (Round.round_id round))
     = Normal (Some (roundData (saved_round env round))).
Proof.
  intros Hround Hdb w' store. subst store w'. unfold handleFinishRound.
  destruct (save_round_offline_fallback env w round Hround Hdb)
    as (ls & -> & Hsnap & Hq & Hscores & rounds & Hrounds & Hfind).
  cbn [session database net App.currentRound App.currentHoleIndex App.storage].
  split; [reflexivity|]. split; [reflexivity|]. split; [exact Hsnap|].
  split; [reflexivity|]. split; [exact Hq|]. split.
  - unfold getAll. cbn. change (CONFIG.storageKeys "scores") with "dgtracker_scores".
    rewrite Hscores. reflexivity.
  - unfold StorageOps.getById. cbn.
    change (CONFIG.storageKeys "rounds") with "dgtracker_rounds".
    change (keyField "rounds") with "round_id".
    rewrite Hrounds. cbn [or_empty]. rewrite Hfind. reflexivity.
Qed.

End Gateway.

Lemma finish_offline_fallback_witness :
  getAll (Storage.mk None (App.storage (session at_summary_offline))) true "scores"
  = Normal [score_obj (Score.mk "old-1" "round-0" "hole-1" 1 (Some (Num 5))
                                None None "2024-04-01")]
  /\ getAll
       (Storage.mk None
          (App.storage (session (handleFinishRound refusing finish_env false
                                   at_summary_offline))))
       true "scores"
     = Normal (map score_obj (Round.scores summary_round)).
Proof.
  split; [reflexivity|].
  destruct (finish_offline_fallback refusing finish_env at_summary_offline
              summary_round eq_refl eq_refl) as (_ & _ & _ & _ & _ & H & _).
  exact H.
Defined.

(** X27. A request that fails while the app takes itself to be online:
    with a service that refuses every request, on the fallback store,
    [handleFinishRound] makes one request, which fails; the round stays
    the current round and its snapshot stays; nothing is queued; and of
    a round on a new course neither the round nor its entries are in the
    local store, where those of a round on a known course are. *)
Theorem finish_online_refused (env : Env) (w : @World unit) (round : Round.t) :
  App.currentRound (session w) = Some round -> database w = None ->
  let w' := handleFinishRound refusing env true w in
  let store := Storage.mk (database w') (App.storage (session w')) in
  App.currentRound (session w') = Some (saved_round env round)
  /\ getCurrentRound (App.storage (session w'))
     = getCurrentRound (App.storage (session w))
  /\ queue w' = queue w
  /\ map ev_ok (log (net w')) = map ev_ok (log (net w)) ++ [false]
  /\ (if Round.isNewCourse round && Replay.is_some (Round.courseData round)
      then get_items (App.storage (session w')) "dgtracker_rounds"
           = get_items (App.storage (session w)) "dgtracker_rounds"
           /\ get_items (App.storage (session w')) "dgtracker_scores"
              = get_items (App.storage (session w)) "dgtracker_scores"
      else getAll store true "scores" = Normal (map score_obj (Round.scores round))).
Proof.
  intros Hround Hdb w' store. subst store w'.
  destruct w as [[cr idx ls0 ui0] dbase [[] evs]]. cbn in Hround, Hdb. subst cr dbase.
  unfold handleFinishRound, save_round. cbn [session App.currentRound].
  destruct (Round.isNewCourse round) eqn:Hnew, (Round.courseData round) eqn:Hcourse;
    unfold saved_round; rewrite ?Hnew, ?Hcourse;
    cbn [played Round.courseData Round.isNewCourse]; rewrite ?Hcourse, ?Hnew;
    unfold bind, set_round, local_store, remote, showScreen, ret,
      saveCourse, saveRound, createRow, SheetsAPI.bind, request, refusing;
    cbn -[prepareRowData course_obj hole_obj score_obj roundData];
    unfold queue; cbn -[prepareRowData course_obj hole_obj score_obj roundData];
    (split; [reflexivity|]); (split; [reflexivity|]); (split; [reflexivity|]);
    (split; [rewrite map_app; reflexivity|]);
    unfold get_items, set_items, getAll;
    cbn -[prepareRowData course_obj hole_obj score_obj roundData];
    lookups; try reflexivity.
  all: split; reflexivity.
Qed.

Lemma finish_online_refused_witness :
  App.currentRound
    (session (handleFinishRound refusing finish_env true at_summary_offline))
  = Some (saved_round finish_env summary_round)
  /\ queue (handleFinishRound refusing finish_env true at_summary_offline)
     = queue at_summary_offline.
Proof.
  destruct (finish_online_refused finish_env at_summary_offline summary_round
              eq_refl eq_refl) as (H1 & _ & H2 & _).
  split; [exact H1 | exact H2].
Defined.

End FinishFacts.

(** ** The validation protocol of the specification and [validateScoreEntry] *)

Module ProtocolFacts.

Import App Session Play TextFacts.

Lemma read_digits_all_digits (s : string) (seen : bool) (acc : Z) :
  all_digits s = true ->
  read_digits s seen acc
  = if seen || truthy_string s then Num (decimal_value s acc) else NaN.
Proof.
  revert seen acc. induction s as [|c r IH]; intros seen acc Hs; cbn in *.
  - rewrite orb_false_r. reflexivity.
  - apply andb_true_iff in Hs as [Hc Hr]. rewrite Hc, (IH _ _ Hr), orb_true_r.
    reflexivity.
Qed.

Lemma unsigned_read_digits (s : string) (n : Z) :
  unsigned s = Some n -> read_digits s false 0 = Num n.
Proof.
  unfold unsigned. destruct (truthy_string s) eqn:Hne; [|discriminate].
  destruct (all_digits s) eqn:Hs; [|discriminate]. cbn. intros [= <-].
  rewrite (read_digits_all_digits s false 0 Hs), Hne. reflexivity.
Qed.

Lemma unsigned_head (c : ascii) (r : string) (n : Z) :
  unsigned (String c r) = Some n -> is_digit c = true.
Proof.
  unfold unsigned. cbn. destruct (is_digit c); [reflexivity | discriminate].
Qed.

(** A text that writes an integer is read as that integer by [parseInt],
    trimmed or not. *)
Lemma input_value_parseInt (text : string) (z : Z) :
  input_value_of text = Integer z ->
  parseInt (trim text) = Num z /\ parseInt text = Num z
  /\ String.eqb (trim text) "" = false.
Proof.
  intros Hv.
  assert (H : parseInt (trim text) = Num z /\ String.eqb (trim text) "" = false).
  { unfold input_value_of in Hv. destruct (trim text) as [|c r]; [discriminate Hv|].
    split; [|reflexivity].
    destruct (ascii_dec c "-") as [->|Hm].
    { destruct (unsigned r) as [n|] eqn:Hu; [|discriminate Hv].
      injection Hv as <-. rewrite parseInt_minus, (unsigned_read_digits r n Hu).
      reflexivity. }
    destruct (ascii_dec c "+") as [->|Hp].
    { destruct (unsigned r) as [n|] eqn:Hu; [|discriminate Hv].
      injection Hv as <-. change (parseInt (String "+" r)) with (read_digits r false 0).
      apply (unsigned_read_digits r n Hu). }
    assert (Hu : unsigned (String c r) = Some z).
    { destruct c as [[] [] [] [] [] [] [] []];
        first [ exfalso; apply Hm; reflexivity
              | exfalso; apply Hp; reflexivity
              | destruct (unsigned (String _ r)); [congruence | discriminate Hv] ]. }
    rewrite (parseInt_digits c r (unsigned_head c r z Hu)).
    apply (unsigned_read_digits _ z Hu). }
  destruct H as [Hp Hne]. rewrite <- (parseInt_trim text). auto.
Qed.

Lemma input_value_absent (text : string) :
  input_value_of text = Absent <-> trim text = "".
Proof.
  unfold input_value_of. destruct (trim text) as [|c r]; [split; reflexivity|].
  split; [|discriminate].
  destruct c as [[] [] [] [] [] [] [] []];
    destruct (unsigned _); discriminate.
Qed.

Lemma rule_primary_in_range (text : string) :
  rule_primary (input_value_of text) = true ->
  exists t, input_value_of text = Integer t /\ parseInt text = Num t
            /\ in_range 1 20 (parseInt text) = true.
Proof.
  destruct (input_value_of text) as [|t|] eqn:Hv; cbn; try discriminate.
  intros Hr. exists t. destruct (input_value_parseInt text t Hv) as (_ & Hp & _).
  rewrite Hp. auto.
Qed.

Lemma rule_optional_in_range (text : string) :
  rule_optional (input_value_of text) = true ->
  (input_value_of text = Absent /\ String.eqb (trim text) "" = true)
  \/ (exists a, input_value_of text = Integer a /\ parseInt (trim text) = Num a
                /\ String.eqb (trim text) "" = false
                /\ in_range 0 19 (parseInt (trim text)) = true).
Proof.
  destruct (input_value_of text) as [|a|] eqn:Hv; cbn; try discriminate.
  - intros _. left. split; [reflexivity|].
    apply String.eqb_eq, input_value_absent. exact Hv.
  - intros Hr. right. exists a.
    destruct (input_value_parseInt text a Hv) as (Hp & _ & Hne).
    rewrite Hp. auto.
Qed.

(** [validateScoreEntry] accepts every form that passes the protocol of the
    specification: what it rejects fails the protocol. *)
Lemma protocol_accepted (i : ScoreInputs) :
  spec_protocol i = true -> isValid (validateScoreEntry i) = true.
Proof.
  rewrite ValidationFacts.isValid_accepted. unfold spec_protocol, protocol, accepted.
  intros H. apply andb_true_iff in H as [H H4]. apply andb_true_iff in H as [H H3].
  apply andb_true_iff in H as [H1 H2].
  destruct (rule_primary_in_range _ H1) as (t & Vt & Pt & Rt).
  rewrite Rt, Vt in *. cbn [andb].
  destruct (rule_optional_in_range _ H2) as [[Va Ea] | (a & Va & Pa & Ea & Ra)];
    destruct (rule_optional_in_range _ H3) as [[Vp Ep] | (p & Vp & Pp & Ep & Rp)];
    rewrite ?Ea, ?Ep, ?Ra, ?Rp; cbn; try reflexivity.
  rewrite Pa, Pp, Pt. rewrite Va, Vp in H4. exact H4.
Qed.

(** The texts between the two: a form that [validateScoreEntry] accepts
    fails the protocol exactly when one of its fields holds something that
    is not an integer. *)
Lemma accepted_not_protocol (i : ScoreInputs) :
  isValid (validateScoreEntry i) = true ->
  spec_protocol i = false
  <-> (input_value_of (score_throws i) = NotInteger
       \/ input_value_of (score_approaches i) = NotInteger
       \/ input_value_of (score_putts i) = NotInteger).
Proof.
  rewrite ValidationFacts.isValid_accepted. unfold accepted, spec_protocol, protocol.
  intros H. apply andb_true_iff in H as [H H4]. apply andb_true_iff in H as [H H3].
  apply andb_true_iff in H as [H1 H2].
  split.
  - intros Hs.
    destruct (input_value_of (score_throws i)) as [|t|] eqn:Vt; [|  |auto].
    { apply input_value_absent in Vt. rewrite <- (parseInt_trim (score_throws i)), Vt in H1.
      discriminate H1. }
    destruct (input_value_parseInt _ t Vt) as (_ & Pt & _).
    destruct (input_value_of (score_approaches i)) as [|a|] eqn:Va; [| |auto].
    + pose proof (proj1 (input_value_absent _) Va) as Ea.
      destruct (input_value_of (score_putts i)) as [|p|] eqn:Vp; [| |auto].
      * rewrite Pt in H1. cbn in *. rewrite H1 in Hs. discriminate Hs.
      * destruct (input_value_parseInt _ p Vp) as (Pp & _ & Ep).
        rewrite Ep, Pp, Pt in *. cbn in *. rewrite H1, H3 in Hs. discriminate Hs.
    + destruct (input_value_parseInt _ a Va) as (Pa & _ & Ea).
      destruct (input_value_of (score_putts i)) as [|p|] eqn:Vp; [| |auto].
      * rewrite Ea, Pa, Pt in *. cbn in *. rewrite H1, H2 in Hs. discriminate Hs.
      * destruct (input_value_parseInt _ p Vp) as (Pp & _ & Ep).
        rewrite Ea, Ep, Pa, Pp, Pt in *. cbn in *.
        rewrite H1, H2, H3, H4 in Hs. discriminate Hs.
  - intros [-> | [-> | ->]]; cbn.
    + reflexivity.
    + rewrite andb_false_r. reflexivity.
    + rewrite !andb_false_r. reflexivity.
Qed.

(** The protocol on some texts: 4.9, 1e1 and 4 throws. *)
Example spec_protocol_examples :
  spec_protocol (mkInputs "4.9" "" "") = false
  /\ spec_protocol (mkInputs "1e1" "" "") = false
  /\ spec_protocol (mkInputs " 4 " " " "") = true
  /\ spec_protocol (mkInputs "4" "2" "1") = true
  /\ spec_protocol (mkInputs "3" "2" "1") = false
  /\ spec_protocol (mkInputs "" "" "") = false
  /\ spec_protocol (mkInputs "21" "" "") = false
  /\ isValid (validateScoreEntry (mkInputs "4.9" "" "")) = true
  /\ isValid (validateScoreEntry (mkInputs "1e1" "" "")) = true.
Proof. repeat split; reflexivity. Qed.

(** C2, at the inputs where the code departs from it. A form that fails
    the validation protocol of the specification and that
    [validateScoreEntry] accepts, which is a form with a field that does not
    hold an integer, such as 4.9 throws, is not refused: on a playable
    session [handleSaveHole] completes, shows no validation error, writes
    for the active hole an entry with the numbers that [parseInt] reads at
    the head of the texts (4 throws for 4.9), saves the snapshot with it,
    and finishes the round on the last hole or moves to the next one. *)
Theorem non_integer_entry_saved (env : Env) (w : t) (round : Round.t) :
  playable w ->
  currentRound w = Some round ->
  spec_protocol (score_entry (dom env)) = false ->
  isValid (validateScoreEntry (score_entry (dom env))) = true ->
  (input_value_of (score_throws (score_entry (dom env))) = NotInteger
   \/ input_value_of (score_approaches (score_entry (dom env))) = NotInteger
   \/ input_value_of (score_putts (score_entry (dom env))) = NotInteger)
  /\ exists round' e,
       fst (handleSaveHole env w) = Normal tt
       /\ currentRound (snd (handleSaveHole env w)) = Some round'
       /\ Storage.getCurrentRound (storage (snd (handleSaveHole env w)))
          = Some (json_round round')
       /\ In e (Round.scores round')
       /\ entered env (currentHoleIndex w) e
       /\ (forall errs,
             In (showValidationErrors errs) (ui (snd (handleSaveHole env w))) ->
             In (showValidationErrors errs) (ui w))
       /\ (if currentHoleIndex w =? Round.holeCount round - 1
           then Round.completed round' = true
                /\ currentHoleIndex (snd (handleSaveHole env w)) = currentHoleIndex w
           else currentHoleIndex (snd (handleSaveHole env w)) = currentHoleIndex w + 1).
Proof.
  intros Hw Hr Hs Hv.
  split; [apply (accepted_not_protocol _ Hv); exact Hs|].
  destruct (PlayFacts.safe_handleSaveHole env w Hw) as [Hok _].
  pose proof Hw as (round0 & Hr0 & Hc & Hi & _).
  assert (round0 = round) as -> by congruence.
  destruct (PlayFacts.array_get_in_range (Round.holes round) (currentHoleIndex w))
    as [hole Hh]; [lia|].
  destruct (PlayFacts.handleSaveHole_after_save env w round hole Hv Hr Hh)
    as (r1 & d & Hsc & Hent & Hrun).
  destruct (SessionClaims.entered_update_or_add env (currentHoleIndex w) d
              (Round.scores round) Hent) as (e & Hin & He).
  rewrite <- Hsc in Hin.
  assert (Hui : forall (l : list UiEvent) errs,
            In (showValidationErrors errs) l ->
            (forall x, In x l -> In x (ui w) \/ x = clearValidationErrors
                               \/ x = showScreen "summary" \/ x = renderSummary
                               \/ x = renderScoringScreen) ->
            In (showValidationErrors errs) (ui w)).
  { intros l errs Hl Hall. destruct (Hall _ Hl) as [H|[H|[H|[H|H]]]];
      [exact H | discriminate H ..]. }
  rewrite Hrun in *.
  destruct (currentHoleIndex w =? Round.holeCount round - 1).
  - eexists _, e. split; [exact Hok|].
    unfold finishRound, bind, saveCurrentRoundState, emit. cbn.
    split; [reflexivity|]. split; [reflexivity|]. cbn.
    split; [exact Hin|]. split; [exact He|]. split; [|split; reflexivity].
    intros errs Hl. apply (Hui _ errs Hl). intros x Hx.
    rewrite !in_app_iff in Hx. cbn in Hx. intuition auto.
  - eexists (Round.with_currentHoleIndex r1 (currentHoleIndex w + 1)), e.
    split; [exact Hok|].
    unfold set_index, bind, saveCurrentRoundState, do_renderScoringScreen, emit. cbn.
    destruct (array_get (Round.holes r1) _); cbn;
      (split; [reflexivity|]); (split; [reflexivity|]);
      (split; [exact Hin|]); (split; [exact He|]); (split; [|reflexivity]);
      intros errs Hl; apply (Hui _ errs Hl); intros x Hx;
      rewrite ?in_app_iff in Hx; cbn in Hx; intuition auto.
Qed.

(** 4.9 throws submitted on the first hole of a new round: the protocol
    rejects the form, and the entry of hole 1 is written with 4 throws. *)
Lemma non_integer_entry_saved_witness :
  spec_protocol (mkInputs "4.9" "" "") = false
  /\ input_value_of "4.9" = NotInteger
  /\ exists round' e,
       handleSaveHole (form "4.9" "" "" "score-1") at_first_hole
       = (Normal tt,
          mk (Some round') 1 (Storage.saveCurrentRound (storage at_first_hole) round')
             [clearValidationErrors; renderScoringScreen])
       /\ Round.scores round' = [e]
       /\ Score.hole_number e = 1
       /\ Score.throws e = Some (Num 4).
Proof.
  destruct (non_integer_entry_saved (form "4.9" "" "" "score-1") at_first_hole
              three_hole_round) as (_ & round' & e & _ & Hr & _).
  - exists three_hole_round. split; [reflexivity|]. split; [reflexivity|].
    split; [change (0 <= 0 < 3); lia|]. split; [reflexivity|].
    intros snap [= <-]. split; [reflexivity | change (0 <= 0 < 3); lia].
  - reflexivity.
  - reflexivity.
  - reflexivity.
  - split; [reflexivity|]. split; [reflexivity|].
    exists round'.
    injection Hr as <-. eexists. split; [reflexivity|].
    split; [reflexivity|]. split; reflexivity.
Defined.

End ProtocolFacts.
